(** * The MergeTree read planner (MergeTreeDataSelectExecutor.cpp)

    A shallow embedding of [MergeTreeDataSelectExecutor]: the index pruner
    [markRangesFromPkRange], the two thread spreaders and the entry point
    [read], followed by the properties of the planner.

    Conventions of the embedding.
    - [size_t] and [UInt64] values are integers of [Z]; every arithmetic
      operation of the source on them is written with its reduction modulo
      2^64 ([add64], [sub64], [mul64]); what C++ leaves undefined (a
      division by zero, an element of a vector beyond its size, the
      conversion to [UInt64] of a double that is no value of [UInt64]) is the
      outcome [Undefined].
    - A [std::vector] is a list in index order; [back], [pop_back],
      [push_back] and [set_back] are the vector operations of the same name
      ([set_back] is an assignment through the reference [v.back()]).
    - A [while]/[for] loop is [while_ fuel cond body]: at most [fuel]
      iterations, outcome [OutOfFuel] when they do not suffice.
    - A function that can throw returns an [outcome]: [Exception] for a
      [DB::Exception] with its code, [BadCast] for the [std::bad_cast] of a
      failed reference cast.
    - The collaborators the planner only calls (PKCondition, the expression
      analyzer, double arithmetic, the field visitors) are the operations of
      the classes [FloatingPoint] and [Collaborators]. *)

From Stdlib Require Import String.
From Stdlib Require PrimFloat FloatOps Uint63 SpecFloat.
From Stdlib Require Import ZArith List Bool Lia Permutation Arith.
Import ListNotations.
Set Warnings "-register-all".
Open Scope Z_scope.

(** ** Machine integers *)

Definition size_t_modulus : Z := 2 ^ 64.

Definition is_size_t (x : Z) : Prop := 0 <= x < size_t_modulus.

Definition wrap64 (x : Z) : Z := x mod size_t_modulus.
Definition add64 (a b : Z) : Z := wrap64 (a + b).
Definition sub64 (a b : Z) : Z := wrap64 (a - b).
Definition mul64 (a b : Z) : Z := wrap64 (a * b).

(** ** Outcomes of the source's functions *)

Inductive ErrorCode : Type :=
| NO_SUCH_COLUMN_IN_TABLE
| ARGUMENT_OUT_OF_BOUND
| ILLEGAL_TYPE_OF_COLUMN_FOR_FILTER
| ILLEGAL_COLUMN
| LOGICAL_ERROR.

Inductive outcome (A : Type) : Type :=
| Return (a : A)
| Exception (message : string) (code : ErrorCode)
| BadCast
| Undefined
| OutOfFuel.

Arguments Return {A} a.
Arguments Exception {A} message code.
Arguments BadCast {A}.
Arguments Undefined {A}.
Arguments OutOfFuel {A}.

Definition bind {A B : Type} (m : outcome A) (k : A -> outcome B) : outcome B :=
  match m with
  | Return a => k a
  | Exception msg code => Exception msg code
  | BadCast => BadCast
  | Undefined => Undefined
  | OutOfFuel => OutOfFuel
  end.

Declare Scope outcome_scope.
Delimit Scope outcome_scope with outcome.
Notation "x <- m ;; k" := (bind m (fun x => k))
  (at level 61, m at next level, right associativity) : outcome_scope.
Notation "' p <- m ;; k" := (bind m (fun p => k))
  (at level 61, p pattern, m at next level, right associativity) : outcome_scope.
Open Scope outcome_scope.


Definition returns {A : Type} (r : outcome A) : Prop :=
  exists a, r = Return a.

(** [while (cond) body], at most [fuel] iterations. *)
Fixpoint while_ {S : Type} (fuel : nat) (cond : S -> bool)
    (body : S -> outcome S) (s : S) : outcome S :=
  match fuel with
  | O => if cond s then OutOfFuel else Return s
  | Datatypes.S n =>
      if cond s then s' <- body s ;; while_ n cond body s' else Return s
  end.

(** [for (size_t i = 0; i < v.size(); ++i) body(v[i])] on a state. *)
Fixpoint for_each {A S : Type} (v : list A) (body : S -> A -> outcome S) (s : S)
    : outcome S :=
  match v with
  | [] => Return s
  | x :: v' => s' <- body s x ;; for_each v' body s'
  end.

(** ** Vectors *)

Section Vector.
Context {A : Type}.

Definition empty (v : list A) : bool :=
  match v with [] => true | _ => false end.

Fixpoint back (v : list A) : option A :=
  match v with
  | [] => None
  | [x] => Some x
  | _ :: v' => back v'
  end.

Definition pop_back (v : list A) : list A := removelast v.

Definition push_back (v : list A) (x : A) : list A := v ++ [x].

Definition set_back (v : list A) (x : A) : list A := push_back (pop_back v) x.

Definition size (v : list A) : Z := Z.of_nat (length v).
End Vector.

(** [std::sort] and [std::unique] followed by [erase], on column names. *)
Fixpoint sorted_insert (x : string) (v : list string) : list string :=
  match v with
  | [] => [x]
  | y :: v' => if String.leb x y then x :: v else y :: sorted_insert x v'
  end.

Definition std_sort (v : list string) : list string := fold_right sorted_insert [] v.

Fixpoint std_unique (v : list string) : list string :=
  match v with
  | [] => []
  | x :: v' =>
      match v' with
      | y :: _ => if String.eqb x y then std_unique v' else x :: std_unique v'
      | [] => [x]
      end
  end.

(** ** Mark ranges and parts *)

Record MarkRange : Type := mkMarkRange { begin : Z; end_ : Z }.

Definition MarkRanges : Type := list MarkRange.

Definition Names : Type := list string.

Definition SortDescription : Type := list string.

Record MergeTreeSettings : Type := {
  min_rows_for_seek : Z;
  min_rows_for_concurrent_read : Z;
  max_rows_to_use_cache : Z;
  coarse_index_granularity : Z
}.

(** ** Double arithmetic, as far as [read] uses it

    The operations of IEEE 754 on doubles, which are total (a division by
    zero gives an infinity or a NaN); the conversion of a double to
    [UInt64] is not. *)

Class FloatingPoint : Type := {
  double : Type;
  (** [static_cast<double>] of an unsigned 64-bit value *)
  double_of_UInt64 : Z -> double;
  (** [static_cast<UInt64>] of a double: the integral part when it is a
      value of UInt64; the conversion is undefined otherwise ([None]) *)
  UInt64_of_double : double -> option Z;
  double_lt : double -> double -> bool;
  double_div : double -> double -> double;
  double_mul : double -> double -> double;
  double_zero : double;
  double_one : double
}.

(** [std::min(a, b)]: [b] when [b < a], otherwise [a]. *)
Definition std_min `{FloatingPoint} (a b : double) : double :=
  if double_lt b a then b else a.

Section DataModel.
Context `{FP : FloatingPoint}.

Inductive Field : Type :=
| Null
| UInt64 (x : Z)
| Int64 (x : Z)
| Float64 (x : double)
| String_ (x : string).

(** The index of a part: [marks_count * key_size] fields, row after row. *)
Definition Index : Type := list Field.

(** [&v[offset]]: the address of a field inside a vector of fields. *)
Record FieldPtr : Type := mkFieldPtr { base : list Field; offset : Z }.

Record DataPart : Type := mkDataPart {
  name : string;
  left_date : Z;
  right_date : Z;
  index : Index
}.

Record RangesInDataPart : Type := mkRangesInDataPart {
  data_part : DataPart;
  ranges : MarkRanges
}.

Definition RangesInDataParts : Type := list RangesInDataPart.

Inductive ASTIdentifierKind : Type := Column | Database | Table | Format.

Inductive AST : Type :=
| ASTIdentifier (name : string) (kind : ASTIdentifierKind)
| ASTLiteral (value : Field) (type : option string)
| ASTExpressionList (children : list AST)
| ASTFunction (name : string) (arguments : AST).

Record Range : Type := mkRange {
  right : Field;
  right_bounded : bool;
  right_included : bool
}.

(** [Range::createRightBounded(right_point, right_included)] *)
Definition createRightBounded (right_point : Field) (included : bool) : Range :=
  {| right := right_point; right_bounded := true; right_included := included |}.

Record ASTSelectQuery : Type := mkSelect {
  select_expression_list : AST;
  where_expression : option AST;
  sample_size : option AST;
  prewhere_expression : option AST;
  final : bool
}.
End DataModel.

Arguments Field {FP}.
Arguments Index {FP}.
Arguments FieldPtr {FP}.
Arguments DataPart {FP}.
Arguments RangesInDataPart {FP}.
Arguments RangesInDataParts {FP}.
Arguments AST {FP}.
Arguments Range {FP}.
Arguments ASTSelectQuery {FP}.

(** ** The collaborators of the planner *)

Class Collaborators `{FP : FloatingPoint} : Type := {
  PKCondition : Type;
  (** [PKCondition(query, context, columns, sort_descr)] *)
  PKCondition_new : ASTSelectQuery -> SortDescription -> PKCondition;
  alwaysTrue : PKCondition -> bool;
  mayBeTrueInRange : PKCondition -> FieldPtr -> FieldPtr -> bool;
  mayBeTrueAfter : PKCondition -> FieldPtr -> bool;
  (** [addCondition(column, range)]: its result and the condition after it *)
  addCondition : PKCondition -> string -> Range -> bool * PKCondition;
  ExpressionActions : Type;
  (** [ExpressionAnalyzer(ast, context, columns).getActions(false)] *)
  getActions : AST -> ExpressionActions;
  getRequiredColumns : ExpressionActions -> Names;
  getColumnName : AST -> string;
  (** [apply_visitor(FieldVisitorConvertToNumber<T>(), field)] *)
  FieldVisitorConvertToNumber_double : Field -> double;
  FieldVisitorConvertToNumber_UInt64 : Field -> Z
}.

Section Storage.
Context `{CO : Collaborators}.

Record MergeTreeData : Type := mkMergeTreeData {
  (** [data.check(names)] *)
  check : Names -> outcome unit;
  index_granularity : Z;
  settings : MergeTreeSettings;
  getSortDescription : SortDescription;
  date_column_name : string;
  sign_column : string;
  sampling_expression : AST;
  getPrimaryExpression : ExpressionActions;
  (** [getPrimaryExpression()->getSampleBlock().getByName(column).type->getName()] *)
  primary_sample_block_type_name : string -> string;
  getFullPath : string;
  getDataParts : list DataPart
}.

Record MergeTreeDataSelectExecutor : Type := mkExecutor {
  data : MergeTreeData;
  min_marks_for_seek : Z;
  min_marks_for_concurrent_read : Z;
  max_marks_to_use_cache : Z
}.

(** [(rows + index_granularity - 1) / index_granularity] *)
Definition rows_to_marks (rows granularity : Z) : Z :=
  sub64 (add64 rows granularity) 1 / granularity.

(** The constructor. *)
Definition MergeTreeDataSelectExecutor_new (data_ : MergeTreeData)
    : outcome MergeTreeDataSelectExecutor :=
  let g := index_granularity data_ in
  if g =? 0 then Undefined
  else Return {|
    data := data_;
    min_marks_for_seek := rows_to_marks (min_rows_for_seek (settings data_)) g;
    min_marks_for_concurrent_read :=
      rows_to_marks (min_rows_for_concurrent_read (settings data_)) g;
    max_marks_to_use_cache := rows_to_marks (max_rows_to_use_cache (settings data_)) g
  |}.

Inductive BlockInputStream : Type :=
| MergeTreeBlockInputStream (path : string) (block_size : Z) (column_names : Names)
    (owned_data_part : DataPart) (mark_ranges : MarkRanges)
    (use_uncompressed_cache : bool)
    (prewhere_actions : option ExpressionActions) (prewhere_column : string)
| ExpressionBlockInputStream (input : BlockInputStream) (expression : ExpressionActions)
| FilterBlockInputStream (input : BlockInputStream) (filter_column_name : string)
| ConcatBlockInputStream (inputs : list BlockInputStream)
| CollapsingFinalBlockInputStream (inputs : list BlockInputStream)
    (description : SortDescription) (sign_column_ : string).

Definition BlockInputStreams : Type := list BlockInputStream.

Variable this : MergeTreeDataSelectExecutor.

(** *** markRangesFromPkRange *)

(** The body of [if (range.end == range.begin + 1)]: the range joins the
    last range of [res] or starts a new one. *)
Definition add_mark (res : MarkRanges) (range : MarkRange) : MarkRanges :=
  match back res with
  | None => push_back res range
  | Some last_range =>
      if sub64 (begin range) (end_ last_range) >? min_marks_for_seek this
      then push_back res range
      else set_back res {| begin := begin last_range; end_ := end_ range |}
  end.

(** [for (end = range.end; end > range.begin + step; end -= step)
       ranges_stack.push_back(MarkRange(end - step, end));]
    on the state [(end, ranges_stack)]. *)
Definition split_loop (fuel : nat) (range : MarkRange) (step : Z)
    (ranges_stack : list MarkRange) : outcome (Z * list MarkRange) :=
  while_ fuel
    (fun '(e, _) => e >? add64 (begin range) step)
    (fun '(e, stack) =>
       Return (sub64 e step, push_back stack {| begin := sub64 e step; end_ := e |}))
    (end_ range, ranges_stack).

(** [&index[i]]: the address of the element [i] of the index. The element
    has to exist: [operator[]] of a vector at its size or beyond is
    undefined. *)
Definition address_of (index_ : Index) (i : Z) : outcome FieldPtr :=
  if i <? size index_ then Return (mkFieldPtr index_ i) else Undefined.

(** The value given to [may_be_true] for [range]. *)
Definition may_be_true (index_ : Index) (key_condition : PKCondition)
    (key_size marks_count : Z) (range : MarkRange) : outcome bool :=
  if end_ range =? marks_count
  then
    left_ <- address_of index_ (mul64 (begin range) key_size) ;;
    Return (mayBeTrueAfter key_condition left_)
  else
    left_ <- address_of index_ (mul64 (begin range) key_size) ;;
    right_ <- address_of index_ (mul64 (end_ range) key_size) ;;
    Return (mayBeTrueInRange key_condition left_ right_).

(** One iteration of [while (!ranges_stack.empty())] on the state
    [(ranges_stack, res)]. *)
Definition descend (fuel : nat) (index_ : Index) (key_condition : PKCondition)
    (key_size marks_count : Z) (st : list MarkRange * MarkRanges)
    : outcome (list MarkRange * MarkRanges) :=
  let '(ranges_stack, res) := st in
  match back ranges_stack with
  | None => Undefined
  | Some range =>
      let ranges_stack := pop_back ranges_stack in
      may_be_true_ <- may_be_true index_ key_condition key_size marks_count range ;;
      if negb may_be_true_
      then Return (ranges_stack, res)
      else if end_ range =? add64 (begin range) 1
      then Return (ranges_stack, add_mark res range)
      else
        let granularity := coarse_index_granularity (settings (data this)) in
        if granularity =? 0 then Undefined
        else
          let step :=
            add64 (sub64 (sub64 (end_ range) (begin range)) 1 / granularity) 1 in
          '(e, ranges_stack) <- split_loop fuel range step ranges_stack ;;
          Return (push_back ranges_stack {| begin := begin range; end_ := e |}, res)
  end.

Definition markRangesFromPkRange (fuel : nat) (index_ : Index)
    (key_condition : PKCondition) : outcome MarkRanges :=
  let key_size := size (getSortDescription (data this)) in
  if key_size =? 0 then Undefined
  else
    let marks_count := size index_ / key_size in
    if alwaysTrue key_condition
    then Return (push_back [] {| begin := 0; end_ := marks_count |})
    else
      '(_, res) <- while_ fuel
          (fun '(ranges_stack, _) => negb (empty ranges_stack))
          (descend fuel index_ key_condition key_size marks_count)
          (push_back [] {| begin := 0; end_ := marks_count |}, []) ;;
      Return res.

(** *** spreadMarkRangesAmongThreads *)

(** [std::random_shuffle(parts.begin(), parts.end())]: the permutation it
    applies is the random source's. *)
Variable random_shuffle : RangesInDataParts -> RangesInDataParts.

(** The sum of [range.end - range.begin] over a vector of ranges. *)
Definition sum_marks_in_ranges (v : MarkRanges) : Z :=
  fold_left (fun sum range => add64 sum (sub64 (end_ range) (begin range))) v 0.

Definition part_path (part : RangesInDataPart) : string :=
  (getFullPath (data this) ++ name (data_part part) ++ "/")%string.

(** [while (need_marks > 0)], the loop over the ranges of a part, on the
    state [(need_marks, part.ranges, marks_in_part, ranges_to_get_from_part)]. *)
Definition take_ranges (st : Z * MarkRanges * Z * MarkRanges)
    : outcome (Z * MarkRanges * Z * MarkRanges) :=
  let '(need_marks, part_ranges, marks_in_part, ranges_to_get_from_part) := st in
  while_ (S (List.length part_ranges))
    (fun '(need_marks, _, _, _) => need_marks >? 0)
    (fun '(need_marks, part_ranges, marks_in_part, ranges_to_get_from_part) =>
       match back part_ranges with
       | None =>
           Exception "Unexpected end of ranges while spreading marks among threads"
             LOGICAL_ERROR
       | Some range =>
           let marks_in_range := sub64 (end_ range) (begin range) in
           let marks_to_get_from_range := Z.min marks_in_range need_marks in
           let ranges_to_get_from_part :=
             push_back ranges_to_get_from_part
               {| begin := begin range;
                  end_ := add64 (begin range) marks_to_get_from_range |} in
           let range :=
             {| begin := add64 (begin range) marks_to_get_from_range;
                end_ := end_ range |} in
           let marks_in_part := sub64 marks_in_part marks_to_get_from_range in
           let need_marks := sub64 need_marks marks_to_get_from_range in
           let part_ranges :=
             if begin range =? end_ range then pop_back part_ranges
             else set_back part_ranges range in
           Return (need_marks, part_ranges, marks_in_part, ranges_to_get_from_part)
       end)
    st.

Section Spread.
Variables (column_names : Names) (max_block_size : Z)
  (use_uncompressed_cache : bool)
  (prewhere_actions : option ExpressionActions) (prewhere_column : string).

Definition part_stream (part : RangesInDataPart) (ranges_ : MarkRanges)
    : BlockInputStream :=
  MergeTreeBlockInputStream (part_path part) max_block_size column_names
    (data_part part) ranges_ use_uncompressed_cache prewhere_actions prewhere_column.

(** One iteration of [while (need_marks > 0 && !parts.empty())], the loop
    over the parts, on the state
    [(need_marks, parts, sum_marks_in_parts, streams)]. *)
Definition take_part (st : Z * RangesInDataParts * list Z * BlockInputStreams)
    : outcome (Z * RangesInDataParts * list Z * BlockInputStreams) :=
  let '(need_marks, parts, sum_marks_in_parts, streams) := st in
  match back parts, back sum_marks_in_parts with
  | Some part, Some marks_in_part =>
      let need_marks :=
        if (marks_in_part >=? min_marks_for_concurrent_read this)
           && (need_marks <? min_marks_for_concurrent_read this)
        then min_marks_for_concurrent_read this else need_marks in
      let need_marks :=
        if (marks_in_part >? need_marks)
           && (sub64 marks_in_part need_marks <? min_marks_for_concurrent_read this)
        then marks_in_part else need_marks in
      if marks_in_part <=? need_marks
      then
        let part := {| data_part := data_part part; ranges := rev (ranges part) |} in
        Return (sub64 need_marks marks_in_part, pop_back parts,
                pop_back sum_marks_in_parts,
                push_back streams (part_stream part (ranges part)))
      else
        '(need_marks, part_ranges, marks_in_part, ranges_to_get_from_part) <-
          take_ranges (need_marks, ranges part, marks_in_part, []) ;;
        let part := {| data_part := data_part part; ranges := part_ranges |} in
        Return (need_marks, set_back parts part,
                set_back sum_marks_in_parts marks_in_part,
                push_back streams (part_stream part ranges_to_get_from_part))
  | _, _ => Undefined
  end.

(** One iteration of [for (size_t i = 0; i < threads && !parts.empty(); ++i)]
    on the state [(i, parts, sum_marks_in_parts, res)]. *)
Definition fill_thread (min_marks_per_thread : Z)
    (st : Z * RangesInDataParts * list Z * BlockInputStreams)
    : outcome (Z * RangesInDataParts * list Z * BlockInputStreams) :=
  let '(i, parts, sum_marks_in_parts, res) := st in
  '(_, parts, sum_marks_in_parts, streams) <-
    while_ (S (List.length parts))
      (fun '(need_marks, parts, _, _) => (need_marks >? 0) && negb (empty parts))
      take_part
      (min_marks_per_thread, parts, sum_marks_in_parts, []) ;;
  let res :=
    match streams with
    | [stream] => push_back res stream
    | _ => push_back res (ConcatBlockInputStream streams)
    end in
  Return (add64 i 1, parts, sum_marks_in_parts, res).
End Spread.

Definition spreadMarkRangesAmongThreads (parts : RangesInDataParts) (threads : Z)
    (column_names : Names) (max_block_size : Z) (use_uncompressed_cache : bool)
    (prewhere_actions : option ExpressionActions) (prewhere_column : string)
    : outcome BlockInputStreams :=
  let parts := random_shuffle parts in
  let parts :=
    map (fun part => {| data_part := data_part part; ranges := rev (ranges part) |})
      parts in
  let sum_marks_in_parts := map (fun part => sum_marks_in_ranges (ranges part)) parts in
  let sum_marks := fold_left add64 sum_marks_in_parts 0 in
  let use_uncompressed_cache :=
    if sum_marks >? max_marks_to_use_cache this then false
    else use_uncompressed_cache in
  if sum_marks >? 0
  then
    if threads =? 0 then Undefined
    else
      let min_marks_per_thread := add64 (sub64 sum_marks 1 / threads) 1 in
      '(_, parts, _, res) <-
        while_ (Z.to_nat threads)
          (fun '(i, parts, _, _) => (i <? threads) && negb (empty parts))
          (fill_thread column_names max_block_size use_uncompressed_cache
             prewhere_actions prewhere_column min_marks_per_thread)
          (0, parts, sum_marks_in_parts, []) ;;
      if negb (empty parts)
      then Exception "Couldn't spread marks among threads" LOGICAL_ERROR
      else Return res
  else Return [].

(** *** spreadMarkRangesAmongThreadsFinal *)

Definition createPositiveSignCondition : ExpressionActions * string :=
  let function :=
    ASTFunction "equals"
      (ASTExpressionList
         [ASTIdentifier (sign_column (data this)) Column;
          ASTLiteral (Int64 1) (Some "Int8"%string)]) in
  (getActions function, getColumnName function).

Definition spreadMarkRangesAmongThreadsFinal (parts : RangesInDataParts) (threads : Z)
    (column_names : Names) (max_block_size : Z) (use_uncompressed_cache : bool)
    (prewhere_actions : option ExpressionActions) (prewhere_column : string)
    : BlockInputStreams :=
  let sum_marks :=
    fold_left
      (fun sum part =>
         fold_left (fun sum range => add64 sum (sub64 (end_ range) (begin range)))
           (ranges part) sum)
      parts 0 in
  let use_uncompressed_cache :=
    if sum_marks >? max_marks_to_use_cache this then false
    else use_uncompressed_cache in
  let '(sign_filter_expression, sign_filter_column) := createPositiveSignCondition in
  let to_collapse :=
    map (fun part =>
           ExpressionBlockInputStream
             (part_stream column_names max_block_size use_uncompressed_cache
                prewhere_actions prewhere_column part (ranges part))
             (getPrimaryExpression (data this)))
      parts in
  match to_collapse with
  | [] => []
  | [stream] =>
      [FilterBlockInputStream
         (ExpressionBlockInputStream stream sign_filter_expression) sign_filter_column]
  | _ =>
      [CollapsingFinalBlockInputStream to_collapse (getSortDescription (data this))
         (sign_column (data this))]
  end.

(** *** read *)

Inductive QueryProcessingStage : Type :=
| FetchColumns
| WithMergeableState
| Complete.

(** The [value] of [ast] after its [dynamic_cast] to [ASTLiteral&]. *)
Definition literal_value (ast : AST) : outcome Field :=
  match ast with
  | ASTLiteral value _ => Return value
  | _ => BadCast
  end.

(** The marks selected in a vector of ranges, added to [total_count]. *)
Definition count_marks (total_count : Z) (v : MarkRanges) : Z :=
  fold_left (fun sum range => add64 sum (sub64 (end_ range) (begin range))) v total_count.

(** The preliminary index scan of the sampling step: [total_count] before
    it is multiplied by the index granularity. *)
Definition preliminary_index_scan (fuel : nat) (parts : list DataPart)
    (key_condition : PKCondition) : outcome Z :=
  for_each parts
    (fun total_count part =>
       ranges_ <- markRangesFromPkRange fuel (index part) key_condition ;;
       Return (count_marks total_count ranges_))
    0.

Definition sampling_column_max_of (type_name : string) : outcome Z :=
  if String.eqb type_name "UInt64" then Return (2 ^ 64 - 1)
  else if String.eqb type_name "UInt32" then Return (2 ^ 32 - 1)
  else if String.eqb type_name "UInt16" then Return (2 ^ 16 - 1)
  else if String.eqb type_name "UInt8" then Return (2 ^ 8 - 1)
  else Exception
         ("Invalid sampling column type in storage parameters: " ++ type_name
          ++ ". Must be unsigned integer type.")%string
         ILLEGAL_TYPE_OF_COLUMN_FOR_FILTER.

(** What the block [if (select.sample_size)] leaves behind. *)
Record Sampling : Type := mkSampling {
  sampled_key_condition : PKCondition;
  sampled_column_names : Names;
  sampling_column_value_limit : Z;
  filter_function : option AST;
  filter_expression : option ExpressionActions
}.

(** The relative sample size: [size] itself, or the share of the rows of
    the preliminary index scan when [size > 1]. *)
Definition relative_sample_size (fuel : nat) (parts : list DataPart)
    (key_condition : PKCondition) (sample_ast : AST) (size_ : double)
    : outcome double :=
  if double_lt double_one size_
  then
    value <- literal_value sample_ast ;;
    let requested_count := FieldVisitorConvertToNumber_UInt64 value in
    total_count <- preliminary_index_scan fuel parts key_condition ;;
    let total_count := mul64 total_count (index_granularity (data this)) in
    Return (std_min double_one
              (double_div (double_of_UInt64 requested_count)
                 (double_of_UInt64 total_count)))
  else Return size_.

Definition sampling (fuel : nat) (select : ASTSelectQuery) (parts : list DataPart)
    (key_condition : PKCondition) (column_names_to_return : Names)
    : outcome Sampling :=
  match sample_size select with
  | None =>
      Return {| sampled_key_condition := key_condition;
                sampled_column_names := column_names_to_return;
                sampling_column_value_limit := 0;
                filter_function := None;
                filter_expression := None |}
  | Some sample_ast =>
      value <- literal_value sample_ast ;;
      let size_ := FieldVisitorConvertToNumber_double value in
      if double_lt size_ double_zero
      then Exception "Negative sample size" ARGUMENT_OUT_OF_BOUND
      else
        size_ <- relative_sample_size fuel parts key_condition sample_ast size_ ;;
        let sampling_column := getColumnName (sampling_expression (data this)) in
        sampling_column_max <-
          sampling_column_max_of (primary_sample_block_type_name (data this) sampling_column) ;;
        match UInt64_of_double
                (double_mul size_ (double_of_UInt64 sampling_column_max)) with
        | None => Undefined
        | Some limit =>
            let '(added, key_condition) :=
              addCondition key_condition sampling_column
                (createRightBounded (UInt64 limit) true) in
            if negb added
            then Exception "Sampling column not in primary key" ILLEGAL_COLUMN
            else
              let function :=
                ASTFunction "lessOrEquals"
                  (ASTExpressionList
                     [sampling_expression (data this); ASTLiteral (UInt64 limit) None]) in
              let expression := getActions function in
              let add_columns := getRequiredColumns expression in
              Return {| sampled_key_condition := key_condition;
                        sampled_column_names :=
                          std_unique (std_sort (column_names_to_return ++ add_columns));
                        sampling_column_value_limit := limit;
                        filter_function := Some function;
                        filter_expression := Some expression |}
        end
  end.

(** The loop that finds the ranges to read from every part. *)
Definition select_ranges (fuel : nat) (parts : list DataPart)
    (key_condition : PKCondition) : outcome RangesInDataParts :=
  for_each parts
    (fun parts_with_ranges part =>
       ranges_ <- markRangesFromPkRange fuel (index part) key_condition ;;
       if negb (empty ranges_)
       then Return (push_back parts_with_ranges
                      {| data_part := part; ranges := ranges_ |})
       else Return parts_with_ranges)
    [].

(** The parts whose dates may satisfy [date_condition]. *)
Definition select_parts_by_date (date_condition : PKCondition) : list DataPart :=
  filter
    (fun part =>
       mayBeTrueInRange date_condition
         (mkFieldPtr [UInt64 (left_date part)] 0)
         (mkFieldPtr [UInt64 (right_date part)] 0))
    (getDataParts (data this)).

Definition read (fuel : nat) (column_names_to_return : Names)
    (query : ASTSelectQuery) (use_uncompressed_cache : bool)
    (max_block_size : Z) (threads : Z)
    : outcome (QueryProcessingStage * BlockInputStreams) :=
  _ <- check (data this) column_names_to_return ;;
  let processed_stage := FetchColumns in
  let key_condition := PKCondition_new query (getSortDescription (data this)) in
  let date_condition := PKCondition_new query [date_column_name (data this)] in
  let parts := select_parts_by_date date_condition in
  sampled <- sampling fuel query parts key_condition column_names_to_return ;;
  let key_condition := sampled_key_condition sampled in
  let column_names_to_read := sampled_column_names sampled in
  let prewhere_actions := option_map getActions (prewhere_expression query) in
  let prewhere_column :=
    match prewhere_expression query with
    | Some expression => getColumnName expression
    | None => EmptyString
    end in
  parts_with_ranges <- select_ranges fuel parts key_condition ;;
  res <-
    (if final query
     then
       let add_columns := getRequiredColumns (getPrimaryExpression (data this)) in
       let column_names_to_read :=
         std_unique
           (std_sort (push_back (column_names_to_read ++ add_columns)
                        (sign_column (data this)))) in
       Return (spreadMarkRangesAmongThreadsFinal parts_with_ranges threads
                 column_names_to_read max_block_size use_uncompressed_cache
                 prewhere_actions prewhere_column)
     else
       spreadMarkRangesAmongThreads parts_with_ranges threads
         column_names_to_read max_block_size use_uncompressed_cache
         prewhere_actions prewhere_column) ;;
  let res :=
    match filter_function sampled, filter_expression sampled with
    | Some function, Some expression =>
        map (fun original_stream =>
               FilterBlockInputStream
                 (ExpressionBlockInputStream original_stream expression)
                 (getColumnName function))
          res
    | _, _ => res
    end in
  Return (processed_stage, res).
End Storage.

Arguments MergeTreeData {FP CO}.
Arguments MergeTreeDataSelectExecutor {FP CO}.
Arguments BlockInputStream {FP CO}.
Arguments BlockInputStreams {FP CO}.
Arguments Sampling {FP CO}.

(** ** A concrete table, for the examples

    IEEE 754 binary64 arithmetic for [double], a primary key of one UInt64
    column, and key conditions that are disjunctions of closed intervals. *)

Module Example.

(** Round to nearest of an unsigned 64-bit value: its two 32-bit halves are
    exact, and so is the high half scaled; the sum rounds once. *)
Definition binary64_of_UInt64 (x : Z) : PrimFloat.float :=
  PrimFloat.add
    (PrimFloat.mul (PrimFloat.of_uint63 (Uint63.of_Z (x / 2 ^ 32)))
       (PrimFloat.of_uint63 (Uint63.of_Z (2 ^ 32))))
    (PrimFloat.of_uint63 (Uint63.of_Z (x mod 2 ^ 32))).

(** The integral part of a double, when it is below 2^64 and not below 0;
    the conversion of any other double (and of a NaN or an infinity) is
    undefined. *)
Definition UInt64_of_binary64 (x : PrimFloat.float) : option Z :=
  match FloatOps.Prim2SF x with
  | SpecFloat.S754_zero _ => Some 0
  | SpecFloat.S754_finite false m e =>
      let r := Z.shiftl (Z.pos m) e in
      if r <? 2 ^ 64 then Some r else None
  | SpecFloat.S754_finite true m e =>
      if Z.shiftl (Z.pos m) e =? 0 then Some 0 else None
  | _ => None
  end.

#[export] Instance binary64 : FloatingPoint := {|
  double := PrimFloat.float;
  double_of_UInt64 := binary64_of_UInt64;
  UInt64_of_double := UInt64_of_binary64;
  double_lt := PrimFloat.ltb;
  double_div := PrimFloat.div;
  double_mul := PrimFloat.mul;
  double_zero := PrimFloat.zero;
  double_one := PrimFloat.one
|}.

(** A key condition: [None] when the query does not restrict the key,
    otherwise the closed intervals one of which the key must meet; the
    columns of the key, and the bound [addCondition] put on the key. *)
Record KeyCondition : Type := mkKeyCondition {
  intervals : option (list (Z * Z));
  key_columns : list string;
  upper_bound : option Z
}.

Definition deref (p : FieldPtr) : option Z :=
  match nth_error (base p) (Z.to_nat (offset p)) with
  | Some (UInt64 x) => Some x
  | _ => None
  end.

Definition meets (c : KeyCondition) (lo : Z) (hi : option Z) : bool :=
  let below x := match hi with Some h => x <=? h | None => true end in
  match upper_bound c with
  | Some u => lo <=? u
  | None => true
  end
  && match intervals c with
     | None => true
     | Some l => existsb (fun '(a, b) => (lo <=? b) && below a) l
     end.

Definition key_alwaysTrue (c : KeyCondition) : bool :=
  match intervals c, upper_bound c with
  | None, None => true
  | _, _ => false
  end.

Definition key_mayBeTrueInRange (c : KeyCondition) (l r : FieldPtr) : bool :=
  match deref l, deref r with
  | Some lo, Some hi => meets c lo (Some hi)
  | _, _ => true
  end.

Definition key_mayBeTrueAfter (c : KeyCondition) (l : FieldPtr) : bool :=
  match deref l with
  | Some lo => meets c lo None
  | None => true
  end.

Definition key_addCondition (c : KeyCondition) (column : string) (r : Range)
    : bool * KeyCondition :=
  if existsb (String.eqb column) (key_columns c)
  then (true,
        {| intervals := intervals c; key_columns := key_columns c;
           upper_bound := match right r with UInt64 u => Some u | _ => upper_bound c end |})
  else (false, c).

(** The interval list of a query is carried by its WHERE clause: a list of
    functions [between(lo, hi)]. *)
Definition interval_of (a : AST) : list (Z * Z) :=
  match a with
  | ASTFunction _ (ASTExpressionList
      [ASTLiteral (UInt64 lo) _; ASTLiteral (UInt64 hi) _]) => [(lo, hi)]
  | _ => []
  end.

Definition intervals_of (q : ASTSelectQuery) : option (list (Z * Z)) :=
  match where_expression q with
  | Some (ASTExpressionList l) => Some (flat_map interval_of l)
  | _ => None
  end.

Definition column_name_of (a : AST) : string :=
  match a with
  | ASTIdentifier n _ => n
  | ASTFunction n _ => n
  | _ => EmptyString
  end.

Fixpoint identifiers (a : AST) : list string :=
  match a with
  | ASTIdentifier n _ => [n]
  | ASTLiteral _ _ => []
  | ASTExpressionList l => flat_map identifiers l
  | ASTFunction _ args => identifiers args
  end.

Definition number_of (f : Field) : Z :=
  match f with
  | UInt64 x => x
  | Int64 x => x
  | Float64 x => match UInt64_of_binary64 x with Some r => r | None => 0 end
  | _ => 0
  end.

Definition binary64_of (f : Field) : PrimFloat.float :=
  match f with
  | UInt64 x => binary64_of_UInt64 x
  | Int64 x =>
      if x <? 0 then PrimFloat.opp (binary64_of_UInt64 (- x)) else binary64_of_UInt64 x
  | Float64 x => x
  | _ => PrimFloat.zero
  end.

#[export] Instance collaborators : Collaborators := {|
  PKCondition := KeyCondition;
  PKCondition_new := fun q sort_descr =>
    {| intervals := intervals_of q; key_columns := sort_descr; upper_bound := None |};
  alwaysTrue := key_alwaysTrue;
  mayBeTrueInRange := key_mayBeTrueInRange;
  mayBeTrueAfter := key_mayBeTrueAfter;
  addCondition := key_addCondition;
  ExpressionActions := AST;
  getActions := fun a => a;
  getRequiredColumns := identifiers;
  getColumnName := column_name_of;
  FieldVisitorConvertToNumber_double := binary64_of;
  FieldVisitorConvertToNumber_UInt64 := number_of
|}.

(** A part of [n] marks whose keys are [0, 10, 20, ...]. *)
Definition part_of (part_name : string) (n : nat) : DataPart :=
  {| name := part_name; left_date := 15000; right_date := 15030;
     index := map (fun m => UInt64 (10 * Z.of_nat m)) (seq 0 n) |}.

Definition table (sampling_type : string) (parts : list DataPart) : MergeTreeData :=
  {| check := fun _ => Return tt;
     index_granularity := 8192;
     settings :=
       {| min_rows_for_seek := 0;
          min_rows_for_concurrent_read := 20 * 8192;
          max_rows_to_use_cache := 1024 * 1024;
          coarse_index_granularity := 8 |};
     getSortDescription := ["key"%string];
     date_column_name := "date"%string;
     sign_column := "sign"%string;
     sampling_expression := ASTIdentifier "key" Column;
     getPrimaryExpression := ASTIdentifier "key" Column;
     primary_sample_block_type_name := fun _ => sampling_type;
     getFullPath := "/data/"%string;
     getDataParts := parts |}.

(** The table with other settings. *)
Definition table_with (settings_ : MergeTreeSettings) (sampling_type : string)
    (parts : list DataPart) : MergeTreeData :=
  {| check := fun _ => Return tt;
     index_granularity := 8192;
     settings := settings_;
     getSortDescription := ["key"%string];
     date_column_name := "date"%string;
     sign_column := "sign"%string;
     sampling_expression := ASTIdentifier "key" Column;
     getPrimaryExpression := ASTIdentifier "key" Column;
     primary_sample_block_type_name := fun _ => sampling_type;
     getFullPath := "/data/"%string;
     getDataParts := parts |}.


(** An executor over [table] with the given seek and concurrency
    thresholds, in marks. *)
Definition executor (seek concurrent : Z) (sampling_type : string)
    (parts : list DataPart) : MergeTreeDataSelectExecutor :=
  {| data := table sampling_type parts;
     min_marks_for_seek := seek;
     min_marks_for_concurrent_read := concurrent;
     max_marks_to_use_cache := 128 |}.

Definition key_in (l : list (Z * Z)) : KeyCondition :=
  {| intervals := Some l; key_columns := ["key"%string]; upper_bound := None |}.

Definition no_condition : KeyCondition :=
  {| intervals := None; key_columns := ["key"%string]; upper_bound := None |}.

Definition select_all : ASTSelectQuery :=
  {| select_expression_list := ASTExpressionList [];
     where_expression := None; sample_size := None;
     prewhere_expression := None; final := false |}.

Definition select_final : ASTSelectQuery :=
  {| select_expression_list := ASTExpressionList [];
     where_expression := None; sample_size := None;
     prewhere_expression := None; final := true |}.

Definition select_sample (s : Field) : ASTSelectQuery :=
  {| select_expression_list := ASTExpressionList [];
     where_expression := None; sample_size := Some (ASTLiteral s None);
     prewhere_expression := None; final := false |}.

(** The double 1/2. *)
Definition half : double := PrimFloat.div PrimFloat.one PrimFloat.two.

(** The filter of a sample with the cutoff [limit] over a stream. *)
Definition sample_filter (limit : Z) (stream : BlockInputStream) : BlockInputStream :=
  FilterBlockInputStream
    (ExpressionBlockInputStream stream
       (ASTFunction "lessOrEquals"
          (ASTExpressionList
             [ASTIdentifier "key" Column; ASTLiteral (UInt64 limit) None])))
    "lessOrEquals".

(** The reader [read] builds over ranges of a part of [table]. *)
Definition reader (part : DataPart) (column_names : Names) (v : MarkRanges)
    : BlockInputStream :=
  MergeTreeBlockInputStream ("/data/" ++ name part ++ "/")%string 8192 column_names
    part v true None EmptyString.

(** Two parts of ten marks, and a part without marks beside one of four. *)
Definition two_parts : MergeTreeDataSelectExecutor :=
  executor 0 1 "UInt32" [part_of "a" 10; part_of "b" 10].

Definition with_empty_part : MergeTreeDataSelectExecutor :=
  executor 0 1 "UInt32" [part_of "empty" 0; part_of "b" 4].
End Example.

(** ** The vocabulary of the properties *)

(** Every element of a vector is related to the next one. *)
Fixpoint chain {A : Type} (R : A -> A -> Prop) (v : list A) : Prop :=
  match v with
  | a :: (b :: _) as v' => R a b /\ chain R v'
  | _ => True
  end.

(** Ranges listed from left to right, each starting more than [seek] marks
    after the end of the one before. *)
Definition separated (seek : Z) (res : MarkRanges) : Prop :=
  chain (fun a b => end_ a + seek < begin b) res.

(** Mark [m] lies in one of the ranges. *)
Definition covers (v : MarkRanges) (m : Z) : Prop :=
  exists range, In range v /\ begin range <= m < end_ range.

(** A non-empty range of marks below [marks_count]. *)
Definition proper (marks_count : Z) (range : MarkRange) : Prop :=
  0 <= begin range /\ begin range < end_ range <= marks_count.

(** The weight of the stack of the pruner: a range of [n] marks weighs
    [2 n - 1], the number of iterations that can still come from it. *)
Definition stack_weight (v : list MarkRange) : Z :=
  fold_right (fun range w => 2 * (end_ range - begin range) - 1 + w) 0 v.

Section PrunerVocabulary.
Context `{CO : Collaborators}.
Variable this : MergeTreeDataSelectExecutor.

(** [marks_count] as [markRangesFromPkRange] computes it. *)
Definition marks_count_of (index_ : Index) : Z :=
  size index_ / size (getSortDescription (data this)).

(** The condition never rejects a range that holds a mark of [sat]. *)
Definition conservative (sat : Z -> Prop) (index_ : Index)
    (key_condition : PKCondition) : Prop :=
  forall range,
    proper (marks_count_of index_) range ->
    (exists m, begin range <= m < end_ range /\ sat m) ->
    may_be_true index_ key_condition (size (getSortDescription (data this)))
      (marks_count_of index_) range = Return true.

(** The invariant of [while (!ranges_stack.empty())]. *)
Definition pruner_invariant (sat : Z -> Prop) (marks_count : Z)
    (st : list MarkRange * MarkRanges) : Prop :=
  let '(ranges_stack, res) := st in
  Forall (proper marks_count) ranges_stack
  /\ chain (fun a b => end_ b <= begin a) ranges_stack
  /\ Forall (proper marks_count) res
  /\ separated (min_marks_for_seek this) res
  /\ (forall t r, back ranges_stack = Some t -> back res = Some r ->
        end_ r <= begin t)
  /\ (forall m, 0 <= m < marks_count -> sat m -> covers res m \/ covers ranges_stack m).

(** The invariant of the loop that splits [range], on [(end, ranges_stack)]:
    [stack] is the stack before the loop. *)
Definition split_invariant (marks_count : Z) (range : MarkRange)
    (stack : list MarkRange) (st : Z * list MarkRange) : Prop :=
  let '(e, ranges_stack) := st in
  begin range < e <= end_ range
  /\ Forall (proper marks_count) ranges_stack
  /\ chain (fun a b => end_ b <= begin a) ranges_stack
  /\ (forall t, back ranges_stack = Some t -> e <= begin t)
  /\ (forall m, covers stack m \/ e <= m < end_ range -> covers ranges_stack m)
  /\ stack_weight ranges_stack + 2 * (e - begin range)
      <= stack_weight stack + 2 * (end_ range - begin range)
         - (if e <? end_ range then 1 else 0).
End PrunerVocabulary.

(** The number of marks of a range, and of a vector of ranges. *)
Definition marks_in (range : MarkRange) : Z := end_ range - begin range.

Definition total_marks (v : MarkRanges) : Z :=
  fold_right (fun range sum => marks_in range + sum) 0 v.

Definition sum_list (v : list Z) : Z := fold_right Z.add 0 v.

(** The marks of a range, one by one. *)
Definition range_marks (range : MarkRange) : list Z :=
  map (fun k => begin range + Z.of_nat k) (seq 0 (Z.to_nat (marks_in range))).

(** A range as the spreaders expect it: not reversed, within [size_t]. *)
Definition well_formed (range : MarkRange) : Prop :=
  0 <= begin range /\ begin range <= end_ range /\ end_ range < size_t_modulus.

Section SpreaderVocabulary.
Context `{CO : Collaborators}.

(** The ranges a stream reads, each with its part. *)
Fixpoint stream_ranges (s : BlockInputStream) : list (DataPart * MarkRange) :=
  match s with
  | MergeTreeBlockInputStream _ _ _ part mark_ranges _ _ _ =>
      map (pair part) mark_ranges
  | ExpressionBlockInputStream input _ => stream_ranges input
  | FilterBlockInputStream input _ => stream_ranges input
  | ConcatBlockInputStream inputs => flat_map stream_ranges inputs
  | CollapsingFinalBlockInputStream inputs _ _ => flat_map stream_ranges inputs
  end.

(** The marks a stream reads, each with its part. *)
Definition marks_of_ranges (v : list (DataPart * MarkRange)) : list (DataPart * Z) :=
  flat_map (fun '(part, range) => map (pair part) (range_marks range)) v.

Definition stream_marks (s : BlockInputStream) : list (DataPart * Z) :=
  marks_of_ranges (stream_ranges s).

(** The stream reads from the part. *)
Definition references (s : BlockInputStream) (part : DataPart) : Prop :=
  In part (map fst (stream_ranges s)).


(** The ranges and the marks selected in the parts. *)
Definition part_ranges (part : RangesInDataPart) : list (DataPart * MarkRange) :=
  map (pair (data_part part)) (ranges part).

Definition part_marks (part : RangesInDataPart) : list (DataPart * Z) :=
  marks_of_ranges (part_ranges part).

Definition parts_marks (parts : RangesInDataParts) : Z :=
  sum_list (map (fun part => total_marks (ranges part)) parts).

(** The input of the spreader: well-formed ranges whose marks, all parts
    together, are counted without overflow. *)
Definition spreadable (parts : RangesInDataParts) : Prop :=
  Forall (fun part => Forall well_formed (ranges part)) parts
  /\ parts_marks parts < size_t_modulus.

(** No stream reads a reversed range or one beyond [size_t]. *)
Definition streams_well_formed (res : BlockInputStreams) : Prop :=
  Forall well_formed (map snd (flat_map stream_ranges res)).

(** The parts still to spread and their mark counts, side by side: the
    counts are exact and at least [least]. *)
Definition tied (least : Z) (parts : RangesInDataParts) (sums : list Z) : Prop :=
  Forall2
    (fun part sum =>
       Forall well_formed (ranges part)
       /\ sum = total_marks (ranges part) /\ least <= sum)
    parts sums.

(** The invariant of the loop over the ranges of a part: [ranges0] are the
    ranges of the part before the loop and [rest] the marks to leave. *)
Definition take_ranges_invariant (ranges0 : MarkRanges) (rest : Z)
    (st : Z * MarkRanges * Z * MarkRanges) : Prop :=
  let '(need_marks, part_ranges, marks_in_part, got) := st in
  Forall well_formed part_ranges
  /\ marks_in_part = total_marks part_ranges
  /\ 0 <= need_marks < marks_in_part
  /\ marks_in_part <= total_marks ranges0
  /\ marks_in_part - need_marks = rest
  /\ Forall well_formed got
  /\ Permutation (flat_map range_marks got ++ flat_map range_marks part_ranges)
       (flat_map range_marks ranges0).

(** The invariant of the loop over the parts: [before] is the number of
    marks left when the loop starts and [marks] are those marks. *)
Definition take_part_invariant (least min_marks_per_thread before : Z)
    (marks : list (DataPart * Z))
    (st : Z * RangesInDataParts * list Z * BlockInputStreams) : Prop :=
  let '(need_marks, parts, sums, streams) := st in
  tied least parts sums
  /\ 0 <= need_marks < size_t_modulus
  /\ sum_list sums <= before
  /\ min_marks_per_thread <= before - sum_list sums + need_marks
  /\ streams_well_formed streams
  /\ Permutation (flat_map stream_marks streams ++ flat_map part_marks parts) marks.

(** The invariant of the loop over the threads: [total] is the number of
    marks to spread and [marks] are those marks. *)
Definition fill_thread_invariant (least threads min_marks_per_thread total : Z)
    (marks : list (DataPart * Z))
    (st : Z * RangesInDataParts * list Z * BlockInputStreams) : Prop :=
  let '(i, parts, sums, res) := st in
  tied least parts sums
  /\ 0 <= i <= threads
  /\ sum_list sums <= total
  /\ (parts = [] \/ sum_list sums + i * min_marks_per_thread <= total)
  /\ streams_well_formed res
  /\ Permutation (flat_map stream_marks res ++ flat_map part_marks parts) marks.


End SpreaderVocabulary.

(** An outcome that throws, if at all, an exception of an allowed code. *)
Definition within {A : Type} (allowed : ErrorCode -> Prop) (r : outcome A) : Prop :=
  match r with
  | Exception _ code => allowed code
  | BadCast => False
  | _ => True
  end.

(** No exception at all; no exception but the logical error. *)
Definition silent {A : Type} (r : outcome A) : Prop := within (fun _ => False) r.


(** The types [read] accepts for the sampling column, with their maxima. *)
Definition unsigned_type_max (type_name : string) (max : Z) : Prop :=
  (type_name = "UInt64"%string /\ max = 2 ^ 64 - 1)
  \/ (type_name = "UInt32"%string /\ max = 2 ^ 32 - 1)
  \/ (type_name = "UInt16"%string /\ max = 2 ^ 16 - 1)
  \/ (type_name = "UInt8"%string /\ max = 2 ^ 8 - 1).

Definition is_unsigned_type (type_name : string) : Prop :=
  exists max, unsigned_type_max type_name max.

Section PlannerVocabulary.
Context `{CO : Collaborators}.
Variable this : MergeTreeDataSelectExecutor.

(** The name of the sampling column and the name of its type. *)
Definition sampling_column : string := getColumnName (sampling_expression (data this)).

Definition sampling_column_type : string :=
  primary_sample_block_type_name (data this) sampling_column.

(** The filter of a sample on the rows: [sampling_expression <= limit]. *)
Definition sampling_filter (limit : Z) : AST :=
  ASTFunction "lessOrEquals"
    (ASTExpressionList [sampling_expression (data this); ASTLiteral (UInt64 limit) None]).

(** The bound of a sample on the key condition. *)
Definition sampling_range (limit : Z) : Range := createRightBounded (UInt64 limit) true.

(** [res0] are the streams of the spreader [read] chooses for the query,
    over the parts and ranges selected, reading the columns [names]. *)
Definition spreads (random_shuffle : RangesInDataParts -> RangesInDataParts)
    (query : ASTSelectQuery) (names : Names) (parts_with_ranges : RangesInDataParts)
    (threads max_block_size : Z) (use_uncompressed_cache : bool)
    (res0 : BlockInputStreams) : Prop :=
  let prewhere_actions := option_map getActions (prewhere_expression query) in
  let prewhere_column :=
    match prewhere_expression query with
    | Some expression => getColumnName expression
    | None => EmptyString
    end in
  if final query
  then res0 = spreadMarkRangesAmongThreadsFinal this parts_with_ranges threads
                (std_unique
                   (std_sort
                      (push_back
                         (names ++ getRequiredColumns (getPrimaryExpression (data this)))
                         (sign_column (data this)))))
                max_block_size use_uncompressed_cache prewhere_actions prewhere_column
  else spreadMarkRangesAmongThreads this random_shuffle parts_with_ranges threads names
         max_block_size use_uncompressed_cache prewhere_actions prewhere_column
       = Return res0.

(** The filter [read] puts over a stream when the query samples. *)
Definition sampled_stream (function : AST) (expression : ExpressionActions)
    (original_stream : BlockInputStream) : BlockInputStream :=
  FilterBlockInputStream (ExpressionBlockInputStream original_stream expression)
    (getColumnName function).

(** The parts by date and the two conditions of a query. *)
Definition parts_by_date (query : ASTSelectQuery) : list DataPart :=
  select_parts_by_date this (PKCondition_new query [date_column_name (data this)]).

Definition key_condition_of (query : ASTSelectQuery) : PKCondition :=
  PKCondition_new query (getSortDescription (data this)).

(** [key_condition] is the condition [read] selects the ranges under: the
    key condition of the query, and for a query with a sample that
    condition after [addCondition] has bounded the sampling column by the
    cutoff of the sample. *)
Definition selection_condition (fuel : nat) (query : ASTSelectQuery)
    (key_condition : PKCondition) : Prop :=
  match sample_size query with
  | None => key_condition = key_condition_of query
  | Some sample_ast =>
      exists value type_ relative max limit,
        sample_ast = ASTLiteral value type_
        /\ relative_sample_size this fuel (parts_by_date query) (key_condition_of query)
             sample_ast (FieldVisitorConvertToNumber_double value) = Return relative
        /\ unsigned_type_max sampling_column_type max
        /\ UInt64_of_double (double_mul relative (double_of_UInt64 max)) = Some limit
        /\ addCondition (key_condition_of query) sampling_column (sampling_range limit)
           = (true, key_condition)
  end.
End PlannerVocabulary.

(** The readers of the streams, and what they are given. *)

Section ReaderVocabulary.
Context `{CO : Collaborators}.

(** The readers of parts under a stream. *)
Fixpoint readers (s : BlockInputStream) : list BlockInputStream :=
  match s with
  | MergeTreeBlockInputStream _ _ _ _ _ _ _ _ => [s]
  | ExpressionBlockInputStream input _ => readers input
  | FilterBlockInputStream input _ => readers input
  | ConcatBlockInputStream inputs => flat_map readers inputs
  | CollapsingFinalBlockInputStream inputs _ _ => flat_map readers inputs
  end.

(** The stream is a reader of some part [part] over ranges [v] with
    [Q part v], built with the arguments the spreaders pass on. *)
Definition reads (this : MergeTreeDataSelectExecutor) (column_names : Names)
    (max_block_size : Z) (use_uncompressed_cache : bool)
    (prewhere_actions : option ExpressionActions) (prewhere_column : string)
    (Q : DataPart -> MarkRanges -> Prop) (s : BlockInputStream) : Prop :=
  exists part v,
    s = MergeTreeBlockInputStream
          (getFullPath (data this) ++ name part ++ "/")%string max_block_size
          column_names part v use_uncompressed_cache prewhere_actions prewhere_column
    /\ Q part v.

(** The stream of a thread: one reader, or the concatenation of two
    readers or more. *)
Definition worker_stream (R : BlockInputStream -> Prop) (s : BlockInputStream) : Prop :=
  R s
  \/ exists s1 s2 streams,
       s = ConcatBlockInputStream (s1 :: s2 :: streams)
       /\ Forall R (s1 :: s2 :: streams).

(** The columns a reader reads. *)
Definition stream_columns (s : BlockInputStream) : Names :=
  match s with
  | MergeTreeBlockInputStream _ _ column_names _ _ _ _ _ => column_names
  | _ => []
  end.
End ReaderVocabulary.

(** The marks the condition accepts, and the ranges they bound. *)

Section HitVocabulary.
Context `{CO : Collaborators}.
Variable this : MergeTreeDataSelectExecutor.

(** The condition accepts the range of the one mark [m]. *)
Definition accepted (index_ : Index) (key_condition : PKCondition) (m : Z) : Prop :=
  may_be_true index_ key_condition (size (getSortDescription (data this)))
    (marks_count_of this index_) {| begin := m; end_ := m + 1 |} = Return true.

(** A range that starts and ends with a mark of [hit], and holds no run
    of more than [seek] marks outside [hit]. *)
Definition tight (seek : Z) (hit : Z -> Prop) (range : MarkRange) : Prop :=
  hit (begin range) /\ hit (end_ range - 1)
  /\ forall m, begin range <= m < end_ range ->
       exists h, begin range <= h <= m /\ m - h <= seek /\ hit h.
End HitVocabulary.

(** * Properties *)

(** ** Machine integers *)

Lemma size_t_modulus_eq : size_t_modulus = 18446744073709551616.
Proof. reflexivity. Qed.

Lemma wrap64_small (x : Z) : is_size_t x -> wrap64 x = x.
Proof. unfold is_size_t, wrap64. intros H. apply Z.mod_small. exact H. Qed.

Lemma wrap64_range (x : Z) : is_size_t (wrap64 x).
Proof.
  unfold is_size_t, wrap64. apply Z.mod_pos_bound.
  rewrite size_t_modulus_eq. lia.
Qed.

Lemma add64_small (a b : Z) : is_size_t (a + b) -> add64 a b = a + b.
Proof. apply wrap64_small. Qed.

Lemma sub64_small (a b : Z) : is_size_t (a - b) -> sub64 a b = a - b.
Proof. apply wrap64_small. Qed.

Lemma mul64_small (a b : Z) : is_size_t (a * b) -> mul64 a b = a * b.
Proof. apply wrap64_small. Qed.

(** ** Vectors *)

Section VectorFacts.
Context {A : Type}.
Implicit Types (v : list A) (x : A).

Lemma back_push_back v x : back (push_back v x) = Some x.
Proof.
  unfold push_back. induction v as [|y v IH]; [reflexivity|].
  cbn [app back]. destruct (v ++ [x]) eqn:E; [destruct v; discriminate|exact IH].
Qed.

Lemma pop_back_push_back v x : pop_back (push_back v x) = v.
Proof. unfold pop_back, push_back. apply removelast_last. Qed.

Lemma set_back_push_back v x y : set_back (push_back v x) y = push_back v y.
Proof. unfold set_back. rewrite pop_back_push_back. reflexivity. Qed.

Lemma empty_push_back v x : empty (push_back v x) = false.
Proof. destruct v; reflexivity. Qed.

(** A vector is empty or ends with its [back]. *)
Lemma vector_cases v :
  (v = [] /\ back v = None) \/ (exists v' x, v = push_back v' x /\ back v = Some x).
Proof.
  induction v as [|x v' _] using rev_ind.
  - left. split; reflexivity.
  - right. exists v', x. split; [reflexivity|apply back_push_back].
Qed.

Lemma back_Some v x : back v = Some x -> v = push_back (pop_back v) x.
Proof.
  destruct (vector_cases v) as [[-> H]|(v' & y & -> & H)]; [discriminate|].
  rewrite H. intros [= ->]. rewrite pop_back_push_back. reflexivity.
Qed.

Lemma back_None v : back v = None -> v = [].
Proof.
  destruct (vector_cases v) as [[-> _]|(v' & y & -> & H)]; [reflexivity|].
  rewrite H. discriminate.
Qed.

Lemma empty_true v : empty v = true -> v = [].
Proof. destruct v; [reflexivity|discriminate]. Qed.

Lemma length_push_back v x : List.length (push_back v x) = S (List.length v).
Proof. unfold push_back. rewrite length_app. cbn. lia. Qed.
End VectorFacts.

(** ** Loops *)

Section Loops.
Context {S : Type} (cond : S -> bool) (body : S -> outcome S).

(** Partial correctness: an invariant of the body holds when the loop
    returns, and the condition has become false. *)
Lemma while_invariant (I : S -> Prop) :
  (forall s s', I s -> cond s = true -> body s = Return s' -> I s') ->
  forall fuel s s', I s -> while_ fuel cond body s = Return s' ->
  I s' /\ cond s' = false.
Proof.
  intros Hbody. induction fuel as [|n IH]; intros s s' Hs; cbn.
  - destruct (cond s) eqn:E; [discriminate|]. intros [= <-]. auto.
  - destruct (cond s) eqn:E.
    + destruct (body s) as [s1| | | |] eqn:Eb; cbn; try discriminate.
      apply IH. eapply Hbody; eauto.
    + intros [= <-]. auto.
Qed.

(** Total correctness: with a variant below the fuel the loop returns. *)
Lemma while_variant (I : S -> Prop) (variant : S -> nat) :
  (forall s, I s -> cond s = true ->
     exists s', body s = Return s' /\ I s' /\ (variant s' < variant s)%nat) ->
  forall fuel s, I s -> (variant s <= fuel)%nat ->
  exists s', while_ fuel cond body s = Return s' /\ I s' /\ cond s' = false.
Proof.
  intros Hbody. induction fuel as [|n IH]; intros s Hs Hv; cbn.
  - destruct (cond s) eqn:E.
    + destruct (Hbody s Hs E) as (s1 & _ & _ & Hlt). lia.
    + exists s. auto.
  - destruct (cond s) eqn:E.
    + destruct (Hbody s Hs E) as (s1 & -> & Hs1 & Hlt). cbn.
      apply IH; [exact Hs1|lia].
    + exists s. auto.
Qed.
End Loops.

(** ** Chains, coverage and weights of vectors of ranges *)

Lemma chain_push_back {A : Type} (R : A -> A -> Prop) (v : list A) (x : A) :
  chain R (push_back v x) <-> chain R v /\ (forall y, back v = Some y -> R y x).
Proof.
  unfold push_back. induction v as [|a v IH].
  - cbn. split; [intros _; split; [exact I|discriminate]|intros _; exact I].
  - destruct v as [|b v].
    + cbn. split.
      * intros [H _]. split; [exact I|]. intros y [= <-]. exact H.
      * intros [_ H]. split; [apply H; reflexivity|exact I].
    + change (chain R ((a :: b :: v) ++ [x]))
        with (R a b /\ chain R ((b :: v) ++ [x])).
      change (chain R (a :: b :: v)) with (R a b /\ chain R (b :: v)).
      change (back (a :: b :: v)) with (back (b :: v)).
      rewrite IH. tauto.
Qed.

Lemma Forall_push_back {A : Type} (P : A -> Prop) (v : list A) (x : A) :
  Forall P (push_back v x) <-> Forall P v /\ P x.
Proof.
  unfold push_back. rewrite Forall_app. split.
  - intros [H1 H2]. split; [exact H1|]. inversion H2; assumption.
  - intros [H1 H2]. split; [exact H1|]. constructor; [exact H2|constructor].
Qed.

Lemma covers_push_back (v : MarkRanges) (x : MarkRange) (m : Z) :
  covers (push_back v x) m <-> covers v m \/ begin x <= m < end_ x.
Proof.
  unfold covers, push_back. split.
  - intros (r & Hin & Hm). apply in_app_or in Hin. destruct Hin as [Hin|[<-|[]]].
    + left. exists r. auto.
    + right. exact Hm.
  - intros [(r & Hin & Hm)|Hm].
    + exists r. split; [apply in_or_app; left; exact Hin|exact Hm].
    + exists x. split; [apply in_or_app; right; left; reflexivity|exact Hm].
Qed.

Lemma covers_nil (m : Z) : ~ covers [] m.
Proof. intros (r & [] & _). Qed.

Lemma stack_weight_push_back (v : list MarkRange) (x : MarkRange) :
  stack_weight (push_back v x) = stack_weight v + (2 * (end_ x - begin x) - 1).
Proof.
  unfold push_back, stack_weight.
  induction v as [|a v IH]; cbn [app fold_right]; [lia|]. rewrite IH. lia.
Qed.

Lemma stack_weight_nonneg (marks_count : Z) (v : list MarkRange) :
  Forall (proper marks_count) v -> 0 <= stack_weight v.
Proof.
  unfold stack_weight.
  induction 1 as [|a v Ha _ IH]; cbn [fold_right]; [lia|]. unfold proper in Ha. lia.
Qed.

(** ** The index pruner *)

Section Pruner.
Context `{CO : Collaborators}.
Variable this : MergeTreeDataSelectExecutor.
Variable marks_count : Z.
Hypothesis marks_count_fits : is_size_t marks_count.

(** A hit joins the last range of [res] or starts a new one; either way it
    ends [res], separated from what precedes. *)
Lemma add_mark_spec (res : MarkRanges) (t : MarkRange) :
  Forall (proper marks_count) res ->
  separated (min_marks_for_seek this) res ->
  (forall r, back res = Some r -> end_ r <= begin t) ->
  proper marks_count t ->
  Forall (proper marks_count) (add_mark this res t)
  /\ separated (min_marks_for_seek this) (add_mark this res t)
  /\ (exists r, back (add_mark this res t) = Some r /\ end_ r = end_ t)
  /\ (forall m, covers res m \/ begin t <= m < end_ t ->
        covers (add_mark this res t) m).
Proof.
  intros Hres Hsep Hlink Ht. unfold add_mark.
  destruct (vector_cases res) as [[-> Hb]|(res' & r & -> & Hb)]; rewrite Hb.
  - refine (conj _ (conj _ (conj _ _))).
    + apply Forall_push_back. auto.
    + exact I.
    + exists t. split; [apply back_push_back|reflexivity].
    + intros m. rewrite covers_push_back. auto.
  - specialize (Hlink r Hb).
    apply Forall_push_back in Hres. destruct Hres as [Hres' Hr].
    apply chain_push_back in Hsep. destruct Hsep as [Hsep' Hlast].
    assert (Hgap : sub64 (begin t) (end_ r) = begin t - end_ r).
    { apply sub64_small. unfold proper in *. unfold is_size_t in *. lia. }
    rewrite Hgap.
    destruct (begin t - end_ r >? min_marks_for_seek this) eqn:E.
    + refine (conj _ (conj _ (conj _ _))).
      * apply Forall_push_back. split; [apply Forall_push_back; auto|exact Ht].
      * apply chain_push_back. split; [apply chain_push_back; auto|].
        intros y. rewrite back_push_back. intros [= <-]. lia.
      * exists t. split; [apply back_push_back|reflexivity].
      * intros m Hm. apply covers_push_back. exact Hm.
    + rewrite set_back_push_back. refine (conj _ (conj _ (conj _ _))).
      * apply Forall_push_back. split; [exact Hres'|].
        unfold proper in *. cbn. lia.
      * apply chain_push_back. split; [exact Hsep'|]. exact Hlast.
      * eexists. split; [apply back_push_back|reflexivity].
      * intros m Hm. apply covers_push_back. cbn.
        destruct Hm as [Hm|Hm].
        -- apply covers_push_back in Hm. destruct Hm as [Hm|Hm]; [left; exact Hm|].
           right. unfold proper in *. lia.
        -- right. unfold proper in *. lia.
Qed.

(** The loop that splits a range of at least two marks keeps the stack in
    order and tiles the range down to [end <= begin + step]. *)
Lemma split_loop_spec (fuel : nat) (t : MarkRange) (step : Z)
    (stack : list MarkRange) (e : Z) (stack' : list MarkRange) :
  proper marks_count t ->
  1 <= step <= end_ t - begin t ->
  Forall (proper marks_count) stack ->
  chain (fun a b => end_ b <= begin a) stack ->
  (forall y, back stack = Some y -> end_ t <= begin y) ->
  split_loop fuel t step stack = Return (e, stack') ->
  split_invariant marks_count t stack (e, stack') /\ e <= begin t + step.
Proof.
  intros Ht Hstep Hall Hchain Hlink Hrun. unfold split_loop in Hrun.
  unfold proper, is_size_t in *.
  assert (Hadd : add64 (begin t) step = begin t + step).
  { apply add64_small. unfold is_size_t. lia. }
  eapply (while_invariant _ _ (split_invariant marks_count t stack)) in Hrun.
  - destruct Hrun as [Hinv Hcond]. split; [exact Hinv|].
    cbn beta iota in Hcond. rewrite Hadd in Hcond. lia.
  - intros [e1 st1] s2 (He & Hall1 & Hch1 & Hb1 & Hcov1 & Hw1) Hc.
    rewrite Hadd in Hc.
    assert (Hsub : sub64 e1 step = e1 - step).
    { apply sub64_small. unfold is_size_t. lia. }
    rewrite Hsub. intros [= <-]. unfold split_invariant.
    refine (conj _ (conj _ (conj _ (conj _ (conj _ _))))).
    + lia.
    + apply Forall_push_back. split; [exact Hall1|]. unfold proper. cbn. lia.
    + apply chain_push_back. split; [exact Hch1|]. intros y Hy. cbn.
      apply Hb1. exact Hy.
    + intros y. rewrite back_push_back. intros [= <-]. cbn. lia.
    + intros m Hm. apply covers_push_back. cbn.
      destruct Hm as [Hm|Hm]; [left; apply Hcov1; left; exact Hm|].
      destruct (Z_lt_le_dec m e1) as [Hlt|Hge]; [right; lia|].
      left. apply Hcov1. right. lia.
    + rewrite stack_weight_push_back. cbn [begin end_].
      destruct (e1 - step <? end_ t) eqn:E1; [|lia].
      destruct (e1 <? end_ t); lia.
  - unfold split_invariant. refine (conj _ (conj _ (conj _ (conj _ (conj _ _))))).
    + lia.
    + exact Hall.
    + exact Hchain.
    + exact Hlink.
    + intros m [Hm|Hm]; [exact Hm|lia].
    + rewrite Z.ltb_irrefl. lia.
Qed.

Variables (index_ : Index) (key_condition : PKCondition) (sat : Z -> Prop).
Let key_size := size (getSortDescription (data this)).
Let granularity := coarse_index_granularity (settings (data this)).
Hypothesis granularity_nonneg : 0 <= granularity.
Hypothesis oracle :
  forall range, proper marks_count range ->
    (exists m, begin range <= m < end_ range /\ sat m) ->
    may_be_true index_ key_condition key_size marks_count range = Return true.

(** The step of a range of [n >= 2] marks is between 1 and [n], and below
    [n] when the granularity is at least 2. *)
Lemma step_bounds (n : Z) :
  2 <= n -> 1 <= granularity ->
  1 <= (n - 1) / granularity + 1 <= n
  /\ (2 <= granularity -> (n - 1) / granularity + 1 < n).
Proof.
  intros Hn Hg. split; [split|].
  - assert (0 <= (n - 1) / granularity) by (apply Z.div_pos; lia). lia.
  - assert ((n - 1) / granularity <= n - 1); [|lia].
    apply Z.div_le_upper_bound; nia.
  - intros Hg2. assert ((n - 1) / granularity < n - 1); [|lia].
    apply Z.div_lt; lia.
Qed.

(** One iteration of the descent keeps the invariant, and lightens the
    stack when the granularity is at least 2. *)
Lemma descend_step (fuel : nat) (st st' : list MarkRange * MarkRanges) :
  pruner_invariant this sat marks_count st ->
  descend this fuel index_ key_condition key_size marks_count st = Return st' ->
  pruner_invariant this sat marks_count st'
  /\ (2 <= granularity -> stack_weight (fst st') < stack_weight (fst st)).
Proof.
  destruct st as [stack res].
  intros (Hall & Hchain & Hres & Hsep & Hlink & Hcov). unfold descend.
  destruct (vector_cases stack) as [[-> Hb]|(stack0 & t & -> & Hb)]; rewrite Hb;
    [discriminate|].
  rewrite pop_back_push_back.
  apply Forall_push_back in Hall. destruct Hall as [Hall0 Ht].
  apply chain_push_back in Hchain. destruct Hchain as [Hchain0 Htop].
  specialize (Hlink t).
  assert (Ht' := Ht). unfold proper in Ht'. unfold is_size_t in marks_count_fits.
  cbn [fst]. rewrite stack_weight_push_back.
  destruct (may_be_true index_ key_condition key_size marks_count t)
    as [[|]| | | |] eqn:Emay; cbn [bind negb]; try discriminate.
  - (* the range may hold a key *)
    assert (Hone : add64 (begin t) 1 = begin t + 1).
    { apply add64_small. unfold is_size_t. lia. }
    rewrite Hone.
    destruct (end_ t =? begin t + 1) eqn:Esingle.
    + intros [= <-]. apply Z.eqb_eq in Esingle.
      destruct (add_mark_spec res t Hres Hsep (fun r Hr => Hlink r Hb Hr) Ht)
        as (Hres' & Hsep' & (r' & Hr' & Hend) & Hcov').
      split; [|cbn [fst]; lia].
      refine (conj Hall0 (conj Hchain0 (conj Hres' (conj Hsep' (conj _ _))))).
      * intros t1 r1 Ht1 Hr1. rewrite Hr' in Hr1. injection Hr1 as <-.
        rewrite Hend. apply (Htop t1 Ht1).
      * intros m Hm Hsat. destruct (Hcov m Hm Hsat) as [Hc|Hc].
        -- left. apply Hcov'. left. exact Hc.
        -- apply covers_push_back in Hc. destruct Hc as [Hc|Hc];
             [right; exact Hc|left; apply Hcov'; right; exact Hc].
    + fold granularity. destruct (granularity =? 0) eqn:Eg; [discriminate|].
      apply Z.eqb_neq in Eg. apply Z.eqb_neq in Esingle.
      assert (Hlen : sub64 (end_ t) (begin t) = end_ t - begin t).
      { apply sub64_small. unfold is_size_t. lia. }
      assert (Hlen1 : sub64 (end_ t - begin t) 1 = end_ t - begin t - 1).
      { apply sub64_small. unfold is_size_t. lia. }
      destruct (step_bounds (end_ t - begin t)) as [Hstep Hstep2]; [lia|lia|].
      rewrite Hlen, Hlen1.
      assert (Hs : add64 ((end_ t - begin t - 1) / granularity) 1
                   = (end_ t - begin t - 1) / granularity + 1).
      { apply add64_small. unfold is_size_t. lia. }
      rewrite Hs.
      destruct (split_loop fuel t _ stack0) as [[e stack1]| | | |] eqn:Esplit;
        cbn [bind]; try discriminate.
      intros [= <-].
      destruct (split_loop_spec _ _ _ _ _ _ Ht Hstep Hall0 Hchain0 Htop Esplit)
        as [(He & Hall1 & Hch1 & Hb1 & Hcov1 & Hw1) Hexit].
      split.
      * refine (conj _ (conj _ (conj Hres (conj Hsep (conj _ _))))).
        -- apply Forall_push_back. split; [exact Hall1|]. unfold proper. cbn. lia.
        -- apply chain_push_back. split; [exact Hch1|]. intros y Hy. cbn.
           apply Hb1. exact Hy.
        -- intros t1 r1. rewrite back_push_back. intros [= <-] Hr1. cbn.
           apply (Hlink r1 Hb Hr1).
        -- intros m Hm Hsat. destruct (Hcov m Hm Hsat) as [Hc|Hc]; [left; exact Hc|].
           right. apply covers_push_back. cbn.
           apply covers_push_back in Hc. destruct Hc as [Hc|Hc].
           ++ left. apply Hcov1. left. exact Hc.
           ++ destruct (Z_lt_le_dec m e) as [Hlt|Hge]; [right; lia|].
              left. apply Hcov1. right. lia.
      * intros Hg2. specialize (Hstep2 Hg2). cbn [fst].
        rewrite stack_weight_push_back. cbn [begin end_].
        destruct (e <? end_ t) eqn:Ee; [lia|]. apply Z.ltb_ge in Ee. lia.
  - (* the range is dropped *)
    intros [= <-]. split; [|cbn [fst]; lia].
    refine (conj Hall0 (conj Hchain0 (conj Hres (conj Hsep (conj _ _))))).
    + intros t1 r1 Ht1 Hr1. specialize (Htop t1 Ht1). cbn in Htop.
      specialize (Hlink r1 Hb Hr1). lia.
    + intros m Hm Hsat. destruct (Hcov m Hm Hsat) as [Hc|Hc]; [left; exact Hc|].
      apply covers_push_back in Hc. destruct Hc as [Hc|Hc]; [right; exact Hc|].
      rewrite oracle in Emay; [discriminate|exact Ht|]. exists m. auto.
Qed.

(** The loop that splits a range returns when the fuel covers the marks of
    the range. *)
Lemma split_loop_returns (fuel : nat) (t : MarkRange) (step : Z)
    (stack : list MarkRange) :
  proper marks_count t ->
  1 <= step <= end_ t - begin t ->
  (Z.to_nat marks_count <= fuel)%nat ->
  exists st, split_loop fuel t step stack = Return st.
Proof.
  intros Ht Hstep Hfuel. unfold split_loop.
  unfold proper, is_size_t in *.
  assert (Hadd : add64 (begin t) step = begin t + step).
  { apply add64_small. unfold is_size_t. lia. }
  destruct (while_variant
              (fun '(e, _) => e >? add64 (begin t) step)
              (fun '(e, stack1) =>
                 Return (sub64 e step,
                         push_back stack1 {| begin := sub64 e step; end_ := e |}))
              (fun '(e, _) => begin t < e <= end_ t)
              (fun '(e, _) => Z.to_nat (e - begin t))) with (fuel := fuel)
              (s := (end_ t, stack))
    as (st & Hst & _).
  - intros [e stack1] He Hc. rewrite Hadd in Hc.
    assert (Hsub : sub64 e step = e - step).
    { apply sub64_small. unfold is_size_t. lia. }
    eexists. split; [reflexivity|]. rewrite Hsub. split; lia.
  - lia.
  - lia.
  - exists st. exact Hst.
Qed.

(** The elements of the index a range of marks is tested on exist, for an
    index of [marks_count] rows of [key_size] fields at least. *)
Lemma may_be_true_defined (t : MarkRange) :
  proper marks_count t ->
  0 < key_size ->
  marks_count * key_size <= size index_ < size_t_modulus ->
  exists accepts,
    may_be_true index_ key_condition key_size marks_count t = Return accepts.
Proof.
  intros Ht Hkey Hindex. unfold proper in Ht. unfold may_be_true, address_of.
  assert (Hleft : mul64 (begin t) key_size = begin t * key_size).
  { apply mul64_small. unfold is_size_t. nia. }
  rewrite Hleft.
  destruct (Z.ltb_spec (begin t * key_size) (size index_)) as [_|Hout]; [|nia].
  cbn [bind].
  destruct (Z.eqb_spec (end_ t) marks_count) as [_|Hend]; [eexists; reflexivity|].
  assert (Hright : mul64 (end_ t) key_size = end_ t * key_size).
  { apply mul64_small. unfold is_size_t. nia. }
  rewrite Hright.
  destruct (Z.ltb_spec (end_ t * key_size) (size index_)) as [_|Hout]; [|nia].
  cbn [bind]. eexists. reflexivity.
Qed.

(** One iteration of the descent returns when the granularity is positive,
    the index holds its [marks_count] rows and the fuel covers the marks of
    the part. *)
Lemma descend_returns (fuel : nat) (st : list MarkRange * MarkRanges) :
  pruner_invariant this sat marks_count st ->
  negb (empty (fst st)) = true ->
  1 <= granularity ->
  0 < key_size ->
  marks_count * key_size <= size index_ < size_t_modulus ->
  (Z.to_nat marks_count <= fuel)%nat ->
  exists st', descend this fuel index_ key_condition key_size marks_count st = Return st'.
Proof.
  destruct st as [stack res].
  intros (Hall & _) Hne Hg Hkey Hindex Hfuel. unfold descend. cbn [fst] in Hne.
  destruct (vector_cases stack) as [[-> Hb]|(stack0 & t & -> & Hb)]; rewrite Hb;
    [discriminate|].
  apply Forall_push_back in Hall. destruct Hall as [_ Ht].
  assert (Ht' := Ht). unfold proper in Ht'. unfold is_size_t in marks_count_fits.
  destruct (may_be_true_defined t Ht Hkey Hindex) as [[|] ->];
    cbn [bind negb]; [|eexists; reflexivity].
  assert (Hone : add64 (begin t) 1 = begin t + 1).
  { apply add64_small. unfold is_size_t. lia. }
  rewrite Hone.
  destruct (end_ t =? begin t + 1) eqn:Esingle; [eexists; reflexivity|].
  apply Z.eqb_neq in Esingle.
  fold granularity. destruct (granularity =? 0) eqn:Eg; [apply Z.eqb_eq in Eg; lia|].
  assert (Hlen : sub64 (end_ t) (begin t) = end_ t - begin t).
  { apply sub64_small. unfold is_size_t. lia. }
  assert (Hlen1 : sub64 (end_ t - begin t) 1 = end_ t - begin t - 1).
  { apply sub64_small. unfold is_size_t. lia. }
  destruct (step_bounds (end_ t - begin t)) as [Hstep _]; [lia|lia|].
  rewrite Hlen, Hlen1.
  assert (Hs : add64 ((end_ t - begin t - 1) / granularity) 1
               = (end_ t - begin t - 1) / granularity + 1).
  { apply add64_small. unfold is_size_t. lia. }
  rewrite Hs.
  destruct (split_loop_returns fuel t _ (pop_back (push_back stack0 t)) Ht Hstep Hfuel)
    as [[e stack1] ->].
  cbn [bind]. eexists. reflexivity.
Qed.
End Pruner.

Section PrunerResults.
Context `{CO : Collaborators}.
Variable this : MergeTreeDataSelectExecutor.
Variables (index_ : Index) (key_condition : PKCondition).
Let key_size := size (getSortDescription (data this)).
Let marks_count := marks_count_of this index_.
Let granularity := coarse_index_granularity (settings (data this)).
Let seek := min_marks_for_seek this.
Let start : list MarkRange * MarkRanges :=
  (push_back [] {| begin := 0; end_ := marks_count |}, []).
Let running : list MarkRange * MarkRanges -> bool :=
  fun '(ranges_stack, _) => negb (empty ranges_stack).

Lemma size_nonneg {A : Type} (v : list A) : 0 <= size v.
Proof. unfold size. lia. Qed.

Lemma marks_count_fits :
  is_size_t (size index_) -> key_size <> 0 -> is_size_t marks_count.
Proof.
  unfold is_size_t. intros Hsize Hkey.
  assert (Hk : 0 < key_size) by (pose proof (size_nonneg (getSortDescription (data this))); subst key_size; lia).
  subst marks_count. unfold marks_count_of. fold key_size. split.
  - apply Z.div_pos; lia.
  - apply Z.le_lt_trans with (size index_); [|lia].
    apply Z.div_le_upper_bound; nia.
Qed.

(** With less than one row in the index, a descent that returns has
    selected nothing. *)
Lemma descent_of_empty_index (fuel n : nat) st :
  marks_count = 0 ->
  while_ n running (descend this fuel index_ key_condition key_size marks_count) start
    = Return st ->
  st = ([], []).
Proof.
  intros HM. subst start. rewrite HM.
  assert (Hbody :
    descend this fuel index_ key_condition key_size 0
      (push_back [] {| begin := 0; end_ := 0 |}, [])
    = accepts <-
        may_be_true index_ key_condition key_size 0 {| begin := 0; end_ := 0 |} ;;
      if negb accepts
      then Return ([], [])
      else if granularity =? 0 then Undefined
      else Return (push_back [] {| begin := 0; end_ := 0 |}, [])).
  { unfold descend. cbn [push_back app back pop_back removelast begin end_].
    destruct (may_be_true _ _ _ _ _) as [accepts| | | |]; cbn [bind]; try reflexivity.
    destruct (negb _); [reflexivity|].
    change (0 =? add64 0 1) with false. cbn iota.
    fold granularity. destruct (granularity =? 0); [reflexivity|].
    unfold split_loop. cbn [begin end_].
    set (step := add64 _ 1).
    assert (Hstep : (0 >? add64 0 step) = false).
    { pose proof (wrap64_range (0 + step)) as H. unfold is_size_t in H.
      unfold add64. lia. }
    destruct fuel; cbn [while_]; rewrite Hstep; reflexivity. }
  induction n as [|n IH]; cbn [while_ running]; cbn [push_back app empty negb].
  - discriminate.
  - unfold push_back in Hbody. cbn [app] in Hbody. rewrite Hbody.
    destruct (may_be_true index_ key_condition key_size 0 {| begin := 0; end_ := 0 |})
      as [[|]| | | |]; cbn [bind negb]; try discriminate.
    + destruct (granularity =? 0); cbn [bind]; [discriminate|]. exact IH.
    + destruct n; cbn; intros [= <-]; auto.
Qed.

Hypothesis granularity_fits : is_size_t granularity.
Hypothesis index_fits : is_size_t (size index_).

(** Whatever the pruner returns is in order, separated by more than the
    seek threshold, and covers the marks of [sat] when the condition is
    conservative for them. *)
Lemma markRangesFromPkRange_sound (sat : Z -> Prop) (fuel : nat) (res : MarkRanges) :
  conservative this sat index_ key_condition ->
  markRangesFromPkRange this fuel index_ key_condition = Return res ->
  Forall (fun range => 0 <= begin range /\ begin range <= end_ range <= marks_count) res
  /\ separated seek res
  /\ (forall m, 0 <= m < marks_count -> sat m -> covers res m).
Proof.
  intros Horacle. unfold markRangesFromPkRange. fold key_size.
  destruct (key_size =? 0) eqn:Ekey; [discriminate|]. apply Z.eqb_neq in Ekey.
  pose proof (marks_count_fits index_fits Ekey) as HM.
  change (size index_ / key_size) with marks_count.
  destruct (alwaysTrue key_condition).
  - intros [= <-]. unfold is_size_t in HM. cbn. split; [|split].
    + constructor; [cbn; lia|constructor].
    + exact I.
    + intros m Hm _. eexists. split; [left; reflexivity|]. cbn. lia.
  - destruct (while_ fuel _ _ _) as [[stack res']| | | |] eqn:Eloop;
      cbn [bind]; try discriminate.
    intros [= <-].
    destruct (Z.eq_dec marks_count 0) as [H0|Hpos].
    + apply descent_of_empty_index in Eloop; [|exact H0].
      injection Eloop as -> ->. split; [constructor|split; [exact I|]].
      intros m Hm. lia.
    + unfold is_size_t in granularity_fits, HM.
      apply (while_invariant _ _ (pruner_invariant this sat marks_count)) in Eloop.
      * destruct Eloop as [(Hall & _ & Hres & Hsep & _ & Hcov) Hcond].
        cbn in Hcond. apply negb_false_iff, empty_true in Hcond. subst stack.
        split; [|split].
        -- eapply Forall_impl; [|exact Hres]. unfold proper. intros r Hr. lia.
        -- exact Hsep.
        -- intros m Hm Hsat. destruct (Hcov m Hm Hsat) as [Hc|Hc]; [exact Hc|].
           destruct (covers_nil m Hc).
      * intros s s' Hs _ Hbody.
        apply (descend_step this marks_count HM index_
                 key_condition sat (proj1 granularity_fits) Horacle fuel s s' Hs Hbody).
      * unfold pruner_invariant. cbn [push_back app].
        refine (conj _ (conj I (conj (Forall_nil _) (conj I (conj _ _))))).
        -- constructor; [|constructor]. unfold proper. cbn. lia.
        -- intros t r _. discriminate.
        -- intros m Hm _. right. eexists. split; [left; reflexivity|]. cbn. lia.
Qed.

(** With a granularity of at least 2 and a part of at least one mark, the
    pruner returns as soon as the fuel is twice the number of marks. *)
Lemma markRangesFromPkRange_returns (fuel : nat) :
  key_size <> 0 ->
  2 <= granularity ->
  1 <= marks_count ->
  (Z.to_nat (2 * marks_count) <= fuel)%nat ->
  exists res, markRangesFromPkRange this fuel index_ key_condition = Return res.
Proof.
  intros Ekey Hg HM1 Hfuel. unfold markRangesFromPkRange. fold key_size.
  destruct (key_size =? 0) eqn:Ek; [apply Z.eqb_eq in Ek; contradiction|].
  pose proof (marks_count_fits index_fits Ekey) as HM.
  change (size index_ / key_size) with marks_count.
  destruct (alwaysTrue key_condition); [eexists; reflexivity|].
  unfold is_size_t in granularity_fits.
  destruct (while_variant running
              (descend this fuel index_ key_condition key_size marks_count)
              (pruner_invariant this (fun _ => False) marks_count)
              (fun st => Z.to_nat (stack_weight (fst st)))) with (fuel := fuel)
              (s := start)
    as ([stack res] & Hrun & _).
  - intros s Hs Hc.
    destruct (descend_returns this marks_count HM index_ key_condition
                (fun _ => False) (proj1 granularity_fits) fuel s Hs) as [s' Hs'].
    + destruct s. exact Hc.
    + fold granularity. lia.
    + pose proof (size_nonneg (getSortDescription (data this))). unfold key_size in *.
      lia.
    + split; [|apply index_fits]. unfold marks_count, marks_count_of.
      rewrite Z.mul_comm. apply Z.mul_div_le.
      pose proof (size_nonneg (getSortDescription (data this))). unfold key_size in *.
      lia.
    + lia.
    + exists s'. split; [exact Hs'|].
      assert (Hnone : forall range, proper marks_count range ->
                (exists m, begin range <= m < end_ range /\ False) ->
                may_be_true index_ key_condition key_size marks_count range
                = Return true).
      { intros range _ (m & _ & []). }
      destruct (descend_step this marks_count HM index_
                  key_condition (fun _ => False) (proj1 granularity_fits) Hnone
                  fuel s s' Hs Hs') as [Hinv Hw].
      split; [exact Hinv|].
      fold granularity in Hw. specialize (Hw Hg).
      destruct s' as [stack' res']. destruct Hinv as (Hall' & _).
      pose proof (stack_weight_nonneg _ _ Hall'). cbn [fst] in *. lia.
  - subst start. unfold pruner_invariant. cbn [push_back app].
    refine (conj _ (conj I (conj (Forall_nil _) (conj I (conj _ _))))).
    + constructor; [|constructor]. unfold proper. cbn. lia.
    + intros t r _. discriminate.
    + intros m _ [].
  - subst start. cbn [fst push_back app]. unfold stack_weight.
    cbn [fold_right begin end_]. lia.
  - subst start running. cbn [push_back app] in Hrun. cbn [push_back app].
    rewrite Hrun. cbn. eexists. reflexivity.
Qed.
End PrunerResults.

(** A chain of ranges that are not reversed is ordered pairwise. *)
Lemma separated_pairwise (seek : Z) (res : MarkRanges) :
  0 <= seek ->
  Forall (fun range => begin range <= end_ range) res ->
  separated seek res ->
  ForallOrdPairs (fun a b => end_ a + seek < begin b) res.
Proof.
  intros Hseek Hall. unfold separated.
  induction Hall as [|a res Ha Hall IH]; intros Hchain; [constructor|].
  destruct res as [|b res]; [constructor; [constructor|constructor]|].
  destruct Hchain as [Hab Hchain]. specialize (IH Hchain).
  inversion IH as [|? ? Hb Hrest]; subst.
  constructor; [|exact IH].
  constructor; [exact Hab|].
  inversion Hall as [|? ? Hbwf _]; subst.
  eapply Forall_impl; [|exact Hb]. cbn. intros c Hc. lia.
Qed.

Section PrunerClaims.
Context `{CO : Collaborators}.
Variable this : MergeTreeDataSelectExecutor.
Variables (index_ : Index) (key_condition : PKCondition).

(** C9: when the condition reports [alwaysTrue] the pruner returns the
    single range [0, marks_count), whatever the fuel (no iteration of the
    descent runs), and the result depends on the index through its size
    only. *)
Theorem markRangesFromPkRange_alwaysTrue :
  getSortDescription (data this) <> [] ->
  alwaysTrue key_condition = true ->
  (forall fuel,
     markRangesFromPkRange this fuel index_ key_condition
     = Return [{| begin := 0; end_ := marks_count_of this index_ |}])
  /\ (forall fuel fuel' index' key_condition',
        List.length index' = List.length index_ ->
        alwaysTrue key_condition' = true ->
        markRangesFromPkRange this fuel' index' key_condition'
        = markRangesFromPkRange this fuel index_ key_condition).
Proof.
  intros Hkey Htrue.
  assert (Hsize : (size (getSortDescription (data this)) =? 0) = false).
  { apply Z.eqb_neq. unfold size.
    destruct (getSortDescription (data this)); [contradiction|cbn; lia]. }
  assert (Hone : forall fuel index' key_condition',
            alwaysTrue key_condition' = true ->
            markRangesFromPkRange this fuel index' key_condition'
            = Return [{| begin := 0; end_ := marks_count_of this index' |}]).
  { intros fuel index' key_condition' H. unfold markRangesFromPkRange.
    rewrite Hsize, H. reflexivity. }
  split.
  - intros fuel. apply Hone. exact Htrue.
  - intros fuel fuel' index' key_condition' Hlen H.
    rewrite !Hone by assumption. unfold marks_count_of, size. rewrite Hlen.
    reflexivity.
Qed.

(** C1: the ranges the pruner returns are listed from left to right, none
    reversed, and every range starts more than [min_marks_for_seek] marks
    after the end of every earlier one (so they do not overlap); a hit at
    most [min_marks_for_seek] marks after the last range extends that range
    instead of starting a new one; and the pruner does return when the
    granularity is at least 2 and the part has a mark. *)
Theorem markRangesFromPkRange_separated :
  is_size_t (min_marks_for_seek this) ->
  is_size_t (coarse_index_granularity (settings (data this))) ->
  is_size_t (size index_) ->
  (forall fuel res,
     markRangesFromPkRange this fuel index_ key_condition = Return res ->
     Forall (fun range => 0 <= begin range /\ begin range <= end_ range
                          /\ end_ range <= marks_count_of this index_) res
     /\ separated (min_marks_for_seek this) res
     /\ ForallOrdPairs
          (fun a b => end_ a + min_marks_for_seek this < begin b) res)
  /\ (forall res last_range hit,
        back res = Some last_range ->
        is_size_t (begin hit - end_ last_range) ->
        add_mark this res hit
        = if begin hit - end_ last_range <=? min_marks_for_seek this
          then set_back res {| begin := begin last_range; end_ := end_ hit |}
          else push_back res hit)
  /\ (getSortDescription (data this) <> [] ->
      2 <= coarse_index_granularity (settings (data this)) ->
      1 <= marks_count_of this index_ ->
      forall fuel, (Z.to_nat (2 * marks_count_of this index_) <= fuel)%nat ->
      exists res, markRangesFromPkRange this fuel index_ key_condition = Return res).
Proof.
  intros Hseek Hg Hindex. split; [|split].
  - intros fuel res Hres.
    destruct (markRangesFromPkRange_sound this index_ key_condition Hg Hindex
                (fun _ => False) fuel res) as (Hall & Hsep & _); [|exact Hres|].
    { intros range _ (m & _ & []). }
    split; [|split; [exact Hsep|]].
    + eapply Forall_impl; [|exact Hall]. cbn. intros r Hr. lia.
    + apply separated_pairwise; [apply Hseek| |exact Hsep].
      eapply Forall_impl; [|exact Hall]. cbn. intros r Hr. lia.
  - intros res last_range hit Hback Hgap. unfold add_mark. rewrite Hback.
    rewrite (sub64_small _ _ Hgap).
    destruct (Z.leb_spec (begin hit - end_ last_range) (min_marks_for_seek this));
      destruct (Z.gtb_spec (begin hit - end_ last_range) (min_marks_for_seek this));
      try reflexivity; lia.
  - intros Hkey Hg2 HM fuel Hfuel.
    apply markRangesFromPkRange_returns; try assumption.
    unfold size. destruct (getSortDescription (data this)); [contradiction|cbn; lia].
Qed.

End PrunerClaims.

(** ** Counting marks *)

Lemma total_marks_app (v w : MarkRanges) :
  total_marks (v ++ w) = total_marks v + total_marks w.
Proof.
  unfold total_marks. induction v as [|a v IH]; cbn [app fold_right]; [lia|].
  rewrite IH. lia.
Qed.

Lemma total_marks_push_back (v : MarkRanges) (x : MarkRange) :
  total_marks (push_back v x) = total_marks v + marks_in x.
Proof.
  unfold push_back. rewrite total_marks_app. unfold total_marks. cbn [fold_right]. lia.
Qed.

Lemma total_marks_rev (v : MarkRanges) : total_marks (rev v) = total_marks v.
Proof.
  induction v as [|a v IH]; [reflexivity|]. cbn [rev].
  rewrite total_marks_app, IH. unfold total_marks. cbn [fold_right]. lia.
Qed.

Lemma total_marks_nonneg (v : MarkRanges) :
  Forall well_formed v -> 0 <= total_marks v.
Proof.
  unfold total_marks.
  induction 1 as [|a v Ha _ IH]; cbn [fold_right]; [lia|].
  unfold well_formed, marks_in in *. lia.
Qed.

Lemma sum_list_app (v w : list Z) : sum_list (v ++ w) = sum_list v + sum_list w.
Proof.
  unfold sum_list. induction v as [|a v IH]; cbn [app fold_right]; [lia|].
  rewrite IH. lia.
Qed.

(** The sum the source computes modulo 2^64 is the number of marks when that
    number fits. *)
Lemma fold_marks_exact (v : MarkRanges) (sum : Z) :
  Forall well_formed v ->
  0 <= sum -> sum + total_marks v < size_t_modulus ->
  fold_left (fun sum range => add64 sum (sub64 (end_ range) (begin range))) v sum
  = sum + total_marks v.
Proof.
  intros Hall. revert sum. unfold total_marks.
  induction Hall as [|a v Ha Hall IH]; intros sum Hsum Hfit;
    cbn [fold_left fold_right] in *.
  - lia.
  - pose proof (total_marks_nonneg v Hall) as Hv. unfold total_marks in Hv.
    unfold well_formed, marks_in in *.
    rewrite sub64_small by (unfold is_size_t; lia).
    rewrite add64_small by (unfold is_size_t; lia).
    rewrite IH; lia.
Qed.

Lemma sum_marks_in_ranges_exact `{CO : Collaborators} (v : MarkRanges) :
  Forall well_formed v -> total_marks v < size_t_modulus ->
  sum_marks_in_ranges v = total_marks v.
Proof.
  intros Hall Hfit. unfold sum_marks_in_ranges.
  rewrite fold_marks_exact; [lia|exact Hall|lia|lia].
Qed.

Lemma fold_add64_exact (v : list Z) (sum : Z) :
  Forall (fun x => 0 <= x) v ->
  0 <= sum -> sum + sum_list v < size_t_modulus ->
  fold_left add64 v sum = sum + sum_list v.
Proof.
  intros Hall. revert sum. unfold sum_list.
  induction Hall as [|a v Ha Hall IH]; intros sum Hsum Hfit;
    cbn [fold_left fold_right] in *.
  - lia.
  - assert (0 <= fold_right Z.add 0 v).
    { clear -Hall. induction Hall; cbn [fold_right]; lia. }
    rewrite add64_small by (unfold is_size_t; lia).
    rewrite IH; lia.
Qed.

(** ** The marks of a range *)

Lemma range_marks_length (range : MarkRange) :
  List.length (range_marks range) = Z.to_nat (marks_in range).
Proof. unfold range_marks. rewrite length_map, length_seq. reflexivity. Qed.

Lemma range_marks_empty (range : MarkRange) :
  marks_in range <= 0 -> range_marks range = [].
Proof.
  intros H. unfold range_marks. replace (Z.to_nat (marks_in range)) with 0%nat by lia.
  reflexivity.
Qed.

Lemma map_seq_shift (x : Z) (a n s : nat) :
  map (fun k => x + Z.of_nat k) (seq (a + s) n)
  = map (fun k => x + Z.of_nat a + Z.of_nat k) (seq s n).
Proof.
  revert s. induction n as [|n IH]; intros s; cbn [seq map]; [reflexivity|].
  rewrite <- IH. f_equal; [lia|]. f_equal. f_equal. lia.
Qed.

(** A range is its first [g] marks followed by the rest. *)
Lemma range_marks_split (range : MarkRange) (g : Z) :
  0 <= g <= marks_in range ->
  range_marks range
  = range_marks {| begin := begin range; end_ := begin range + g |}
    ++ range_marks {| begin := begin range + g; end_ := end_ range |}.
Proof.
  intros Hg. unfold range_marks, marks_in in *. cbn [begin end_].
  replace (Z.to_nat (end_ range - begin range))
    with (Z.to_nat g + Z.to_nat (end_ range - (begin range + g)))%nat by lia.
  rewrite seq_app, map_app.
  replace (begin range + g - begin range) with g by lia. f_equal.
  replace (0 + Z.to_nat g)%nat with (Z.to_nat g + 0)%nat by lia.
  rewrite map_seq_shift. replace (Z.of_nat (Z.to_nat g)) with g by lia. reflexivity.
Qed.

Lemma perm_move {A : Type} (G R X L : list A) :
  Permutation (G ++ R ++ X) L -> Permutation ((G ++ X) ++ R) L.
Proof.
  intros H. rewrite <- H, <- app_assoc. apply Permutation_app_head.
  apply Permutation_app_comm.
Qed.

(** ** The spreader: the loop over the ranges of a part *)

Section TakeRanges.
Context `{CO : Collaborators}.

Lemma flat_map_push_back {A B : Type} (f : A -> list B) (v : list A) (x : A) :
  flat_map f (push_back v x) = flat_map f v ++ f x.
Proof. unfold push_back. rewrite flat_map_app. cbn. rewrite app_nil_r. reflexivity. Qed.

(** Taking [need_marks] marks from a part that has more of them returns,
    with the ranges taken and the ranges left making up the part. *)
Lemma take_ranges_spec (need_marks : Z) (ranges0 : MarkRanges) :
  Forall well_formed ranges0 ->
  0 < need_marks < total_marks ranges0 ->
  total_marks ranges0 < size_t_modulus ->
  exists part_ranges got,
    take_ranges (need_marks, ranges0, total_marks ranges0, [])
    = Return (0, part_ranges, total_marks ranges0 - need_marks, got)
    /\ Forall well_formed part_ranges
    /\ total_marks part_ranges = total_marks ranges0 - need_marks
    /\ Forall well_formed got
    /\ Permutation (flat_map range_marks got ++ flat_map range_marks part_ranges)
         (flat_map range_marks ranges0).
Proof.
  intros Hwf Hneed Hfit. unfold take_ranges.
  match goal with
  | |- context [while_ ?f ?c ?b ?st] =>
      assert (HW : exists st',
                while_ f c b st = Return st'
                /\ take_ranges_invariant ranges0 (total_marks ranges0 - need_marks) st'
                /\ c st' = false);
        [apply while_variant
           with (variant := fun '(need, part_ranges, _, _) =>
                   (List.length part_ranges + if need >? 0 then 1 else 0)%nat)
        |destruct HW as ([[[need' ranges'] marks'] got'] & Hrun & Hinv & Hc)]
  end.
  - intros [[[need v] m] got] (Hv & Hm & Hn & Hle & Hrest & Hgot & Hperm) Hc.
    assert (Hpos : 0 < need) by lia.
    destruct (vector_cases v) as [[-> Hb]|(v0 & range & -> & Hb)].
    { cbn in Hm. lia. }
    rewrite Hb. apply Forall_push_back in Hv. destruct Hv as [Hv0 Hrange].
    rewrite total_marks_push_back in Hm.
    pose proof (total_marks_nonneg v0 Hv0) as Hv0pos.
    assert (Hrange' := Hrange). unfold well_formed in Hrange'. unfold marks_in in Hm.
    rewrite (sub64_small (end_ range)) by (unfold is_size_t; lia).
    rewrite flat_map_push_back in Hperm.
    assert (Hpiece : forall g, 0 <= g <= end_ range - begin range ->
              Forall well_formed
                (push_back got {| begin := begin range; end_ := begin range + g |})).
    { intros g Hg. apply Forall_push_back. split; [exact Hgot|].
      unfold well_formed. cbn [begin end_]. lia. }
    destruct (Z.min_spec (end_ range - begin range) need) as [[Hlt ->]|[Hge ->]].
    + (* the whole range is taken *)
      rewrite (add64_small (begin range)) by (unfold is_size_t; lia).
      rewrite !sub64_small by (unfold is_size_t; lia).
      specialize (Hpiece (end_ range - begin range) ltac:(lia)).
      replace (begin range + (end_ range - begin range)) with (end_ range) in * by lia.
      cbn [begin end_]. rewrite Z.eqb_refl, pop_back_push_back.
      eexists. split; [reflexivity|]. split.
      * refine (conj Hv0 (conj _ (conj _ (conj _ (conj _ (conj Hpiece _))))));
          try lia.
        rewrite flat_map_push_back. apply perm_move.
        destruct range as [b e]. exact Hperm.
      * rewrite length_push_back, Hc.
        destruct (need - (end_ range - begin range) >? 0); lia.
    + (* the range is cut *)
      rewrite (add64_small (begin range)) by (unfold is_size_t; lia).
      rewrite !sub64_small by (unfold is_size_t; lia).
      specialize (Hpiece need ltac:(lia)).
      cbn [begin end_].
      destruct (Z.eqb_spec (begin range + need) (end_ range)) as [Heq|Hne].
      * rewrite pop_back_push_back. eexists. split; [reflexivity|]. split.
        -- refine (conj Hv0 (conj _ (conj _ (conj _ (conj _ (conj Hpiece _))))));
             try lia.
           rewrite flat_map_push_back. apply perm_move.
           rewrite Heq. destruct range as [b e]. exact Hperm.
        -- rewrite length_push_back, Hc, Z.sub_diag. cbn. lia.
      * rewrite set_back_push_back. eexists. split; [reflexivity|]. split.
        -- refine (conj _ (conj _ (conj _ (conj _ (conj _ (conj Hpiece _)))))).
           ++ apply Forall_push_back. split; [exact Hv0|].
              unfold well_formed. cbn [begin end_]. lia.
           ++ rewrite total_marks_push_back. unfold marks_in. cbn [begin end_]. lia.
           ++ lia.
           ++ lia.
           ++ lia.
           ++ rewrite !flat_map_push_back.
              rewrite (range_marks_split range need) in Hperm
                by (unfold marks_in; lia).
              rewrite <- Hperm. rewrite <- !app_assoc.
              apply Permutation_app_head.
              rewrite !app_assoc. apply Permutation_app_tail.
              apply Permutation_app_comm.
        -- rewrite !length_push_back, Hc, Z.sub_diag. cbn. lia.
  - cbn. refine (conj Hwf (conj eq_refl (conj _ (conj _ (conj eq_refl (conj _ _))))));
      [lia|lia|constructor|].
    apply Permutation_refl.
  - destruct (need_marks >? 0); lia.
  - destruct Hinv as (Hv & Hm & Hn & _ & Hrest & Hgot & Hperm).
    assert (need' = 0) by lia. subst need'.
    exists ranges', got'. replace (total_marks ranges0 - need_marks) with marks' by lia.
    split; [exact Hrun|]. split; [exact Hv|]. split; [lia|]. split; assumption.
Qed.
End TakeRanges.

(** ** The spreader: the loop over the parts *)

Section TakePart.
Context `{CO : Collaborators}.
Variable this : MergeTreeDataSelectExecutor.
Variables (column_names : Names) (max_block_size : Z)
  (use_uncompressed_cache : bool)
  (prewhere_actions : option ExpressionActions) (prewhere_column : string).

Lemma sum_list_push_back (v : list Z) (x : Z) :
  sum_list (push_back v x) = sum_list v + x.
Proof. unfold push_back. rewrite sum_list_app. unfold sum_list. cbn. lia. Qed.

Lemma tied_push_back_inv least parts0 part sums :
  tied least (push_back parts0 part) sums ->
  exists sums0 sum,
    sums = push_back sums0 sum /\ tied least parts0 sums0
    /\ Forall well_formed (ranges part)
    /\ sum = total_marks (ranges part) /\ least <= sum.
Proof.
  unfold tied, push_back. intros H.
  apply Forall2_app_inv_l in H. destruct H as (sums0 & l & H0 & H1 & ->).
  inversion H1 as [|? sum ? l' Hp Hnil]; subst. inversion Hnil; subst.
  exists sums0, sum. tauto.
Qed.

Lemma tied_push_back least parts0 part sums0 sum :
  tied least parts0 sums0 ->
  Forall well_formed (ranges part) ->
  sum = total_marks (ranges part) -> least <= sum ->
  tied least (push_back parts0 part) (push_back sums0 sum).
Proof.
  unfold tied, push_back. intros H0 H1 H2 H3.
  apply Forall2_app; [exact H0|]. constructor; [tauto|constructor].
Qed.

Lemma tied_nonneg least parts sums :
  tied least parts sums -> Forall (fun x => 0 <= x) sums.
Proof.
  unfold tied. induction 1 as [|part sum parts sums (Hwf & -> & _) _ IH];
    constructor; [|exact IH].
  apply total_marks_nonneg. exact Hwf.
Qed.

Lemma sum_list_nonneg (v : list Z) : Forall (fun x => 0 <= x) v -> 0 <= sum_list v.
Proof. unfold sum_list. induction 1; cbn [fold_right]; lia. Qed.

Lemma marks_of_ranges_pair (part : DataPart) (v : MarkRanges) :
  marks_of_ranges (map (pair part) v) = map (pair part) (flat_map range_marks v).
Proof.
  unfold marks_of_ranges. induction v as [|a v IH]; [reflexivity|].
  cbn [map flat_map]. rewrite IH, map_app. reflexivity.
Qed.

Lemma stream_marks_part_stream (part : RangesInDataPart) (v : MarkRanges) :
  stream_marks
    (part_stream this column_names max_block_size use_uncompressed_cache
       prewhere_actions prewhere_column part v)
  = map (pair (data_part part)) (flat_map range_marks v).
Proof. unfold stream_marks. cbn [part_stream stream_ranges]. apply marks_of_ranges_pair. Qed.

Lemma streams_well_formed_push_back (streams : BlockInputStreams)
    (part : RangesInDataPart) (v : MarkRanges) :
  streams_well_formed streams -> Forall well_formed v ->
  streams_well_formed
    (push_back streams
       (part_stream this column_names max_block_size use_uncompressed_cache
          prewhere_actions prewhere_column part v)).
Proof.
  unfold streams_well_formed. intros Hs Hv.
  rewrite flat_map_push_back, map_app. apply Forall_app. split; [exact Hs|].
  cbn [part_stream stream_ranges]. rewrite map_map. cbn [snd]. rewrite map_id.
  exact Hv.
Qed.

Lemma part_marks_pair (part : RangesInDataPart) :
  part_marks part = map (pair (data_part part)) (flat_map range_marks (ranges part)).
Proof. unfold part_marks, part_ranges. apply marks_of_ranges_pair. Qed.

(** The quantities of [need_marks] after the two adjustments of
    [take_part]: not below the need before them, and within [size_t]. *)
Lemma adjusted_need (marks_in_part need_marks : Z) :
  is_size_t (min_marks_for_concurrent_read this) ->
  0 < need_marks < size_t_modulus ->
  0 <= marks_in_part < size_t_modulus ->
  let need1 :=
    if (marks_in_part >=? min_marks_for_concurrent_read this)
       && (need_marks <? min_marks_for_concurrent_read this)
    then min_marks_for_concurrent_read this else need_marks in
  let need2 :=
    if (marks_in_part >? need1)
       && (sub64 marks_in_part need1 <? min_marks_for_concurrent_read this)
    then marks_in_part else need1 in
  need_marks <= need2 < size_t_modulus.
Proof.
  unfold is_size_t. intros Hc Hn Hm. cbv zeta.
  set (c := min_marks_for_concurrent_read this) in *.
  assert (Hneed1 : need_marks
                   <= (if (marks_in_part >=? c) && (need_marks <? c) then c else need_marks)
                   < size_t_modulus).
  { destruct ((marks_in_part >=? c) && (need_marks <? c)) eqn:E1; [|lia].
    apply andb_true_iff in E1. destruct E1 as [_ E1]. apply Z.ltb_lt in E1. lia. }
  set (need1 := if (marks_in_part >=? c) && (need_marks <? c) then c else need_marks) in *.
  destruct ((marks_in_part >? need1) && (sub64 marks_in_part need1 <? c)) eqn:E2; [|lia].
  apply andb_true_iff in E2. destruct E2 as [E2 _]. apply Z.gtb_lt in E2. lia.
Qed.

(** One iteration of the loop over the parts returns: it takes a whole
    part, or the marks still needed from a larger part. *)
Lemma take_part_step (least min_marks_per_thread before : Z)
    (marks : list (DataPart * Z))
    (st : Z * RangesInDataParts * list Z * BlockInputStreams) :
  least <= 1 ->
  is_size_t (min_marks_for_concurrent_read this) ->
  before < size_t_modulus ->
  take_part_invariant least min_marks_per_thread before marks st ->
  (let '(need_marks, parts, _, _) := st in
   (need_marks >? 0) && negb (empty parts)) = true ->
  exists st',
    take_part this column_names max_block_size use_uncompressed_cache
      prewhere_actions prewhere_column st = Return st'
    /\ take_part_invariant least min_marks_per_thread before marks st'
    /\ ((let '(need_marks, parts, _, _) := st' in
          List.length parts + if need_marks >? 0 then 1 else 0)
         < (let '(need_marks, parts, _, _) := st in
            List.length parts + if need_marks >? 0 then 1 else 0))%nat.
Proof.
  destruct st as [[[need parts] sums] streams].
  intros Hleast Hc Hbefore (Htied & Hneed & Hsum & Hmin & Hswf & Hperm) Hcond.
  apply andb_true_iff in Hcond. destruct Hcond as [Hpos Hne].
  rewrite Hpos. apply Z.gtb_lt in Hpos.
  destruct (vector_cases parts) as [[-> _]|(parts0 & part & -> & Hb)]; [discriminate|].
  destruct (tied_push_back_inv _ _ _ _ Htied)
    as (sums0 & m & -> & Htied0 & Hwf & Hm & Hlo).
  pose proof (sum_list_nonneg _ (tied_nonneg _ _ _ Htied0)) as Hsums0.
  pose proof (total_marks_nonneg _ Hwf) as Hmpos.
  rewrite sum_list_push_back in Hsum, Hmin.
  rewrite flat_map_push_back, part_marks_pair in Hperm.
  unfold take_part. rewrite Hb, back_push_back.
  pose proof (adjusted_need m need Hc) as Hadj. cbv zeta in Hadj |- *.
  match goal with
  | |- context [if m <=? ?n then _ else _] => set (need2 := n) in *
  end.
  specialize (Hadj ltac:(lia) ltac:(lia)).
  destruct (Z.leb_spec m need2) as [Hwhole|Hpart].
  - (* the whole part *)
    rewrite !pop_back_push_back.
    rewrite sub64_small by (unfold is_size_t; lia).
    eexists. split; [reflexivity|]. split.
    + refine (conj Htied0 (conj _ (conj _ (conj _ (conj _ _))))); try lia.
      { apply streams_well_formed_push_back; [exact Hswf|].
        cbn [ranges]. apply Forall_rev. exact Hwf. }
      rewrite flat_map_push_back, stream_marks_part_stream. cbn [data_part ranges].
      apply perm_move. rewrite <- Hperm.
      apply Permutation_app_head, Permutation_app_head, Permutation_map.
      apply Permutation_flat_map, Permutation_sym, Permutation_rev.
    + rewrite length_push_back. destruct (need2 - m >? 0); lia.
  - (* a share of the part *)
    destruct (take_ranges_spec need2 (ranges part)) as
      (ranges' & got & Hrun & Hwf' & Htotal & Hgot & Hperm'); [exact Hwf|lia|lia|].
    rewrite Hm, Hrun. cbn [bind]. rewrite !set_back_push_back.
    eexists. split; [reflexivity|]. split.
    + refine (conj _ (conj _ (conj _ (conj _ (conj _ _))))).
      * apply tied_push_back; [exact Htied0|exact Hwf'|cbn [ranges]; lia|lia].
      * rewrite size_t_modulus_eq. lia.
      * rewrite sum_list_push_back. lia.
      * rewrite sum_list_push_back. lia.
      * apply streams_well_formed_push_back; [exact Hswf|exact Hgot].
      * rewrite !flat_map_push_back, stream_marks_part_stream, part_marks_pair.
        cbn [data_part ranges]. rewrite <- Hperm, <- Hperm', map_app.
        rewrite <- !app_assoc. apply Permutation_app_head.
        rewrite !app_assoc. apply Permutation_app_tail. apply Permutation_app_comm.
    + rewrite !length_push_back. cbn. lia.
Qed.
End TakePart.

(** ** The spreader: the loop over the threads *)

Section FillThread.
Context `{CO : Collaborators}.
Variable this : MergeTreeDataSelectExecutor.
Variables (column_names : Names) (max_block_size : Z)
  (use_uncompressed_cache : bool)
  (prewhere_actions : option ExpressionActions) (prewhere_column : string).

Lemma marks_of_ranges_app (v w : list (DataPart * MarkRange)) :
  marks_of_ranges (v ++ w) = marks_of_ranges v ++ marks_of_ranges w.
Proof. unfold marks_of_ranges. apply flat_map_app. Qed.

Lemma stream_marks_concat (streams : BlockInputStreams) :
  stream_marks (ConcatBlockInputStream streams) = flat_map stream_marks streams.
Proof.
  unfold stream_marks. cbn [stream_ranges].
  induction streams as [|s streams IH]; [reflexivity|].
  cbn [flat_map]. rewrite marks_of_ranges_app, IH. reflexivity.
Qed.

(** The stream of a thread reads what the streams of its parts read. *)
Lemma thread_stream_spec (res streams : BlockInputStreams) :
  let res' :=
    match streams with
    | [stream] => push_back res stream
    | _ => push_back res (ConcatBlockInputStream streams)
    end in
  flat_map stream_marks res' = flat_map stream_marks res ++ flat_map stream_marks streams
  /\ flat_map stream_ranges res'
     = flat_map stream_ranges res ++ flat_map stream_ranges streams.
Proof.
  cbv zeta. destruct streams as [|s [|s' streams]];
    rewrite !flat_map_push_back; try rewrite stream_marks_concat; cbn [stream_ranges];
    cbn [flat_map]; rewrite ?app_nil_r; split; reflexivity.
Qed.

(** One iteration of the loop over the threads returns, having taken
    [min_marks_per_thread] marks or more unless the parts ran out. *)
Lemma fill_thread_step (least threads min_marks_per_thread total : Z)
    (marks : list (DataPart * Z))
    (st : Z * RangesInDataParts * list Z * BlockInputStreams) :
  least <= 1 ->
  is_size_t (min_marks_for_concurrent_read this) ->
  total < size_t_modulus ->
  threads < size_t_modulus ->
  0 < min_marks_per_thread < size_t_modulus ->
  fill_thread_invariant least threads min_marks_per_thread total marks st ->
  (let '(i, parts, _, _) := st in (i <? threads) && negb (empty parts)) = true ->
  exists st',
    fill_thread this column_names max_block_size use_uncompressed_cache
      prewhere_actions prewhere_column min_marks_per_thread st = Return st'
    /\ fill_thread_invariant least threads min_marks_per_thread total marks st'
    /\ (Z.to_nat (threads - fst (fst (fst st')))
        < Z.to_nat (threads - fst (fst (fst st))))%nat.
Proof.
  destruct st as [[[i parts] sums] res].
  intros Hleast Hc Htotal Hthreads Hmin (Htied & Hi & Hsum & Hacc & Hswf & Hperm) Hcond.
  apply andb_true_iff in Hcond. destruct Hcond as [Hlt Hne]. apply Z.ltb_lt in Hlt.
  unfold fill_thread.
  match goal with
  | |- context [while_ ?f ?c ?b ?st0] =>
      assert (HW : exists st',
                while_ f c b st0 = Return st'
                /\ take_part_invariant least min_marks_per_thread (sum_list sums)
                     (flat_map part_marks parts) st'
                /\ c st' = false);
        [apply while_variant
           with (variant := fun '(need, parts1, _, _) =>
                   (List.length parts1 + if need >? 0 then 1 else 0)%nat)
        |destruct HW as ([[[need' parts'] sums'] streams'] & -> & Hinv & Hexit)]
  end.
  - intros [[[need1 parts1] sums1] streams1] Hst1 Hc1.
    assert (Hsums : sum_list sums < size_t_modulus) by lia.
    destruct (take_part_step this column_names max_block_size use_uncompressed_cache
                prewhere_actions prewhere_column least min_marks_per_thread
                (sum_list sums) (flat_map part_marks parts)
                (need1, parts1, sums1, streams1) Hleast Hc Hsums Hst1 Hc1)
      as ([[[need2 parts2] sums2] streams2] & Hrun & Hinv2 & Hvar).
    eexists. split; [exact Hrun|]. split; [exact Hinv2|exact Hvar].
  - refine (conj Htied (conj _ (conj _ (conj _ (conj _ _))))); try lia.
    + constructor.
    + apply Permutation_refl.
  - destruct (min_marks_per_thread >? 0); lia.
  - cbn [bind]. destruct Hinv as (Htied' & Hneed' & Hsum' & Hmin' & Hswf' & Hperm').
    destruct (thread_stream_spec res streams') as [Hmarks Hranges].
    cbv zeta in Hmarks, Hranges.
    rewrite add64_small by (unfold is_size_t; lia).
    eexists. split; [reflexivity|]. split; [|cbn [fst]; lia].
    refine (conj Htied' (conj _ (conj _ (conj _ (conj _ _))))); try lia.
    + destruct parts' as [|part' parts'']; [left; reflexivity|right].
      rewrite andb_true_r, Z.gtb_ltb, Z.ltb_ge in Hexit.
      destruct Hacc as [->|Hacc]; [discriminate|].
      assert (need' = 0) by lia. lia.
    + unfold streams_well_formed in *. rewrite Hranges, map_app.
      apply Forall_app. split; assumption.
    + rewrite Hmarks, <- Hperm, <- app_assoc. apply Permutation_app_head.
      exact Hperm'.
Qed.
End FillThread.

(** ** The spreader as a whole *)

Section Spreader.
Context `{CO : Collaborators}.
Variable this : MergeTreeDataSelectExecutor.
Variable random_shuffle : RangesInDataParts -> RangesInDataParts.

Lemma sum_list_permutation (v w : list Z) :
  Permutation v w -> sum_list v = sum_list w.
Proof. unfold sum_list. induction 1; cbn [fold_right]; lia. Qed.

Lemma parts_marks_permutation (v w : RangesInDataParts) :
  Permutation v w -> parts_marks v = parts_marks w.
Proof.
  intros H. unfold parts_marks. apply sum_list_permutation, Permutation_map, H.
Qed.

Lemma parts_marks_nonneg (v : RangesInDataParts) :
  Forall (fun part => Forall well_formed (ranges part)) v -> 0 <= parts_marks v.
Proof.
  unfold parts_marks, sum_list. induction 1 as [|a v Ha _ IH]; cbn [map fold_right];
    [lia|].
  pose proof (total_marks_nonneg _ Ha). lia.
Qed.

(** The marks of a list of ranges are as many as [total_marks] says. *)
Lemma marks_of_ranges_length (v : list (DataPart * MarkRange)) :
  Forall well_formed (map snd v) ->
  List.length (marks_of_ranges v) = Z.to_nat (total_marks (map snd v)).
Proof.
  unfold marks_of_ranges, total_marks.
  induction v as [|[part range] v IH]; cbn [map flat_map fold_right snd];
    [reflexivity|].
  intros H. inversion H as [|? ? Hrange Hv]; subst.
  rewrite length_app, length_map, range_marks_length, (IH Hv).
  pose proof (total_marks_nonneg _ Hv) as Hpos. unfold total_marks in Hpos.
  unfold well_formed, marks_in in *. lia.
Qed.

Lemma flat_map_stream_marks (res : BlockInputStreams) :
  flat_map stream_marks res = marks_of_ranges (flat_map stream_ranges res).
Proof.
  induction res as [|s res IH]; [reflexivity|].
  cbn [flat_map]. rewrite marks_of_ranges_app, IH. reflexivity.
Qed.

Lemma flat_map_part_marks (parts : RangesInDataParts) :
  flat_map part_marks parts = marks_of_ranges (flat_map part_ranges parts).
Proof.
  induction parts as [|p parts IH]; [reflexivity|].
  cbn [flat_map]. rewrite marks_of_ranges_app, IH. reflexivity.
Qed.

Lemma part_ranges_total (parts : RangesInDataParts) :
  total_marks (map snd (flat_map part_ranges parts)) = parts_marks parts.
Proof.
  unfold parts_marks, sum_list. induction parts as [|p parts IH]; [reflexivity|].
  cbn [flat_map map fold_right]. rewrite map_app, total_marks_app, IH.
  unfold part_ranges. rewrite map_map. cbn [snd]. rewrite map_id. reflexivity.
Qed.

Lemma part_ranges_well_formed (parts : RangesInDataParts) :
  Forall (fun part => Forall well_formed (ranges part)) parts ->
  Forall well_formed (map snd (flat_map part_ranges parts)).
Proof.
  induction 1 as [|p parts Hp _ IH]; [constructor|].
  cbn [flat_map]. rewrite map_app. apply Forall_app. split; [|exact IH].
  unfold part_ranges. rewrite map_map. cbn [snd]. rewrite map_id. exact Hp.
Qed.

(** The marks of the parts, listed, are as many as [parts_marks] says. *)
Lemma parts_marks_length (parts : RangesInDataParts) :
  Forall (fun part => Forall well_formed (ranges part)) parts ->
  List.length (flat_map part_marks parts) = Z.to_nat (parts_marks parts).
Proof.
  intros H. rewrite flat_map_part_marks, marks_of_ranges_length, part_ranges_total;
    [reflexivity|apply part_ranges_well_formed, H].
Qed.


Let reversed (part : RangesInDataPart) : RangesInDataPart :=
  {| data_part := data_part part; ranges := rev (ranges part) |}.

(** The state the spreader starts from: every part with its ranges
    reversed, beside its number of marks. *)
Lemma tied_initial (least : Z) (parts : RangesInDataParts) :
  Forall (fun part => Forall well_formed (ranges part)) parts ->
  Forall (fun part => least <= total_marks (ranges part)) parts ->
  parts_marks parts < size_t_modulus ->
  tied least (map reversed parts)
    (map (fun part => sum_marks_in_ranges (ranges part)) (map reversed parts))
  /\ sum_list (map (fun part => sum_marks_in_ranges (ranges part)) (map reversed parts))
     = parts_marks parts
  /\ Permutation (flat_map part_marks (map reversed parts)) (flat_map part_marks parts).
Proof.
  unfold tied, parts_marks, sum_list.
  induction 1 as [|p parts Hp Hparts IH]; intros Hleast Hfit; cbn [map fold_right] in *.
  - split; [constructor|split; [reflexivity|constructor]].
  - inversion Hleast as [|? ? Hlp Hlparts]; subst.
    pose proof (parts_marks_nonneg _ Hparts) as Hpos.
    unfold parts_marks, sum_list in Hpos.
    pose proof (total_marks_nonneg _ Hp) as Hppos.
    destruct (IH Hlparts) as (IH1 & IH2 & IH3); [lia|].
    assert (Hsum : sum_marks_in_ranges (rev (ranges p)) = total_marks (ranges p)).
    { rewrite sum_marks_in_ranges_exact, total_marks_rev;
        [reflexivity|apply Forall_rev, Hp|rewrite total_marks_rev; lia]. }
    unfold reversed at 1 3 5. cbn [ranges]. rewrite Hsum. split; [|split].
    + constructor; [|exact IH1]. unfold reversed. cbn [ranges].
      split; [apply Forall_rev, Hp|]. rewrite total_marks_rev. lia.
    + rewrite IH2. reflexivity.
    + cbn [flat_map]. apply Permutation_app; [|exact IH3].
      rewrite !part_marks_pair. cbn [data_part ranges].
      apply Permutation_map, Permutation_flat_map, Permutation_sym, Permutation_rev.
Qed.

Lemma tied_sum_least (least : Z) (parts : RangesInDataParts) (sums : list Z) :
  tied least parts sums -> parts <> [] -> least <= sum_list sums.
Proof.
  intros H Hne. pose proof (tied_nonneg _ _ _ H) as Hpos.
  destruct H as [|part sum parts sums (_ & _ & Hl) H]; [contradiction|].
  inversion Hpos as [|? ? _ Hpos']; subst.
  pose proof (sum_list_nonneg _ Hpos'). unfold sum_list in *. cbn [fold_right]. lia.
Qed.

(** [threads] shares of [(total - 1) / threads + 1] marks hold [total]. *)
Lemma shares_suffice (total threads : Z) :
  0 < total -> 0 < threads ->
  0 < (total - 1) / threads + 1 <= total
  /\ total <= threads * ((total - 1) / threads + 1).
Proof.
  intros Ht Hth.
  pose proof (Z.div_pos (total - 1) threads ltac:(lia) ltac:(lia)).
  assert ((total - 1) / threads <= total - 1)
    by (apply Z.div_le_upper_bound; nia).
  pose proof (Z.mul_succ_div_gt (total - 1) threads ltac:(lia)). lia.
Qed.

(** The outcome of the spreader on well-formed parts: streams that read
    every selected mark of every part once, or the error of the parts left
    over, which takes a part without marks. *)
Lemma spreadMarkRangesAmongThreads_spec (least : Z) (parts : RangesInDataParts)
    (threads : Z) (column_names : Names) (max_block_size : Z)
    (use_uncompressed_cache : bool)
    (prewhere_actions : option ExpressionActions) (prewhere_column : string) :
  least <= 1 ->
  is_size_t (min_marks_for_concurrent_read this) ->
  spreadable parts ->
  Forall (fun part => least <= total_marks (ranges part)) parts ->
  0 < threads < size_t_modulus ->
  Permutation (random_shuffle parts) parts ->
  (exists res,
     spreadMarkRangesAmongThreads this random_shuffle parts threads column_names
       max_block_size use_uncompressed_cache prewhere_actions prewhere_column
     = Return res
     /\ streams_well_formed res
     /\ Permutation (flat_map stream_marks res) (flat_map part_marks parts))
  \/ (least <= 0
      /\ spreadMarkRangesAmongThreads this random_shuffle parts threads column_names
           max_block_size use_uncompressed_cache prewhere_actions prewhere_column
         = Exception "Couldn't spread marks among threads" LOGICAL_ERROR).
Proof.
  intros Hleast Hc [Hwf Hfit] Hlo Hthreads Hshuffle.
  assert (Hwf' : Forall (fun part => Forall well_formed (ranges part))
                   (random_shuffle parts))
    by (eapply Permutation_Forall; [apply Permutation_sym, Hshuffle|exact Hwf]).
  assert (Hlo' : Forall (fun part => least <= total_marks (ranges part))
                   (random_shuffle parts))
    by (eapply Permutation_Forall; [apply Permutation_sym, Hshuffle|exact Hlo]).
  rewrite <- (parts_marks_permutation _ _ Hshuffle) in Hfit.
  destruct (tied_initial least _ Hwf' Hlo' Hfit) as (Htied & Hsum & Hperm).
  assert (Hmarks : Permutation
                     (flat_map part_marks (map reversed (random_shuffle parts)))
                     (flat_map part_marks parts)).
  { rewrite Hperm. apply Permutation_flat_map, Hshuffle. }
  pose proof (parts_marks_nonneg _ Hwf') as Hpos.
  unfold spreadMarkRangesAmongThreads. fold reversed.
  set (parts1 := map reversed (random_shuffle parts)) in *.
  set (sums1 := map (fun part => sum_marks_in_ranges (ranges part)) parts1) in *.
  rewrite (fold_add64_exact sums1 0) by
    (try apply (tied_nonneg _ _ _ Htied); lia).
  rewrite Z.add_0_l, Hsum.
  set (total := parts_marks (random_shuffle parts)) in *.
  destruct (Z.gtb_spec total 0) as [Htotal|Hzero].
  - (* there are marks to spread *)
    destruct (Z.eqb_spec threads 0) as [|_]; [lia|].
    destruct (shares_suffice total threads) as [Hshare Hall]; [lia|lia|].
    rewrite (sub64_small total) by (unfold is_size_t; lia).
    rewrite add64_small by (unfold is_size_t; lia).
    set (share := (total - 1) / threads + 1) in *.
    match goal with
    | |- context [while_ ?f ?c ?b ?st0] =>
        assert (HW : exists st',
                  while_ f c b st0 = Return st'
                  /\ fill_thread_invariant least threads share total
                       (flat_map part_marks parts) st'
                  /\ c st' = false);
          [apply while_variant
             with (variant := fun st => Z.to_nat (threads - fst (fst (fst st))))
          |destruct HW as ([[[i' parts'] sums'] res'] & -> & Hinv & Hexit)]
    end.
    + intros [[[i1 parts2] sums2] res2] Hst Hcond.
      apply (fill_thread_step this column_names max_block_size _ prewhere_actions
               prewhere_column least threads share total (flat_map part_marks parts)
               (i1, parts2, sums2, res2)); try assumption; lia.
    + refine (conj Htied (conj _ (conj _ (conj _ (conj _ _))))); try lia.
      * apply Forall_nil.
      * exact Hmarks.
    + cbn [fst]. lia.
    + cbn [bind].
      destruct Hinv as (Htied' & Hi' & Hsum' & Hacc & Hswf & Hperm').
      destruct parts' as [|part' parts'']; cbn [empty negb].
      * left. exists res'. split; [reflexivity|]. split; [exact Hswf|].
        cbn [flat_map] in Hperm'. rewrite app_nil_r in Hperm'. exact Hperm'.
      * right. split; [|reflexivity].
        cbn [empty negb] in Hexit. rewrite andb_true_r, Z.ltb_ge in Hexit.
        destruct Hacc as [Hnil|Hacc]; [discriminate|].
        pose proof (tied_sum_least _ _ _ Htied' ltac:(discriminate)). nia.
  - (* nothing to spread *)
    left. exists []. split; [reflexivity|]. split; [apply Forall_nil|].
    assert (Hlen : List.length (flat_map part_marks parts) = 0%nat).
    { rewrite <- (Permutation_length Hmarks), (Permutation_length Hperm).
      rewrite parts_marks_length by exact Hwf'. fold total. lia. }
    destruct (flat_map part_marks parts); [constructor|discriminate].
Qed.
End Spreader.

(** ** The claims on the spreaders and on [read], and the examples *)

Ltac size_t_holds := unfold is_size_t; rewrite size_t_modulus_eq; cbn; lia.

Import Example.

(** An unrestricted key on a part of three marks: one range of three marks. *)
Lemma markRangesFromPkRange_alwaysTrue_witness :
  getSortDescription (data (executor 0 20 "UInt32" [])) <> []
  /\ alwaysTrue no_condition = true
  /\ markRangesFromPkRange (executor 0 20 "UInt32" []) 0 (index (part_of "a" 3)) no_condition
     = Return [{| begin := 0; end_ := 3 |}].
Proof.
  assert (H1 : getSortDescription (data (executor 0 20 "UInt32" [])) <> [])
    by discriminate.
  assert (H2 : alwaysTrue no_condition = true) by reflexivity.
  split; [exact H1|]. split; [exact H2|].
  exact (proj1 (markRangesFromPkRange_alwaysTrue (executor 0 20 "UInt32" [])
                  (index (part_of "a" 3)) no_condition H1 H2) 0%nat).
Defined.

(** Hits in marks 5 and 7 of ten with a seek threshold of two marks: the
    hits are joined into the range [5, 8). *)
Lemma markRangesFromPkRange_separated_witness :
  is_size_t (min_marks_for_seek (executor 2 20 "UInt32" []))
  /\ is_size_t (coarse_index_granularity (settings (data (executor 2 20 "UInt32" []))))
  /\ is_size_t (size (index (part_of "a" 10)))
  /\ markRangesFromPkRange (executor 2 20 "UInt32" []) 20 (index (part_of "a" 10))
       (key_in [(55, 55); (75, 75)])
     = Return [{| begin := 5; end_ := 8 |}]
  /\ separated 2 [{| begin := 5; end_ := 8 |}].
Proof.
  assert (H1 : is_size_t (min_marks_for_seek (executor 2 20 "UInt32" [])))
    by size_t_holds.
  assert (H2 : is_size_t (coarse_index_granularity
                            (settings (data (executor 2 20 "UInt32" [])))))
    by size_t_holds.
  assert (H3 : is_size_t (size (index (part_of "a" 10)))) by size_t_holds.
  assert (H4 : markRangesFromPkRange (executor 2 20 "UInt32" []) 20
                 (index (part_of "a" 10)) (key_in [(55, 55); (75, 75)])
               = Return [{| begin := 5; end_ := 8 |}]) by (vm_compute; reflexivity).
  repeat (split; [assumption|]).
  exact (proj1 (proj2 (proj1 (markRangesFromPkRange_separated
                         (executor 2 20 "UInt32" []) (index (part_of "a" 10))
                         (key_in [(55, 55); (75, 75)]) H1 H2 H3) _ _ H4))).
Defined.

(** The examples of the specification: with no seek threshold the two hits
    stay apart, and a key found in mark 17 of 256 selects that mark alone. *)
Example two_hits_without_seek_threshold :
  markRangesFromPkRange (executor 0 20 "UInt32" []) 20 (index (part_of "a" 10))
    (key_in [(55, 55); (75, 75)])
  = Return [{| begin := 5; end_ := 6 |}; {| begin := 7; end_ := 8 |}].
Proof. vm_compute. reflexivity. Qed.

Example key_in_mark_17 :
  markRangesFromPkRange (executor 0 20 "UInt32" []) 512 (index (part_of "a" 256))
    (key_in [(175, 175)])
  = Return [{| begin := 17; end_ := 18 |}].
Proof. vm_compute. reflexivity. Qed.



(** *** The normal spreader *)

Section SpreaderClaims.
Context `{CO : Collaborators}.
Variable this : MergeTreeDataSelectExecutor.


End SpreaderClaims.



(** *** The spreader of FINAL queries *)

(** C5: without parts the FINAL spreader returns no stream; with one part it
    returns the stream of the part (the reader under the primary-key
    expression) under the expression and the filter of [sign = 1], and no
    collapsing stream; with two parts or more it returns one collapsing
    stream over the streams of all the parts, with the sort description and
    the sign column of the table. *)
Theorem spreadMarkRangesAmongThreadsFinal_shape `{CO : Collaborators}
    (this : MergeTreeDataSelectExecutor) (threads : Z) (column_names : Names)
    (max_block_size : Z) (use_uncompressed_cache : bool)
    (prewhere_actions : option ExpressionActions) (prewhere_column : string) :
  let final_spreader parts :=
    spreadMarkRangesAmongThreadsFinal this parts threads column_names max_block_size
      use_uncompressed_cache prewhere_actions prewhere_column in
  let stream_of cache part :=
    ExpressionBlockInputStream
      (MergeTreeBlockInputStream
         (getFullPath (data this) ++ name (data_part part) ++ "/")%string
         max_block_size column_names (data_part part) (ranges part) cache
         prewhere_actions prewhere_column)
      (getPrimaryExpression (data this)) in
  let sign_is_one :=
    ASTFunction "equals"
      (ASTExpressionList
         [ASTIdentifier (sign_column (data this)) Column;
          ASTLiteral (Int64 1) (Some "Int8"%string)]) in
  final_spreader [] = []
  /\ (forall part, exists cache,
        final_spreader [part]
        = [FilterBlockInputStream
             (ExpressionBlockInputStream (stream_of cache part) (getActions sign_is_one))
             (getColumnName sign_is_one)])
  /\ (forall part1 part2 parts, exists cache,
        final_spreader (part1 :: part2 :: parts)
        = [CollapsingFinalBlockInputStream
             (map (stream_of cache) (part1 :: part2 :: parts))
             (getSortDescription (data this)) (sign_column (data this))]).
Proof.
  cbv zeta. split; [reflexivity|]. split.
  - intros part. eexists. reflexivity.
  - intros part1 part2 parts. eexists. reflexivity.
Qed.

(** *** The planner *)

Section Planner.
Context `{CO : Collaborators}.
Variable this : MergeTreeDataSelectExecutor.

(** What a run of [read] that returns went through. *)
Lemma read_returns (random_shuffle : RangesInDataParts -> RangesInDataParts)
    (fuel : nat) (column_names : Names) (query : ASTSelectQuery)
    (use_uncompressed_cache : bool) (max_block_size threads : Z)
    (stage : QueryProcessingStage) (res : BlockInputStreams) :
  read this random_shuffle fuel column_names query use_uncompressed_cache
    max_block_size threads = Return (stage, res) ->
  exists sampled parts_with_ranges res0,
    check (data this) column_names = Return tt
    /\ stage = FetchColumns
    /\ sampling this fuel query (parts_by_date this query) (key_condition_of this query)
         column_names = Return sampled
    /\ select_ranges this fuel (parts_by_date this query) (sampled_key_condition sampled)
       = Return parts_with_ranges
    /\ spreads this random_shuffle query (sampled_column_names sampled)
         parts_with_ranges threads max_block_size use_uncompressed_cache res0
    /\ res = match filter_function sampled, filter_expression sampled with
             | Some function, Some expression =>
                 map (sampled_stream function expression) res0
             | _, _ => res0
             end.
Proof.
  unfold read, spreads. fold (parts_by_date this query) (key_condition_of this query).
  destruct (check (data this) column_names) as [[]| | | |] eqn:Echeck;
    cbn [bind]; try discriminate.
  destruct (sampling this fuel query _ _ column_names) as [sampled| | | |] eqn:Es;
    cbn [bind]; try discriminate.
  destruct (select_ranges this fuel _ _) as [parts_with_ranges| | | |] eqn:Er;
    cbn [bind]; try discriminate.
  destruct (final query) eqn:Efinal; cbn [bind].
  - intros [= <- <-]. exists sampled, parts_with_ranges. eexists.
    repeat (split; [first [assumption|reflexivity]|]). reflexivity.
  - destruct (spreadMarkRangesAmongThreads _ _ _ _ _ _ _ _ _) as [res0| | | |] eqn:Esp;
      cbn [bind]; try discriminate.
    intros [= <- <-]. exists sampled, parts_with_ranges, res0.
    repeat (split; [first [assumption|reflexivity]|]). reflexivity.
Qed.

Lemma sampled_streams_ranges (function : AST) (expression : ExpressionActions)
    (res : BlockInputStreams) :
  flat_map stream_ranges (map (sampled_stream function expression) res)
  = flat_map stream_ranges res.
Proof.
  induction res as [|s res IH]; [reflexivity|]. cbn [map flat_map]. rewrite IH.
  reflexivity.
Qed.

(** Ranges in order within [marks_count] marks have at most that many. *)
Lemma total_marks_within (marks_count : Z) (v : MarkRanges) (lo : Z) :
  Forall (fun range => begin range <= end_ range /\ end_ range <= marks_count) v ->
  chain (fun a b => end_ a <= begin b) v ->
  (forall range, hd_error v = Some range -> lo <= begin range) ->
  lo <= marks_count ->
  total_marks v <= marks_count - lo.
Proof.
  unfold total_marks. revert lo.
  induction v as [|a v IH]; intros lo Hall Hchain Hhd Hlo; cbn [fold_right]; [lia|].
  inversion Hall as [|? ? Ha Hv]; subst.
  specialize (Hhd a eq_refl).
  assert (Hrest : fold_right (fun range sum => marks_in range + sum) 0 v
                  <= marks_count - end_ a).
  { apply IH; [exact Hv| | |lia].
    - destruct v; [exact I|apply Hchain].
    - intros b Hb. destruct v as [|b' v]; [discriminate|].
      injection Hb as ->. apply Hchain. }
  unfold marks_in at 1. lia.
Qed.

Lemma chain_weaken {A : Type} (R R' : A -> A -> Prop) (v : list A) :
  (forall a b, R a b -> R' a b) -> chain R v -> chain R' v.
Proof.
  intros HR. induction v as [|a v IH]; [exact id|].
  destruct v as [|b v]; [exact id|]. intros [Hab Hchain].
  split; [apply HR, Hab|apply IH, Hchain].
Qed.

(** The ranges the pruner returns for a part are well-formed and hold no
    more marks than the index has fields. *)
Lemma pruned_ranges_fit (fuel : nat) (index_ : Index) (key_condition : PKCondition)
    (res : MarkRanges) :
  is_size_t (min_marks_for_seek this) ->
  is_size_t (coarse_index_granularity (settings (data this))) ->
  is_size_t (size index_) ->
  markRangesFromPkRange this fuel index_ key_condition = Return res ->
  Forall well_formed res /\ total_marks res <= size index_.
Proof.
  intros Hseek Hg Hindex Hres.
  assert (Hkey : size (getSortDescription (data this)) <> 0).
  { unfold markRangesFromPkRange in Hres.
    destruct (size (getSortDescription (data this)) =? 0) eqn:E; [discriminate|].
    apply Z.eqb_neq, E. }
  assert (HM : 0 <= marks_count_of this index_ <= size index_).
  { unfold marks_count_of.
    assert (0 <= size (getSortDescription (data this))) by (unfold size; lia).
    assert (0 <= size index_) by (unfold size; lia). split.
    - apply Z.div_pos; lia.
    - apply Z.div_le_upper_bound; nia. }
  destruct (markRangesFromPkRange_sound this index_ key_condition Hg Hindex
              (fun _ => False) fuel res) as (Hall & Hsep & _); [|exact Hres|].
  { intros range _ (m & _ & []). }
  unfold is_size_t in *. split.
  - eapply Forall_impl; [|exact Hall]. cbn beta. unfold well_formed. intros r Hr. lia.
  - pose proof (total_marks_within (marks_count_of this index_) res 0) as Hin.
    rewrite Z.sub_0_r in Hin. etransitivity; [apply Hin|apply HM]; try lia.
    + eapply Forall_impl; [|exact Hall]. cbn beta. intros r Hr. lia.
    + eapply chain_weaken; [|exact Hsep]. cbn beta. intros a b Hab. lia.
    + intros range Hhd. rewrite Forall_forall in Hall.
      destruct res as [|r res]; [discriminate|]. injection Hhd as ->.
      apply Hall. left. reflexivity.
Qed.

(** The parts [read] hands to a spreader are well-formed and hold no more
    marks than their indexes have fields. *)
Lemma select_ranges_fit (fuel : nat) (key_condition : PKCondition)
    (parts : list DataPart) (acc parts_with_ranges : RangesInDataParts) :
  is_size_t (min_marks_for_seek this) ->
  is_size_t (coarse_index_granularity (settings (data this))) ->
  Forall (fun part => is_size_t (size (index part))) parts ->
  for_each parts
    (fun parts_with_ranges part =>
       ranges_ <- markRangesFromPkRange this fuel (index part) key_condition ;;
       if negb (empty ranges_)
       then Return (push_back parts_with_ranges
                      {| data_part := part; ranges := ranges_ |})
       else Return parts_with_ranges)
    acc = Return parts_with_ranges ->
  exists new,
    parts_with_ranges = acc ++ new
    /\ Forall (fun part => Forall well_formed (ranges part)) new
    /\ parts_marks new <= sum_list (map (fun part => size (index part)) parts).
Proof.
  intros Hseek Hg. revert acc.
  induction parts as [|part parts IH]; intros acc Hfit; cbn [for_each].
  - intros [= <-]. exists []. rewrite app_nil_r.
    split; [reflexivity|]. split; [constructor|]. cbn. lia.
  - inversion Hfit as [|? ? Hpart Hparts]; subst.
    destruct (markRangesFromPkRange this fuel (index part) key_condition)
      as [ranges_| | | |] eqn:Eranges; cbn [bind]; try discriminate.
    destruct (pruned_ranges_fit _ _ _ _ Hseek Hg Hpart Eranges) as [Hwf Htotal].
    assert (Hsize : 0 <= size (index part)) by (unfold size; lia).
    unfold sum_list. cbn [map fold_right]. fold (sum_list (map (fun part => size (index part)) parts)).
    destruct (negb (empty ranges_)); cbn [bind]; intros Hrest;
      destruct (IH _ Hparts Hrest) as (new & -> & Hnew & Hsum).
    + exists ({| data_part := part; ranges := ranges_ |} :: new).
      unfold push_back. rewrite <- app_assoc. split; [reflexivity|].
      split; [constructor; [exact Hwf|exact Hnew]|].
      unfold parts_marks, sum_list in *. cbn [map fold_right ranges]. lia.
    + exists new. split; [reflexivity|]. split; [exact Hnew|]. lia.
Qed.

Lemma sum_list_filter_le {A : Type} (f : A -> Z) (keep : A -> bool) (v : list A) :
  (forall x, 0 <= f x) ->
  sum_list (map f (filter keep v)) <= sum_list (map f v).
Proof.
  intros Hf. unfold sum_list. induction v as [|a v IH]; cbn [filter map fold_right]; [lia|].
  specialize (Hf a). destruct (keep a); cbn [map fold_right]; lia.
Qed.

Lemma sum_list_bounds_elements {A : Type} (f : A -> Z) (v : list A) (bound : Z) :
  (forall x, 0 <= f x) -> sum_list (map f v) < bound ->
  Forall (fun x => 0 <= f x < bound) v.
Proof.
  intros Hf. unfold sum_list.
  induction v as [|a v IH]; cbn [map fold_right]; intros Hsum; constructor.
  - assert (0 <= fold_right Z.add 0 (map f v)).
    { clear -Hf. induction v; cbn [map fold_right]; [lia|]. specialize (Hf a). lia. }
    specialize (Hf a). lia.
  - apply IH. specialize (Hf a). lia.
Qed.

(** What the spreader returns for a query: between two shuffles the
    streams read the same marks. *)
Lemma spread_any_shuffle (shuffle1 shuffle2 : RangesInDataParts -> RangesInDataParts)
    (parts : RangesInDataParts) (threads : Z) (column_names : Names)
    (max_block_size : Z) (use_uncompressed_cache : bool)
    (prewhere_actions : option ExpressionActions) (prewhere_column : string)
    (res1 res2 : BlockInputStreams) :
  is_size_t (min_marks_for_concurrent_read this) ->
  spreadable parts ->
  0 < threads < size_t_modulus ->
  Permutation (shuffle1 parts) parts ->
  Permutation (shuffle2 parts) parts ->
  spreadMarkRangesAmongThreads this shuffle1 parts threads column_names
    max_block_size use_uncompressed_cache prewhere_actions prewhere_column
  = Return res1 ->
  spreadMarkRangesAmongThreads this shuffle2 parts threads column_names
    max_block_size use_uncompressed_cache prewhere_actions prewhere_column
  = Return res2 ->
  Permutation (flat_map stream_marks res1) (flat_map stream_marks res2).
Proof.
  intros Hc Hparts Hthreads Hs1 Hs2 Hrun1 Hrun2.
  assert (Hleast : Forall (fun part => 0 <= total_marks (ranges part)) parts).
  { eapply Forall_impl; [|apply Hparts]. cbn beta. intros part.
    apply total_marks_nonneg. }
  destruct (spreadMarkRangesAmongThreads_spec this shuffle1 0 parts threads
              column_names max_block_size use_uncompressed_cache prewhere_actions
              prewhere_column ltac:(lia) Hc Hparts Hleast Hthreads Hs1)
    as [(r1 & Hr1 & _ & Hp1)|[_ Hr1]]; rewrite Hr1 in Hrun1; [|discriminate].
  destruct (spreadMarkRangesAmongThreads_spec this shuffle2 0 parts threads
              column_names max_block_size use_uncompressed_cache prewhere_actions
              prewhere_column ltac:(lia) Hc Hparts Hleast Hthreads Hs2)
    as [(r2 & Hr2 & _ & Hp2)|[_ Hr2]]; rewrite Hr2 in Hrun2; [|discriminate].
  injection Hrun1 as ->. injection Hrun2 as ->.
  rewrite Hp1, Hp2. apply Permutation_refl.
Qed.
End Planner.

(** C10, as the code has it: two runs of the planner on the same snapshot
    and the same query that return, whatever the shuffles of the two runs,
    read the same marks of the same parts, each selected mark once in either
    run; for a FINAL query the streams themselves are the same. (Where a part
    is cut between threads depends on the order of the shuffle, and with it
    the ranges.) *)
Theorem read_marks_independent_of_shuffle `{CO : Collaborators}
    (this : MergeTreeDataSelectExecutor)
    (shuffle1 shuffle2 : RangesInDataParts -> RangesInDataParts)
    (fuel : nat) (column_names : Names) (query : ASTSelectQuery)
    (use_uncompressed_cache : bool) (max_block_size threads : Z)
    (stage1 stage2 : QueryProcessingStage) (res1 res2 : BlockInputStreams) :
  is_size_t (min_marks_for_seek this) ->
  is_size_t (min_marks_for_concurrent_read this) ->
  is_size_t (coarse_index_granularity (settings (data this))) ->
  sum_list (map (fun part => size (index part)) (getDataParts (data this)))
  < size_t_modulus ->
  0 < threads < size_t_modulus ->
  (forall parts, Permutation (shuffle1 parts) parts) ->
  (forall parts, Permutation (shuffle2 parts) parts) ->
  read this shuffle1 fuel column_names query use_uncompressed_cache max_block_size
    threads = Return (stage1, res1) ->
  read this shuffle2 fuel column_names query use_uncompressed_cache max_block_size
    threads = Return (stage2, res2) ->
  Permutation (flat_map stream_marks res1) (flat_map stream_marks res2)
  /\ (final query = true -> res1 = res2).
Proof.
  intros Hseek Hc Hg Hsnapshot Hthreads Hs1 Hs2 Hrun1 Hrun2.
  apply read_returns in Hrun1.
  destruct Hrun1 as (sampled & parts & r1 & _ & _ & Hsampled & Hparts & Hr1 & ->).
  apply read_returns in Hrun2.
  destruct Hrun2 as (sampled' & parts' & r2 & _ & _ & Hsampled' & Hparts' & Hr2 & ->).
  rewrite Hsampled in Hsampled'. injection Hsampled' as <-.
  rewrite Hparts in Hparts'. injection Hparts' as <-.
  assert (Hmarks : Permutation (flat_map stream_marks r1) (flat_map stream_marks r2)
                   /\ (final query = true -> r1 = r2)).
  { unfold spreads in Hr1, Hr2. destruct (final query).
    - subst r1 r2. split; [apply Permutation_refl|reflexivity].
    - split; [|discriminate].
      assert (Hfit : Forall (fun part => is_size_t (size (index part)))
                       (parts_by_date this query)).
      { apply (sum_list_bounds_elements (fun part => size (index part))).
        - intros part. unfold size. lia.
        - eapply Z.le_lt_trans; [|exact Hsnapshot].
          apply sum_list_filter_le. intros part. unfold size. lia. }
      destruct (select_ranges_fit this fuel _ _ [] parts Hseek Hg Hfit Hparts)
        as (new & -> & Hwf & Hsum). cbn [app] in *.
      eapply (spread_any_shuffle this shuffle1 shuffle2); eauto.
      split; [exact Hwf|]. eapply Z.le_lt_trans; [exact Hsum|].
      eapply Z.le_lt_trans; [|exact Hsnapshot].
      apply sum_list_filter_le. intros part. unfold size. lia. }
  destruct Hmarks as [Hperm Hfinal].
  destruct (filter_function sampled), (filter_expression sampled); try (split; assumption).
  split.
  - rewrite !flat_map_stream_marks, !sampled_streams_ranges,
      <- !flat_map_stream_marks. exact Hperm.
  - intros Hf. rewrite (Hfinal Hf). reflexivity.
Qed.

(** Two parts of ten marks for three threads, under the two orders of the
    parts. *)
Lemma read_marks_independent_of_shuffle_witness :
  let a := part_of "a" 10 in
  let b := part_of "b" 10 in
  let res1 :=
    [reader b [] [{| begin := 0; end_ := 7 |}];
     ConcatBlockInputStream
       [reader b [] [{| begin := 7; end_ := 10 |}];
        reader a [] [{| begin := 0; end_ := 4 |}]];
     reader a [] [{| begin := 4; end_ := 10 |}]] in
  let res2 :=
    [reader a [] [{| begin := 0; end_ := 7 |}];
     ConcatBlockInputStream
       [reader a [] [{| begin := 7; end_ := 10 |}];
        reader b [] [{| begin := 0; end_ := 4 |}]];
     reader b [] [{| begin := 4; end_ := 10 |}]] in
  read two_parts (fun parts => parts) 40 [] select_all true 8192 3
  = Return (FetchColumns, res1)
  /\ read two_parts (@rev _) 40 [] select_all true 8192 3 = Return (FetchColumns, res2)
  /\ Permutation (flat_map stream_marks res1) (flat_map stream_marks res2).
Proof.
  intros a b res1 res2.
  assert (H1 : read two_parts (fun parts => parts) 40 [] select_all true 8192 3
               = Return (FetchColumns, res1)) by reflexivity.
  assert (H2 : read two_parts (@rev _) 40 [] select_all true 8192 3
               = Return (FetchColumns, res2)) by reflexivity.
  split; [exact H1|]. split; [exact H2|].
  refine (proj1 (read_marks_independent_of_shuffle two_parts (fun parts => parts)
                   (@rev _) 40 [] select_all true 8192 3 FetchColumns FetchColumns
                   res1 res2 _ _ _ _ _ _ _ H1 H2)).
  - size_t_holds.
  - size_t_holds.
  - size_t_holds.
  - vm_compute. reflexivity.
  - rewrite size_t_modulus_eq. lia.
  - intros parts. apply Permutation_refl.
  - intros parts. apply Permutation_sym, Permutation_rev.
Defined.

(** C10 as stated fails: with the parts in one order the first thread reads
    the marks [0, 7) of part b, in the other order those of part a; the
    ranges of the two runs differ. *)
Lemma ranges_depend_on_shuffle :
  let a := part_of "a" 10 in
  let b := part_of "b" 10 in
  let res1 :=
    [reader b [] [{| begin := 0; end_ := 7 |}];
     ConcatBlockInputStream
       [reader b [] [{| begin := 7; end_ := 10 |}];
        reader a [] [{| begin := 0; end_ := 4 |}]];
     reader a [] [{| begin := 4; end_ := 10 |}]] in
  let res2 :=
    [reader a [] [{| begin := 0; end_ := 7 |}];
     ConcatBlockInputStream
       [reader a [] [{| begin := 7; end_ := 10 |}];
        reader b [] [{| begin := 0; end_ := 4 |}]];
     reader b [] [{| begin := 4; end_ := 10 |}]] in
  read two_parts (fun parts => parts) 40 [] select_all true 8192 3
  = Return (FetchColumns, res1)
  /\ read two_parts (@rev _) 40 [] select_all true 8192 3 = Return (FetchColumns, res2)
  /\ ~ Permutation (flat_map stream_ranges res1) (flat_map stream_ranges res2).
Proof.
  intros a b res1 res2. split; [reflexivity|]. split; [reflexivity|].
  intros H.
  assert (Hin : In (b, {| begin := 0; end_ := 7 |}) (flat_map stream_ranges res2)).
  { eapply Permutation_in; [exact H|]. left. reflexivity. }
  destruct Hin as [Hin|[Hin|[Hin|[Hin|[]]]]]; inversion Hin.
Qed.

(** An empty index under a condition that is not [alwaysTrue]: the first
    iteration of the descent takes the address of [index[0]], which does
    not exist. *)
Lemma markRangesFromPkRange_empty_index `{CO : Collaborators}
    (this : MergeTreeDataSelectExecutor) (key_condition : PKCondition) (fuel : nat) :
  getSortDescription (data this) <> [] ->
  alwaysTrue key_condition = false ->
  markRangesFromPkRange this (S fuel) [] key_condition = Undefined.
Proof.
  intros Hkey Hcond. unfold markRangesFromPkRange.
  destruct (Z.eqb_spec (size (getSortDescription (data this))) 0) as [H0|_].
  { unfold size in H0. destruct (getSortDescription (data this));
      [contradiction|cbn in H0; lia]. }
  rewrite Hcond. reflexivity.
Qed.

(** C7: the branch "Couldn't spread marks among threads" is reached. With
    no condition on the key, a part without marks is selected with the range
    [0, 0); when the shuffle leaves it at the front, the one thread is filled
    by the other part and the part without marks is left over. *)
Theorem read_leaves_part_without_marks :
  read with_empty_part (fun parts => parts) 8 [] select_all true 8192 1
  = Exception "Couldn't spread marks among threads" LOGICAL_ERROR.
Proof. reflexivity. Qed.

(** C8: with no condition on the key the pruner returns one range, [0, 0),
    for a part without marks, and [read] returns streams that read from the
    part: in a FINAL query, and in a normal one when the shuffle puts the
    part at the back. *)
Theorem read_emits_part_without_marks :
  let empty_part := part_of "empty" 0 in
  let b := part_of "b" 4 in
  let key := ASTIdentifier "key" Column in
  let final_res :=
    [CollapsingFinalBlockInputStream
       [ExpressionBlockInputStream
          (reader empty_part ["key"; "sign"]%string [{| begin := 0; end_ := 0 |}]) key;
        ExpressionBlockInputStream
          (reader b ["key"; "sign"]%string [{| begin := 0; end_ := 4 |}]) key]
       ["key"%string] "sign"] in
  let normal_res :=
    [ConcatBlockInputStream
       [reader empty_part [] [{| begin := 0; end_ := 0 |}];
        reader b [] [{| begin := 0; end_ := 4 |}]]] in
  marks_count_of with_empty_part (index empty_part) = 0
  /\ markRangesFromPkRange with_empty_part 0 (index empty_part) no_condition
     = Return [{| begin := 0; end_ := 0 |}]
  /\ read with_empty_part (fun parts => parts) 8 [] select_final true 8192 1
     = Return (FetchColumns, final_res)
  /\ (exists s, In s final_res /\ references s empty_part)
  /\ read with_empty_part (@rev _) 8 [] select_all true 8192 1
     = Return (FetchColumns, normal_res)
  /\ (exists s, In s normal_res /\ references s empty_part).
Proof.
  cbv zeta. repeat (split; [reflexivity|]). split; [|split; [reflexivity|]].
  - eexists. split; [left; reflexivity|]. left. reflexivity.
  - eexists. split; [left; reflexivity|]. left. reflexivity.
Qed.

(** *** Sampling *)

Section SamplingFacts.
Context `{CO : Collaborators}.
Variable this : MergeTreeDataSelectExecutor.

Lemma sampling_column_max_of_spec (type_name : string) :
  (exists max, sampling_column_max_of type_name = Return max
               /\ unsigned_type_max type_name max)
  \/ ((exists msg, sampling_column_max_of type_name
                   = Exception msg ILLEGAL_TYPE_OF_COLUMN_FOR_FILTER)
      /\ ~ is_unsigned_type type_name).
Proof.
  unfold sampling_column_max_of, is_unsigned_type, unsigned_type_max.
  destruct (String.eqb_spec type_name "UInt64") as [->|H64].
  { left. eexists. split; [reflexivity|]. left. auto. }
  destruct (String.eqb_spec type_name "UInt32") as [->|H32].
  { left. eexists. split; [reflexivity|]. right. left. auto. }
  destruct (String.eqb_spec type_name "UInt16") as [->|H16].
  { left. eexists. split; [reflexivity|]. right. right. left. auto. }
  destruct (String.eqb_spec type_name "UInt8") as [->|H8].
  { left. eexists. split; [reflexivity|]. right. right. right. auto. }
  right. split; [eexists; reflexivity|].
  intros (max & [[H _]|[[H _]|[[H _]|[H _]]]]); contradiction.
Qed.

(** What a sampling step that returns has computed, for a sample clause
    with the literal [value]. *)
Lemma sampling_returns (fuel : nat) (query : ASTSelectQuery) (parts : list DataPart)
    (key_condition : PKCondition) (column_names : Names) (sampled : Sampling)
    (value : Field) (type_ : option string) :
  sample_size query = Some (ASTLiteral value type_) ->
  sampling this fuel query parts key_condition column_names = Return sampled ->
  double_lt (FieldVisitorConvertToNumber_double value) double_zero = false
  /\ exists relative max limit,
       relative_sample_size this fuel parts key_condition (ASTLiteral value type_)
         (FieldVisitorConvertToNumber_double value) = Return relative
       /\ sampling_column_max_of (sampling_column_type this) = Return max
       /\ UInt64_of_double (double_mul relative (double_of_UInt64 max)) = Some limit
       /\ addCondition key_condition (sampling_column this) (sampling_range limit)
          = (true, sampled_key_condition sampled)
       /\ sampling_column_value_limit sampled = limit
       /\ filter_function sampled = Some (sampling_filter this limit)
       /\ filter_expression sampled = Some (getActions (sampling_filter this limit))
       /\ sampled_column_names sampled
          = std_unique
              (std_sort (column_names
                         ++ getRequiredColumns (getActions (sampling_filter this limit)))).
Proof.
  intros Hsample Hrun. unfold sampling in Hrun. rewrite Hsample in Hrun.
  cbn [literal_value bind] in Hrun.
  destruct (double_lt _ double_zero); [discriminate|]. split; [reflexivity|].
  destruct (relative_sample_size _ _ _ _ _ _) as [relative| | | |];
    cbn [bind] in Hrun; try discriminate.
  fold (sampling_column this) in Hrun. fold (sampling_column_type this) in Hrun.
  destruct (sampling_column_max_of _) as [max| | | |]; cbn [bind] in Hrun;
    try discriminate.
  destruct (UInt64_of_double _) as [limit|] eqn:Elimit; [|discriminate].
  exists relative, max, limit. split; [reflexivity|]. split; [reflexivity|].
  split; [exact Elimit|].
  fold (sampling_range limit) in Hrun. fold (sampling_filter this limit) in Hrun.
  destruct (addCondition _ _ _) as [[] key_condition']; cbn [negb] in Hrun;
    [|discriminate].
  injection Hrun as <-.
  cbn [sampled_key_condition sampling_column_value_limit filter_function
       filter_expression sampled_column_names].
  repeat (split; [reflexivity|]). reflexivity.
Qed.

(** A sampling step that returns has cast the sample clause to a literal. *)
Lemma sampling_literal (fuel : nat) (query : ASTSelectQuery) (parts : list DataPart)
    (key_condition : PKCondition) (column_names : Names) (sampled : Sampling)
    (sample_ast : AST) :
  sample_size query = Some sample_ast ->
  sampling this fuel query parts key_condition column_names = Return sampled ->
  exists value type_, sample_ast = ASTLiteral value type_.
Proof.
  intros Hsample Hrun. unfold sampling in Hrun. rewrite Hsample in Hrun.
  destruct sample_ast; try discriminate. eexists. eexists. reflexivity.
Qed.
End SamplingFacts.

(** *** Where exceptions come from *)

Section Exceptions.
Context `{CO : Collaborators}.
Variable this : MergeTreeDataSelectExecutor.
Variable allowed : ErrorCode -> Prop.

Lemma within_bind {A B : Type} (m : outcome A) (k : A -> outcome B) :
  within allowed m -> (forall a, within allowed (k a)) -> within allowed (bind m k).
Proof. destruct m; cbn; auto. Qed.

Lemma within_while {S : Type} (cond : S -> bool) (body : S -> outcome S)
    (fuel : nat) (s : S) :
  (forall s, within allowed (body s)) -> within allowed (while_ fuel cond body s).
Proof.
  intros Hbody. revert s. induction fuel as [|n IH]; intros s; cbn [while_];
    destruct (cond s); try exact I.
  apply within_bind; [apply Hbody|apply IH].
Qed.

Lemma within_for_each {A S : Type} (v : list A) (body : S -> A -> outcome S) (s : S) :
  (forall s x, within allowed (body s x)) -> within allowed (for_each v body s).
Proof.
  intros Hbody. revert s. induction v as [|x v IH]; intros s; cbn [for_each];
    [exact I|].
  apply within_bind; [apply Hbody|apply IH].
Qed.

(** The pruner throws nothing. *)
Lemma markRangesFromPkRange_within (fuel : nat) (index_ : Index)
    (key_condition : PKCondition) :
  within allowed (markRangesFromPkRange this fuel index_ key_condition).
Proof.
  unfold markRangesFromPkRange.
  destruct (_ =? 0); [exact I|]. destruct (alwaysTrue key_condition); [exact I|].
  apply within_bind; [|intros [? ?]; exact I].
  apply within_while. intros [stack res]. unfold descend.
  destruct (back stack); [|exact I].
  apply within_bind.
  { unfold may_be_true, address_of.
    repeat (destruct (_ <? _) || destruct (_ =? _) || cbn [bind]); exact I. }
  intros accepts.
  destruct (negb _); [exact I|]. destruct (_ =? _); [exact I|].
  destruct (_ =? 0); [exact I|].
  apply within_bind; [|intros [? ?]; exact I].
  unfold split_loop. apply within_while. intros [? ?]. exact I.
Qed.

Lemma preliminary_index_scan_within (fuel : nat) (parts : list DataPart)
    (key_condition : PKCondition) :
  within allowed (preliminary_index_scan this fuel parts key_condition).
Proof.
  unfold preliminary_index_scan. apply within_for_each. intros total part.
  apply within_bind; [apply markRangesFromPkRange_within|intros; exact I].
Qed.

End Exceptions.

Section SpreaderExceptions.
Context `{CO : Collaborators}.
Variable this : MergeTreeDataSelectExecutor.

End SpreaderExceptions.

Section PlannerErrors.
Context `{CO : Collaborators}.
Variable this : MergeTreeDataSelectExecutor.
Variable random_shuffle : RangesInDataParts -> RangesInDataParts.
Variables (fuel : nat) (column_names : Names) (query : ASTSelectQuery)
  (use_uncompressed_cache : bool) (max_block_size threads : Z).


End PlannerErrors.






(** *** The cutoff of a sample *)

Lemma wrap64_add_r (a b : Z) : wrap64 (a + wrap64 b) = wrap64 (a + b).
Proof. unfold wrap64. apply Zplus_mod_idemp_r. Qed.

Lemma wrap64_add_l (a b : Z) : wrap64 (wrap64 a + b) = wrap64 (a + b).
Proof. unfold wrap64. apply Zplus_mod_idemp_l. Qed.

(** The marks counted modulo 2^64 are the marks, modulo 2^64. *)
Lemma count_marks_wrap `{CO : Collaborators} (this : MergeTreeDataSelectExecutor)
    (v : MarkRanges) (total_count : Z) :
  wrap64 (count_marks total_count v) = wrap64 (total_count + total_marks v).
Proof.
  unfold count_marks, total_marks. revert total_count.
  induction v as [|a v IH]; intros total_count; cbn [fold_left fold_right].
  - f_equal. lia.
  - rewrite IH. unfold add64, sub64, marks_in at 2.
    rewrite wrap64_add_l.
    set (rest := fold_right (fun range sum => marks_in range + sum) 0 v).
    replace (total_count + wrap64 (end_ a - begin a) + rest)
      with (total_count + rest + wrap64 (end_ a - begin a)) by lia.
    rewrite wrap64_add_r. f_equal. lia.
Qed.

Section Cutoff.
Context `{CO : Collaborators}.
Variable this : MergeTreeDataSelectExecutor.

(** The preliminary index scan prunes every part and counts the marks of
    the ranges, modulo 2^64. *)
Lemma preliminary_index_scan_returns (fuel : nat) (key_condition : PKCondition)
    (parts : list DataPart) (start total_count : Z) :
  for_each parts
    (fun total_count part =>
       ranges_ <- markRangesFromPkRange this fuel (index part) key_condition ;;
       Return (count_marks total_count ranges_))
    start = Return total_count ->
  exists scanned,
    Forall2
      (fun part v => markRangesFromPkRange this fuel (index part) key_condition = Return v)
      parts scanned
    /\ wrap64 total_count = wrap64 (start + sum_list (map total_marks scanned)).
Proof.
  revert start. induction parts as [|part parts IH]; intros start; cbn [for_each].
  - intros [= <-]. exists []. split; [constructor|]. cbn. f_equal. lia.
  - destruct (markRangesFromPkRange this fuel (index part) key_condition)
      as [v| | | |] eqn:Ev; cbn [bind]; try discriminate.
    intros Hrest. destruct (IH _ Hrest) as (scanned & Hscanned & Hsum).
    exists (v :: scanned). split; [constructor; assumption|].
    rewrite Hsum. unfold sum_list. cbn [map fold_right].
    rewrite <- wrap64_add_l, (count_marks_wrap this), wrap64_add_l. f_equal. lia.
Qed.

(** The relative size of a sample: the size itself, or the share of the
    rows the preliminary index scan estimates. *)
Lemma relative_sample_size_returns (fuel : nat) (parts : list DataPart)
    (key_condition : PKCondition) (value : Field) (type_ : option string)
    (relative : double) :
  relative_sample_size this fuel parts key_condition (ASTLiteral value type_)
    (FieldVisitorConvertToNumber_double value) = Return relative ->
  if double_lt double_one (FieldVisitorConvertToNumber_double value)
  then exists scanned,
         Forall2
           (fun part v =>
              markRangesFromPkRange this fuel (index part) key_condition = Return v)
           parts scanned
         /\ relative
            = std_min double_one
                (double_div
                   (double_of_UInt64 (FieldVisitorConvertToNumber_UInt64 value))
                   (double_of_UInt64
                      (wrap64 (sum_list (map total_marks scanned)
                               * index_granularity (data this)))))
  else relative = FieldVisitorConvertToNumber_double value.
Proof.
  unfold relative_sample_size.
  destruct (double_lt double_one _); [|intros [= <-]; reflexivity].
  cbn [literal_value bind]. unfold preliminary_index_scan.
  destruct (for_each _ _ _) as [total_count| | | |] eqn:Escan; cbn [bind];
    try discriminate.
  intros [= <-]. apply preliminary_index_scan_returns in Escan.
  destruct Escan as (scanned & Hscanned & Hsum). exists scanned.
  split; [exact Hscanned|]. do 3 f_equal.
  unfold mul64, wrap64 in *. rewrite Z.add_0_l in Hsum.
  rewrite <- Zmult_mod_idemp_l, Hsum, Zmult_mod_idemp_l. reflexivity.
Qed.
End Cutoff.

(** C4, as the code has it: in a run of [read] that returns, on a query with
    the sample clause [value]. The product of [relative] and [M] as doubles
    is a value of UInt64 and the cutoff is its conversion to UInt64 (its
    integral part), where [M] is the maximum of the unsigned type of the
    sampling column (converted to a double, which is not exact for UInt64)
    and [relative] is the size of the sample, or, for a size above 1,
    the smaller of 1 and [requested / total], [total] being the marks the
    pruner selects in the parts that pass the date condition, times the index
    granularity (modulo 2^64). That one cutoff bounds the sampling column in
    the key condition, through [addCondition] with an inclusive right bound,
    and is the literal of the [lessOrEquals] filter over every stream; the
    ranges are selected under the condition so bounded. Nothing is said of
    a product that is no value of UInt64: its conversion is undefined. *)
Theorem read_sampling_cutoff `{CO : Collaborators}
    (this : MergeTreeDataSelectExecutor)
    (random_shuffle : RangesInDataParts -> RangesInDataParts)
    (fuel : nat) (column_names : Names) (query : ASTSelectQuery)
    (use_uncompressed_cache : bool) (max_block_size threads : Z)
    (stage : QueryProcessingStage) (res : BlockInputStreams)
    (value : Field) (type_ : option string) :
  sample_size query = Some (ASTLiteral value type_) ->
  read this random_shuffle fuel column_names query use_uncompressed_cache
    max_block_size threads = Return (stage, res) ->
  let size_ := FieldVisitorConvertToNumber_double value in
  let parts := parts_by_date this query in
  let key_condition := key_condition_of this query in
  exists relative max limit sampled_condition parts_with_ranges res0,
    unsigned_type_max (sampling_column_type this) max
    /\ (if double_lt double_one size_
        then exists scanned,
               Forall2
                 (fun part v =>
                    markRangesFromPkRange this fuel (index part) key_condition
                    = Return v)
                 parts scanned
               /\ relative
                  = std_min double_one
                      (double_div
                         (double_of_UInt64 (FieldVisitorConvertToNumber_UInt64 value))
                         (double_of_UInt64
                            (wrap64 (sum_list (map total_marks scanned)
                                     * index_granularity (data this)))))
        else relative = size_)
    /\ UInt64_of_double (double_mul relative (double_of_UInt64 max)) = Some limit
    /\ addCondition key_condition (sampling_column this)
         (createRightBounded (UInt64 limit) true)
       = (true, sampled_condition)
    /\ select_ranges this fuel parts sampled_condition = Return parts_with_ranges
    /\ res
       = map (fun original_stream =>
                FilterBlockInputStream
                  (ExpressionBlockInputStream original_stream
                     (getActions
                        (ASTFunction "lessOrEquals"
                           (ASTExpressionList
                              [sampling_expression (data this);
                               ASTLiteral (UInt64 limit) None]))))
                  (getColumnName
                     (ASTFunction "lessOrEquals"
                        (ASTExpressionList
                           [sampling_expression (data this);
                            ASTLiteral (UInt64 limit) None]))))
           res0
    /\ spreads this random_shuffle query
         (std_unique
            (std_sort
               (column_names
                ++ getRequiredColumns
                     (getActions
                        (ASTFunction "lessOrEquals"
                           (ASTExpressionList
                              [sampling_expression (data this);
                               ASTLiteral (UInt64 limit) None]))))))
         parts_with_ranges threads max_block_size use_uncompressed_cache res0.
Proof.
  intros Hsample Hrun. cbv zeta.
  apply read_returns in Hrun.
  destruct Hrun as (sampled & parts_with_ranges & res0 & _ & _ & Hsampled & Hparts
                    & Hres0 & ->).
  destruct (sampling_returns this fuel query _ _ column_names sampled value type_
              Hsample Hsampled)
    as (_ & relative & max & limit & Hrelative & Hmax & Hlimit & Hadd & _ & Hfunction
        & Hexpression & Hnames).
  exists relative, max, limit, (sampled_key_condition sampled), parts_with_ranges, res0.
  split.
  { destruct (sampling_column_max_of_spec (sampling_column_type this))
      as [(max' & Emax & Hgood)|[[msg Emax] _]]; rewrite Emax in Hmax;
      [injection Hmax as <-; exact Hgood|discriminate]. }
  split; [apply (relative_sample_size_returns this fuel _ _ value type_ relative
                  Hrelative)|].
  split; [exact Hlimit|]. split; [exact Hadd|]. split; [exact Hparts|].
  rewrite Hfunction, Hexpression. split; [reflexivity|].
  rewrite Hnames in Hres0. exact Hres0.
Qed.

(** The examples of the specification: a sample of 1/2 on a UInt32 column
    has the cutoff 2147483647, and a sample of 8192 rows out of the 32768
    rows of the four marks selected has the cutoff of 1/4. *)
Example sample_half_of_UInt32 :
  read (executor 0 1 "UInt32" [part_of "a" 4]) (fun parts => parts) 16 ["x"%string]
    (select_sample (Float64 half)) true 8192 1
  = Return (FetchColumns,
            [sample_filter 2147483647
               (reader (part_of "a" 4) ["key"; "x"]%string
                  [{| begin := 0; end_ := 4 |}])]).
Proof. reflexivity. Qed.

Example sample_of_a_quarter_of_the_rows :
  read (executor 0 1 "UInt32" [part_of "a" 4]) (fun parts => parts) 16 ["x"%string]
    (select_sample (UInt64 8192)) true 8192 1
  = Return (FetchColumns,
            [sample_filter 1073741823
               (reader (part_of "a" 4) ["key"; "x"]%string
                  [{| begin := 0; end_ := 4 |}])]).
Proof. reflexivity. Qed.

(** A sample of the whole of a UInt64 column: the product is the double
    2^64, which is no value of UInt64, and its conversion is undefined. *)
Example sample_of_the_whole_of_UInt64 :
  read (executor 0 1 "UInt64" [part_of "a" 4]) (fun parts => parts) 16 ["x"%string]
    (select_sample (Float64 PrimFloat.one)) true 8192 1
  = Undefined.
Proof. reflexivity. Qed.

(** A sample of 1/2 on a UInt32 column, through the theorem. *)
Lemma read_sampling_cutoff_witness :
  let this := executor 0 1 "UInt32" [part_of "a" 4] in
  let query := select_sample (Float64 half) in
  let res :=
    [sample_filter 2147483647
       (reader (part_of "a" 4) ["key"; "x"]%string [{| begin := 0; end_ := 4 |}])] in
  sample_size query = Some (ASTLiteral (Float64 half) None)
  /\ read this (fun parts => parts) 16 ["x"%string] query true 8192 1
     = Return (FetchColumns, res)
  /\ exists relative max limit res0,
       unsigned_type_max (sampling_column_type this) max
       /\ relative = half
       /\ UInt64_of_double (double_mul relative (double_of_UInt64 max)) = Some limit
       /\ res = map (sample_filter limit) res0.
Proof.
  intros this query res.
  assert (H1 : sample_size query = Some (ASTLiteral (Float64 half) None))
    by reflexivity.
  assert (H2 : read this (fun parts => parts) 16 ["x"%string] query true 8192 1
               = Return (FetchColumns, res)) by reflexivity.
  split; [exact H1|]. split; [exact H2|].
  destruct (read_sampling_cutoff this (fun parts => parts) 16 ["x"%string] query true
              8192 1 FetchColumns res (Float64 half) None H1 H2)
    as (relative & max & limit & _ & _ & res0 & Hmax & Hrelative & Hlimit & _ & _
        & Hres & _).
  exists relative, max, limit, res0. split; [exact Hmax|]. split; [exact Hrelative|].
  split; [exact Hlimit|]. exact Hres.
Defined.

(** C4 as stated fails where the product is not exact: on a UInt64 column
    the maximum 2^64 - 1 becomes the double 2^64, and a sample of 1/2 has the
    cutoff 2^63, one above the integral part of (2^64 - 1) / 2. *)
Lemma cutoff_of_half_on_UInt64 :
  read (executor 0 1 "UInt64" [part_of "a" 4]) (fun parts => parts) 16 ["x"%string]
    (select_sample (Float64 half)) true 8192 1
  = Return (FetchColumns,
            [sample_filter 9223372036854775808
               (reader (part_of "a" 4) ["key"; "x"]%string
                  [{| begin := 0; end_ := 4 |}])])
  /\ 9223372036854775808 <> (2 ^ 64 - 1) / 2.
Proof. split; [reflexivity|]. vm_compute. discriminate. Qed.


(** ** The constructor *)

Section Constructor.
Context `{CO : Collaborators}.

Lemma rows_to_marks_ceiling (rows granularity : Z) :
  0 < granularity -> 0 <= rows -> rows + granularity - 1 < size_t_modulus ->
  rows <= rows_to_marks rows granularity * granularity < rows + granularity.
Proof.
  intros Hg Hrows Hfit. unfold rows_to_marks, add64, sub64, wrap64.
  rewrite Zminus_mod_idemp_l, Z.mod_small by lia.
  pose proof (Z.div_mod (rows + granularity - 1) granularity ltac:(lia)) as Hdiv.
  pose proof (Z.mod_pos_bound (rows + granularity - 1) granularity Hg) as Hmod.
  nia.
Qed.

Lemma rows_to_marks_overflow (rows granularity : Z) :
  is_size_t rows -> is_size_t granularity ->
  size_t_modulus <= rows + granularity - 1 ->
  rows_to_marks rows granularity = 0.
Proof.
  intros Hrows Hg Hover. unfold rows_to_marks, add64, sub64, wrap64.
  unfold is_size_t in *.
  rewrite Zminus_mod_idemp_l.
  replace ((rows + granularity - 1) mod size_t_modulus)
    with (rows + granularity - 1 - size_t_modulus).
  - apply Z.div_small. lia.
  - apply Z.mod_unique with (q := 1); lia.
Qed.

(** X1: the constructor turns the three thresholds of the settings from
    rows into marks, rounding up: each threshold in marks is the least
    number of marks that hold the rows. *)
Theorem MergeTreeDataSelectExecutor_new_thresholds (data_ : MergeTreeData) :
  let g := index_granularity data_ in
  let fits rows := 0 <= rows /\ rows + g - 1 < size_t_modulus in
  let ceiling rows marks := rows <= marks * g < rows + g in
  0 < g ->
  fits (min_rows_for_seek (settings data_)) ->
  fits (min_rows_for_concurrent_read (settings data_)) ->
  fits (max_rows_to_use_cache (settings data_)) ->
  exists this,
    MergeTreeDataSelectExecutor_new data_ = Return this
    /\ data this = data_
    /\ ceiling (min_rows_for_seek (settings data_)) (min_marks_for_seek this)
    /\ ceiling (min_rows_for_concurrent_read (settings data_))
         (min_marks_for_concurrent_read this)
    /\ ceiling (max_rows_to_use_cache (settings data_)) (max_marks_to_use_cache this).
Proof.
  cbv zeta. intros Hg [H1 H1'] [H2 H2'] [H3 H3']. unfold MergeTreeDataSelectExecutor_new.
  destruct (Z.eqb_spec (index_granularity data_) 0) as [|_]; [lia|].
  eexists. split; [reflexivity|]. cbn [data min_marks_for_seek
    min_marks_for_concurrent_read max_marks_to_use_cache].
  split; [reflexivity|].
  repeat split; apply rows_to_marks_ceiling; assumption.
Qed.

(** X2: a threshold in rows so large that adding the granularity to it
    overflows [size_t] becomes a threshold of 0 marks. *)
Theorem MergeTreeDataSelectExecutor_new_overflow (data_ : MergeTreeData) :
  let g := index_granularity data_ in
  let overflows rows := is_size_t rows /\ size_t_modulus <= rows + g - 1 in
  is_size_t g -> g <> 0 ->
  exists this,
    MergeTreeDataSelectExecutor_new data_ = Return this
    /\ (overflows (min_rows_for_seek (settings data_)) -> min_marks_for_seek this = 0)
    /\ (overflows (min_rows_for_concurrent_read (settings data_)) ->
        min_marks_for_concurrent_read this = 0)
    /\ (overflows (max_rows_to_use_cache (settings data_)) ->
        max_marks_to_use_cache this = 0).
Proof.
  cbv zeta. intros Hg Hne. unfold MergeTreeDataSelectExecutor_new.
  destruct (Z.eqb_spec (index_granularity data_) 0) as [|_]; [contradiction|].
  eexists. split; [reflexivity|]. cbn [min_marks_for_seek
    min_marks_for_concurrent_read max_marks_to_use_cache].
  repeat split; intros [Hrows Hover]; apply rows_to_marks_overflow; assumption.
Qed.
End Constructor.

(** ** The readers of the spreader *)

Section ReaderInvariant.
Context `{CO : Collaborators}.
Variable this : MergeTreeDataSelectExecutor.
Variables (column_names : Names) (max_block_size : Z)
  (use_uncompressed_cache : bool)
  (prewhere_actions : option ExpressionActions) (prewhere_column : string).

(** A property [P] of the parts still to spread, each with its count of
    marks, and a property [Q] of the ranges given to a reader: [Q] holds of
    a part taken whole, and a share taken from a part has [Q] and leaves a
    part with [P]. *)
Variable P : RangesInDataPart -> Z -> Prop.
Variable Q : DataPart -> MarkRanges -> Prop.

Let c := min_marks_for_concurrent_read this.

Let adjusted (marks_in_part need_marks : Z) : Z :=
  let need_marks :=
    if (marks_in_part >=? c) && (need_marks <? c) then c else need_marks in
  if (marks_in_part >? need_marks) && (sub64 marks_in_part need_marks <? c)
  then marks_in_part else need_marks.

Hypothesis whole :
  forall part marks_in_part,
    P part marks_in_part -> Q (data_part part) (rev (ranges part)).

Hypothesis share :
  forall part marks_in_part need_marks need_marks' part_ranges marks_in_part' got,
    P part marks_in_part ->
    0 < need_marks ->
    adjusted marks_in_part need_marks < marks_in_part ->
    take_ranges (adjusted marks_in_part need_marks, ranges part, marks_in_part, [])
    = Return (need_marks', part_ranges, marks_in_part', got) ->
    Q (data_part part) got
    /\ P {| data_part := data_part part; ranges := part_ranges |} marks_in_part'.

Let R := reads this column_names max_block_size use_uncompressed_cache
           prewhere_actions prewhere_column Q.

Lemma Forall2_push_back_inv {A B : Type} (T : A -> B -> Prop) (v : list A) (x : A)
    (w : list B) :
  Forall2 T (push_back v x) w ->
  exists w0 y, w = push_back w0 y /\ Forall2 T v w0 /\ T x y.
Proof.
  unfold push_back. intros H. apply Forall2_app_inv_l in H.
  destruct H as (w0 & w1 & Hv & Hx & ->).
  inversion Hx as [|? y ? ? Hxy Hnil]; subst. inversion Hnil; subst.
  exists w0, y. auto.
Qed.

Lemma Forall2_push_back {A B : Type} (T : A -> B -> Prop) (v : list A) (x : A)
    (w : list B) (y : B) :
  Forall2 T v w -> T x y -> Forall2 T (push_back v x) (push_back w y).
Proof. intros Hv Hx. unfold push_back. apply Forall2_app; [exact Hv|auto]. Qed.

(** One iteration of the loop over the parts. *)
Lemma take_part_readers (st st' : Z * RangesInDataParts * list Z * BlockInputStreams) :
  (let '(need_marks, parts, sums, streams) := st in
   Forall2 P parts sums /\ Forall R streams /\ 0 < need_marks) ->
  take_part this column_names max_block_size use_uncompressed_cache
    prewhere_actions prewhere_column st = Return st' ->
  let '(_, parts', sums', streams') := st' in
  Forall2 P parts' sums' /\ Forall R streams' /\ streams' <> [].
Proof.
  destruct st as [[[need parts] sums] streams].
  intros (HP & HR & Hpos). unfold take_part.
  destruct (vector_cases parts) as [[-> Hb]|(parts0 & part & -> & Hb)];
    rewrite Hb; [discriminate|].
  apply Forall2_push_back_inv in HP. destruct HP as (sums0 & m & -> & HP0 & HPpart).
  rewrite back_push_back. fold c. cbv zeta.
  change (if (m >? (if (m >=? c) && (need <? c) then c else need))
             && (sub64 m (if (m >=? c) && (need <? c) then c else need) <? c)
          then m else if (m >=? c) && (need <? c) then c else need)
    with (adjusted m need).
  destruct (Z.leb_spec m (adjusted m need)) as [Hwhole|Hshare].
  - intros [= <-]. rewrite !pop_back_push_back.
    split; [exact HP0|]. split.
    + apply Forall_push_back. split; [exact HR|].
      exists (data_part part), (rev (ranges part)). split; [reflexivity|].
      eapply whole, HPpart.
    + unfold push_back. destruct streams; discriminate.
  - destruct (take_ranges _) as [[[[need' rest] m'] got]| | | |] eqn:Etake;
      cbn [bind]; try discriminate.
    intros [= <-]. rewrite !set_back_push_back.
    destruct (share part m need need' rest m' got HPpart Hpos Hshare Etake) as [HQ HP'].
    split; [apply Forall2_push_back; assumption|]. split.
    + apply Forall_push_back. split; [exact HR|].
      exists (data_part part), got. split; [reflexivity|exact HQ].
    + unfold push_back. destruct streams; discriminate.
Qed.

(** One iteration of the loop over the threads. *)
Lemma fill_thread_readers (min_marks_per_thread : Z)
    (st st' : Z * RangesInDataParts * list Z * BlockInputStreams) :
  0 < min_marks_per_thread ->
  (let '(i, parts, sums, res) := st in
   Forall2 P parts sums /\ Forall (worker_stream R) res /\ parts <> []) ->
  fill_thread this column_names max_block_size use_uncompressed_cache
    prewhere_actions prewhere_column min_marks_per_thread st = Return st' ->
  let '(i', parts', sums', res') := st' in
  Forall2 P parts' sums' /\ Forall (worker_stream R) res'
  /\ i' = add64 (fst (fst (fst st))) 1
  /\ List.length res' = S (List.length (snd st)).
Proof.
  destruct st as [[[i parts] sums] res]. intros Hmin (HP & Hres & Hne).
  unfold fill_thread.
  destruct (while_ _ _ _ _) as [[[[need' parts'] sums'] streams']| | | |] eqn:Eloop;
    cbn [bind]; try discriminate.
  intros [= <-]. cbn [fst snd].
  apply (while_invariant _ _
           (fun '(need, parts1, sums1, streams1) =>
              Forall2 P parts1 sums1 /\ Forall R streams1
              /\ (streams1 = [] -> need = min_marks_per_thread /\ parts1 = parts)))
    in Eloop.
  - destruct Eloop as [(HP' & HR' & Hfirst) Hexit].
    assert (Hstreams : streams' <> []).
    { intros ->. destruct (Hfirst eq_refl) as [-> ->].
      destruct parts; [contradiction|]. cbn [empty negb] in Hexit.
      rewrite andb_true_r, Z.gtb_ltb in Hexit.
      apply Z.ltb_ge in Hexit. lia. }
    split; [exact HP'|]. split; [|split; [reflexivity|]].
    + destruct streams' as [|s1 [|s2 streams']]; [contradiction| |];
        apply Forall_push_back; (split; [exact Hres|]).
      * left. inversion HR'; assumption.
      * right. exists s1, s2, streams'. split; [reflexivity|exact HR'].
    + destruct streams' as [|s1 [|s2 streams']]; apply length_push_back.
  - intros [[[need1 parts1] sums1] streams1] st2 (HP1 & HR1 & _) Hcond Hrun.
    apply andb_true_iff in Hcond. destruct Hcond as [Hpos _]. apply Z.gtb_lt in Hpos.
    pose proof (take_part_readers (need1, parts1, sums1, streams1) st2
                  (conj HP1 (conj HR1 Hpos)) Hrun) as Hstep.
    destruct st2 as [[[need2 parts2] sums2] streams2].
    destruct Hstep as (HP2 & HR2 & Hne2).
    split; [exact HP2|]. split; [exact HR2|]. intros ->. contradiction.
  - split; [exact HP|]. split; [constructor|]. intros _. split; reflexivity.
Qed.
End ReaderInvariant.

Section SpreaderReaders.
Context `{CO : Collaborators}.
Variable this : MergeTreeDataSelectExecutor.
Variable random_shuffle : RangesInDataParts -> RangesInDataParts.

Lemma Forall2_map_r {A B : Type} (T : A -> B -> Prop) (f : A -> B) (v : list A) :
  Forall (fun x => T x (f x)) v -> Forall2 T v (map f v).
Proof. induction 1; cbn [map]; constructor; assumption. Qed.

Lemma fold_add64_fits (v : list Z) (sum : Z) :
  is_size_t sum -> is_size_t (fold_left add64 v sum).
Proof.
  revert sum. induction v as [|x v IH]; intros sum Hsum; cbn [fold_left];
    [exact Hsum|].
  apply IH. apply wrap64_range.
Qed.

(** The marks of the parts as the spreader counts them, and the cache
    setting it passes to the readers. *)
Let counted (parts : RangesInDataParts) : Z :=
  fold_left add64
    (map (fun part => sum_marks_in_ranges (ranges part))
       (map (fun part => {| data_part := data_part part; ranges := rev (ranges part) |})
          (random_shuffle parts)))
    0.

(** The streams of the spreader, under the hypotheses on [P] and [Q] of
    [take_part_readers]: one stream for a thread at most, each a reader with
    [Q] or a concatenation of such readers. *)
Lemma spreadMarkRangesAmongThreads_readers
    (P : RangesInDataPart -> Z -> Prop) (Q : DataPart -> MarkRanges -> Prop)
    (parts : RangesInDataParts) (threads : Z) (column_names : Names)
    (max_block_size : Z) (use_uncompressed_cache : bool)
    (prewhere_actions : option ExpressionActions) (prewhere_column : string)
    (res : BlockInputStreams) :
  (forall part marks_in_part,
     P part marks_in_part -> Q (data_part part) (rev (ranges part))) ->
  (forall part marks_in_part need_marks need_marks' part_ranges marks_in_part' got,
     P part marks_in_part ->
     0 < need_marks ->
     let c := min_marks_for_concurrent_read this in
     let need1 :=
       if (marks_in_part >=? c) && (need_marks <? c) then c else need_marks in
     let need2 :=
       if (marks_in_part >? need1) && (sub64 marks_in_part need1 <? c)
       then marks_in_part else need1 in
     need2 < marks_in_part ->
     take_ranges (need2, ranges part, marks_in_part, [])
     = Return (need_marks', part_ranges, marks_in_part', got) ->
     Q (data_part part) got
     /\ P {| data_part := data_part part; ranges := part_ranges |} marks_in_part') ->
  0 <= threads < size_t_modulus ->
  Forall (fun part => P {| data_part := data_part part; ranges := rev (ranges part) |}
                        (sum_marks_in_ranges (rev (ranges part))))
    (random_shuffle parts) ->
  spreadMarkRangesAmongThreads this random_shuffle parts threads column_names
    max_block_size use_uncompressed_cache prewhere_actions prewhere_column
  = Return res ->
  Forall
    (worker_stream
       (reads this column_names max_block_size
          (if counted parts >? max_marks_to_use_cache this then false
           else use_uncompressed_cache)
          prewhere_actions prewhere_column Q))
    res
  /\ size res <= threads.
Proof.
  intros Hwhole Hshare Hthreads HP. unfold spreadMarkRangesAmongThreads. fold (counted parts).
  set (parts1 := map _ (random_shuffle parts)).
  set (sums1 := map _ parts1).
  set (cache := if counted parts >? max_marks_to_use_cache this then false
                else use_uncompressed_cache).
  assert (Hcounted : is_size_t (counted parts)).
  { apply fold_add64_fits. unfold is_size_t. rewrite size_t_modulus_eq. lia. }
  destruct (Z.gtb_spec (counted parts) 0) as [Hpos|_];
    [|intros [= <-]; split; [constructor|cbn; lia]].
  destruct (Z.eqb_spec threads 0) as [|Hne]; [discriminate|].
  assert (Hmin : 0 < add64 (sub64 (counted parts) 1 / threads) 1).
  { unfold is_size_t in Hcounted.
    rewrite (sub64_small (counted parts)) by (unfold is_size_t; lia).
    assert (0 <= (counted parts - 1) / threads <= counted parts - 1).
    { split; [apply Z.div_pos; lia|apply Z.div_le_upper_bound; nia]. }
    rewrite add64_small by (unfold is_size_t; lia). lia. }
  destruct (while_ _ _ _ _) as [[[[i' parts'] sums'] res']| | | |] eqn:Eloop;
    cbn [bind]; try discriminate.
  destruct (negb (empty parts')); [discriminate|]. intros [= <-].
  apply (while_invariant _ _
           (fun '(i, parts2, sums2, res2) =>
              Forall2 P parts2 sums2
              /\ Forall
                   (worker_stream
                      (reads this column_names max_block_size cache prewhere_actions
                         prewhere_column Q))
                   res2
              /\ size res2 = i /\ i <= threads))
    in Eloop.
  - destruct Eloop as [(_ & Hres & Hsize & Hi) _]. split; [exact Hres|lia].
  - intros [[[i1 parts2] sums2] res2] st2 (HP2 & Hres2 & Hsize & Hi) Hcond Hrun.
    apply andb_true_iff in Hcond. destruct Hcond as [Hlt Hparts].
    apply Z.ltb_lt in Hlt.
    assert (Hparts2 : parts2 <> []) by (intros ->; discriminate).
    pose proof (fill_thread_readers this column_names max_block_size cache
                  prewhere_actions prewhere_column P Q Hwhole Hshare _
                  (i1, parts2, sums2, res2) st2 Hmin
                  (conj HP2 (conj Hres2 Hparts2)) Hrun) as Hstep.
    destruct st2 as [[[i3 parts3] sums3] res3]. cbn [fst snd] in Hstep.
    destruct Hstep as (HP3 & Hres3 & -> & Hlen).
    split; [exact HP3|]. split; [exact Hres3|].
    assert (0 <= i1) by (unfold size in Hsize; lia).
    rewrite add64_small by (unfold is_size_t; lia).
    unfold size in *. rewrite Hlen. lia.
  - split; [|split; [constructor|cbn; lia]].
    apply Forall2_map_r. unfold parts1. apply Forall_map. exact HP.
Qed.
End SpreaderReaders.

(** ** The order of the ranges of a reader *)

Lemma back_rev {A : Type} (v : list A) : back (rev v) = hd_error v.
Proof. destruct v as [|a v]; [reflexivity|]. cbn [rev hd_error]. apply back_push_back. Qed.

Lemma chain_rev {A : Type} (R : A -> A -> Prop) (v : list A) :
  chain R v -> chain (fun a b => R b a) (rev v).
Proof.
  induction v as [|a v IH]; [intros; exact I|].
  intros H. cbn [rev]. apply (chain_push_back (fun a b => R b a) (rev v) a). split.
  - apply IH. destruct v; [exact I|apply H].
  - intros y Hy. rewrite back_rev in Hy. destruct v as [|b v]; [discriminate|].
    injection Hy as <-. apply H.
Qed.

Section TakeRangesOrder.
Context `{CO : Collaborators}.

(** The ranges taken from a part are listed from left to right when the
    ranges of the part are listed from right to left, and so are the ranges
    left in the part. *)
Lemma take_ranges_ordered (need_marks : Z) (ranges0 : MarkRanges) (marks_in_part : Z)
    (need_marks' : Z) (part_ranges : MarkRanges) (marks_in_part' : Z) (got : MarkRanges) :
  Forall well_formed ranges0 ->
  chain (fun a b => end_ b <= begin a) ranges0 ->
  0 <= need_marks ->
  take_ranges (need_marks, ranges0, marks_in_part, [])
  = Return (need_marks', part_ranges, marks_in_part', got) ->
  (Forall well_formed got /\ chain (fun a b => end_ a <= begin b) got)
  /\ Forall well_formed part_ranges
  /\ chain (fun a b => end_ b <= begin a) part_ranges.
Proof.
  intros Hwf Hchain Hneed Hrun. unfold take_ranges in Hrun.
  apply (while_invariant _ _
           (fun '(need, v, _, got1) =>
              Forall well_formed v
              /\ chain (fun a b => end_ b <= begin a) v
              /\ Forall well_formed got1
              /\ chain (fun a b => end_ a <= begin b) got1
              /\ (forall g r, back got1 = Some g -> back v = Some r ->
                    end_ g <= begin r)
              /\ 0 <= need))
    in Hrun.
  - destruct Hrun as [(Hv & Hcv & Hg & Hcg & _) _]. auto.
  - intros [[[need v] m] got1] st' (Hv & Hcv & Hg & Hcg & Hlink & Hpos) Hcond.
    apply Z.gtb_lt in Hcond.
    destruct (vector_cases v) as [[-> Hb]|(v0 & range & -> & Hb)]; rewrite Hb;
      [discriminate|].
    intros [= <-].
    apply Forall_push_back in Hv. destruct Hv as [Hv0 Hrange].
    apply chain_push_back in Hcv. destruct Hcv as [Hcv0 Hlast].
    assert (Hlink' : forall y, back got1 = Some y -> end_ y <= begin range)
      by (intros y Hy; apply (Hlink y range Hy Hb)).
    clear Hlink.
    assert (Hrange' := Hrange). unfold well_formed in Hrange'.
    rewrite (sub64_small (end_ range)) by (unfold is_size_t; lia).
    set (g := Z.min (end_ range - begin range) need).
    assert (Hg' : 0 <= g <= end_ range - begin range /\ g <= need) by lia.
    rewrite (add64_small (begin range)) by (unfold is_size_t; lia).
    cbn [begin end_].
    assert (Hgot : Forall well_formed
                     (push_back got1 {| begin := begin range; end_ := begin range + g |})
                   /\ chain (fun a b => end_ a <= begin b)
                        (push_back got1
                           {| begin := begin range; end_ := begin range + g |})).
    { split.
      - apply Forall_push_back. split; [exact Hg|]. unfold well_formed.
        cbn [begin end_]. lia.
      - apply chain_push_back. split; [exact Hcg|]. intros y Hy. cbn [begin].
        apply (Hlink' y Hy). }
    destruct Hgot as [Hgot1 Hgot2].
    assert (Hneed' : 0 <= sub64 need g).
    { unfold sub64. pose proof (wrap64_range (need - g)) as H. unfold is_size_t in H.
      lia. }
    destruct (Z.eqb_spec (begin range + g) (end_ range)) as [Heq|Hne].
    + rewrite pop_back_push_back.
      refine (conj Hv0 (conj Hcv0 (conj Hgot1 (conj Hgot2 (conj _ Hneed'))))).
      intros g' r Hback Hr. rewrite back_push_back in Hback. injection Hback as <-.
      cbn [end_]. rewrite Heq. apply (Hlast r Hr).
    + rewrite set_back_push_back.
      refine (conj _ (conj _ (conj Hgot1 (conj Hgot2 (conj _ Hneed'))))).
      * apply Forall_push_back. split; [exact Hv0|]. unfold well_formed.
        cbn [begin end_]. lia.
      * apply chain_push_back. split; [exact Hcv0|]. intros y Hy. cbn [end_].
        apply (Hlast y Hy).
      * intros g' r Hg'' Hr. rewrite back_push_back in Hg'', Hr.
        injection Hg'' as <-. injection Hr as <-. cbn [begin end_]. lia.
  - refine (conj Hwf (conj Hchain (conj _ (conj _ (conj _ Hneed))))).
    + constructor.
    + exact I.
    + intros g r Hg. discriminate.
Qed.
End TakeRangesOrder.

(** ** The streams of the spreader *)

Section SpreaderStreams.
Context `{CO : Collaborators}.
Variable this : MergeTreeDataSelectExecutor.
Variable random_shuffle : RangesInDataParts -> RangesInDataParts.
Variables (column_names : Names) (max_block_size : Z)
  (use_uncompressed_cache : bool)
  (prewhere_actions : option ExpressionActions) (prewhere_column : string).

Lemma reads_readers (cache : bool) (Q : DataPart -> MarkRanges -> Prop)
    (res : BlockInputStreams) :
  let R := reads this column_names max_block_size cache prewhere_actions
             prewhere_column Q in
  Forall (worker_stream R) res -> Forall R (flat_map readers res).
Proof.
  intros R. assert (Hleaf : forall s, R s -> readers s = [s]).
  { intros s (part & v & -> & _). reflexivity. }
  assert (Hleaves : forall l, Forall R l -> flat_map readers l = l).
  { induction 1 as [|s l Hs _ IH]; [reflexivity|].
    cbn [flat_map]. rewrite (Hleaf s Hs), IH. reflexivity. }
  induction 1 as [|s res Hs _ IH]; [constructor|].
  cbn [flat_map]. apply Forall_app. split; [|exact IH].
  destruct Hs as [Hs|(s1 & s2 & l & -> & Hl)].
  - rewrite (Hleaf s Hs). constructor; [exact Hs|constructor].
  - cbn [readers]. rewrite (Hleaves _ Hl). exact Hl.
Qed.

(** The count of the marks by the spreader is exact on parts it can
    spread. *)
Lemma counted_exact (parts : RangesInDataParts) :
  spreadable parts ->
  Permutation (random_shuffle parts) parts ->
  fold_left add64
    (map (fun part => sum_marks_in_ranges (ranges part))
       (map (fun part => {| data_part := data_part part; ranges := rev (ranges part) |})
          (random_shuffle parts)))
    0
  = parts_marks parts.
Proof.
  intros [Hwf Hfit] Hshuffle.
  assert (Hwf' : Forall (fun part => Forall well_formed (ranges part))
                   (random_shuffle parts))
    by (eapply Permutation_Forall; [apply Permutation_sym, Hshuffle|exact Hwf]).
  rewrite <- (parts_marks_permutation _ _ Hshuffle) in Hfit |- *.
  destruct (tied_initial 0 (random_shuffle parts) Hwf') as (Htied & Hsum & _);
    [|exact Hfit|].
  { eapply Forall_impl; [|exact Hwf']. intros part. apply total_marks_nonneg. }
  pose proof (parts_marks_nonneg _ Hwf').
  rewrite fold_add64_exact; [lia|apply (tied_nonneg _ _ _ Htied)|lia|lia].
Qed.

Lemma range_marks_total (v : MarkRanges) :
  Forall well_formed v ->
  Z.of_nat (List.length (flat_map range_marks v)) = total_marks v.
Proof.
  unfold total_marks. induction 1 as [|range v Hrange Hv IH]; [reflexivity|].
  cbn [flat_map fold_right]. rewrite length_app, range_marks_length, Nat2Z.inj_add, IH.
  unfold well_formed, marks_in in *. lia.
Qed.

(** X3: the spreader returns one stream for a thread at most, and every
    stream is a reader of a part or the concatenation of two readers or
    more. *)
Theorem spreadMarkRangesAmongThreads_stream_per_thread (parts : RangesInDataParts)
    (threads : Z) (res : BlockInputStreams) :
  0 <= threads < size_t_modulus ->
  spreadMarkRangesAmongThreads this random_shuffle parts threads column_names
    max_block_size use_uncompressed_cache prewhere_actions prewhere_column
  = Return res ->
  size res <= threads
  /\ exists cache,
       Forall
         (worker_stream
            (reads this column_names max_block_size cache prewhere_actions
               prewhere_column (fun _ _ => True)))
         res.
Proof.
  intros Hthreads Hrun.
  destruct (spreadMarkRangesAmongThreads_readers this random_shuffle
              (fun _ _ => True) (fun _ _ => True) parts threads column_names
              max_block_size use_uncompressed_cache prewhere_actions prewhere_column res)
    as [Hres Hsize]; auto.
  - apply Forall_forall. auto.
  - split; [exact Hsize|]. eexists. exact Hres.
Qed.

(** X4: every reader the spreader builds reads a part of its input, from
    the directory of that part, with the columns, the block size and the
    PREWHERE it was given; the cache of uncompressed blocks is used when it
    was asked for and the marks to read do not exceed
    [max_marks_to_use_cache]. *)
Theorem spreadMarkRangesAmongThreads_reader_arguments (parts : RangesInDataParts)
    (threads : Z) (res : BlockInputStreams) :
  spreadable parts ->
  Permutation (random_shuffle parts) parts ->
  0 <= threads < size_t_modulus ->
  spreadMarkRangesAmongThreads this random_shuffle parts threads column_names
    max_block_size use_uncompressed_cache prewhere_actions prewhere_column
  = Return res ->
  Forall
    (reads this column_names max_block_size
       (if parts_marks parts >? max_marks_to_use_cache this then false
        else use_uncompressed_cache)
       prewhere_actions prewhere_column
       (fun part _ => In part (map data_part parts)))
    (flat_map readers res).
Proof.
  intros Hparts Hshuffle Hthreads Hrun.
  rewrite <- (counted_exact parts Hparts Hshuffle).
  apply reads_readers.
  apply (spreadMarkRangesAmongThreads_readers this random_shuffle
           (fun part _ => In (data_part part) (map data_part parts))
           (fun part _ => In part (map data_part parts)) parts threads column_names
           max_block_size use_uncompressed_cache prewhere_actions prewhere_column res);
    auto.
  apply Forall_forall. intros part Hin. cbn [data_part]. apply in_map.
  eapply Permutation_in; [exact Hshuffle|exact Hin].
Qed.

(** X5: when the ranges of every part are listed from left to right
    without overlap, so are the ranges of every reader the spreader
    builds. *)
Theorem spreadMarkRangesAmongThreads_ranges_in_order (parts : RangesInDataParts)
    (threads : Z) (res : BlockInputStreams) :
  Forall (fun part => Forall well_formed (ranges part)
                      /\ chain (fun a b => end_ a <= begin b) (ranges part))
    parts ->
  Permutation (random_shuffle parts) parts ->
  0 <= threads < size_t_modulus ->
  spreadMarkRangesAmongThreads this random_shuffle parts threads column_names
    max_block_size use_uncompressed_cache prewhere_actions prewhere_column
  = Return res ->
  Forall
    (fun s => Forall well_formed (map snd (stream_ranges s))
              /\ chain (fun a b => end_ a <= begin b) (map snd (stream_ranges s)))
    (flat_map readers res).
Proof.
  intros Hparts Hshuffle Hthreads Hrun.
  destruct (spreadMarkRangesAmongThreads_readers this random_shuffle
              (fun part _ => Forall well_formed (ranges part)
                             /\ chain (fun a b => end_ b <= begin a) (ranges part))
              (fun _ v => Forall well_formed v
                          /\ chain (fun a b => end_ a <= begin b) v)
              parts threads column_names
              max_block_size use_uncompressed_cache prewhere_actions prewhere_column res)
    as [Hres _]; auto.
  - intros part _ [Hwf Hchain]. split; [apply Forall_rev, Hwf|].
    apply (chain_rev (fun a b => end_ b <= begin a)), Hchain.
  - intros part m need need' rest m' got [Hwf Hchain] Hpos. cbv zeta. intros Hlt Htake.
    apply take_ranges_ordered in Htake; try assumption.
    clear Htake Hlt. destruct ((m >=? _) && (need <? _)) eqn:E1.
    + apply andb_true_iff in E1. destruct E1 as [_ E1]. apply Z.ltb_lt in E1.
      destruct ((m >? _) && _) eqn:E2; [|lia].
      apply andb_true_iff in E2. destruct E2 as [E2 _]. apply Z.gtb_lt in E2. lia.
    + destruct ((m >? _) && _) eqn:E2; [|lia].
      apply andb_true_iff in E2. destruct E2 as [E2 _]. apply Z.gtb_lt in E2. lia.
  - apply Forall_forall. intros part Hin. cbn [ranges].
    assert (Hin' : In part parts) by (eapply Permutation_in; eassumption).
    rewrite Forall_forall in Hparts. destruct (Hparts part Hin') as [Hwf Hchain].
    split; [apply Forall_rev, Hwf|].
    apply (chain_rev (fun a b => end_ a <= begin b)), Hchain.
  - apply reads_readers in Hres. eapply Forall_impl; [|exact Hres].
    intros s (part & v & -> & HQ). cbn [stream_ranges].
    rewrite map_map. cbn [snd]. rewrite map_id. exact HQ.
Qed.

Lemma part_marks_fit (parts : RangesInDataParts) :
  spreadable parts ->
  Forall (fun part => total_marks (ranges part) < size_t_modulus) parts.
Proof.
  intros [Hwf Hfit]. unfold parts_marks, sum_list in Hfit.
  induction Hwf as [|part parts Hpart Hparts IH]; [constructor|].
  cbn [map fold_right] in Hfit.
  pose proof (total_marks_nonneg _ Hpart).
  pose proof (parts_marks_nonneg _ Hparts) as Hpos. unfold parts_marks, sum_list in Hpos.
  constructor; [lia|apply IH; lia].
Qed.

(** X6: a reader the spreader builds reads at least
    [min_marks_for_concurrent_read] marks, unless its part has fewer marks
    than that to read: a part is not cut into a share below the threshold. *)
Theorem spreadMarkRangesAmongThreads_least_share (parts : RangesInDataParts)
    (threads : Z) (res : BlockInputStreams) :
  is_size_t (min_marks_for_concurrent_read this) ->
  spreadable parts ->
  Permutation (random_shuffle parts) parts ->
  0 <= threads < size_t_modulus ->
  spreadMarkRangesAmongThreads this random_shuffle parts threads column_names
    max_block_size use_uncompressed_cache prewhere_actions prewhere_column
  = Return res ->
  Forall
    (reads this column_names max_block_size
       (if parts_marks parts >? max_marks_to_use_cache this then false
        else use_uncompressed_cache)
       prewhere_actions prewhere_column
       (fun part v =>
          exists p, In p parts /\ data_part p = part
                    /\ Z.min (min_marks_for_concurrent_read this)
                         (total_marks (ranges p))
                       <= total_marks v))
    (flat_map readers res).
Proof.
  intros Hc Hparts Hshuffle Hthreads Hrun.
  rewrite <- (counted_exact parts Hparts Hshuffle).
  apply reads_readers.
  set (c := min_marks_for_concurrent_read this) in *.
  set (known := fun (part : DataPart) (n : Z) =>
                  exists p, In p parts /\ data_part p = part
                            /\ Z.min c (total_marks (ranges p)) <= n).
  apply (spreadMarkRangesAmongThreads_readers this random_shuffle
           (fun part m =>
              Forall well_formed (ranges part) /\ m = total_marks (ranges part)
              /\ m < size_t_modulus /\ known (data_part part) m)
           (fun part v => known part (total_marks v)) parts threads column_names
           max_block_size use_uncompressed_cache prewhere_actions prewhere_column res);
    auto.
  - intros part m (_ & -> & _ & Hknown). rewrite total_marks_rev. exact Hknown.
  - intros part m need need' rest m' got (Hwf & -> & Hfit & (p & Hp & Hdp & Hmin)) Hpos.
    fold c. cbv zeta. set (total := total_marks (ranges part)) in *.
    set (need1 := if (total >=? c) && (need <? c) then c else need).
    intros Hlt Htake.
    unfold is_size_t in Hc.
    assert (Hneed1 : need <= need1 /\ (c <= total -> c <= need1)).
    { unfold need1. destruct (Z.geb_spec total c), (Z.ltb_spec need c);
        cbn [andb]; lia. }
    clearbody need1.
    assert (Hneed2 : (if (total >? need1) && (sub64 total need1 <? c)
                      then total else need1) = need1 /\ c <= total - need1).
    { revert Hlt. clear Htake.
      destruct (Z.gtb_spec total need1) as [Hgt|Hle]; cbn [andb]; [|lia].
      rewrite (sub64_small total) by (unfold is_size_t; lia).
      destruct (Z.ltb_spec (total - need1) c); [lia|]. intros _.
      split; [reflexivity|lia]. }
    destruct Hneed2 as [Heq Hrest]. rewrite Heq in Hlt, Htake.
    assert (Hrange : 0 < need1 < total) by lia.
    destruct (take_ranges_spec need1 (ranges part) Hwf Hrange Hfit)
      as (rest' & got' & Hrun' & Hwf' & Htotal & Hgot & Hperm).
    fold total in Hrun', Htotal. rewrite Hrun' in Htake.
    injection Htake as <- <- <- <-.
    assert (Hgot' : total_marks got' = need1).
    { apply Permutation_length in Hperm. rewrite length_app in Hperm.
      apply (f_equal Z.of_nat) in Hperm. rewrite Nat2Z.inj_add in Hperm.
      rewrite !range_marks_total in Hperm by assumption. fold total in Hperm. lia. }
    split.
    + exists p. rewrite Hgot'. split; [exact Hp|]. split; [exact Hdp|]. lia.
    + cbn [ranges data_part]. refine (conj Hwf' (conj _ (conj _ _))); try lia.
      exists p. split; [exact Hp|]. split; [exact Hdp|]. lia.
  - pose proof (part_marks_fit parts Hparts) as Hfit. destruct Hparts as [Hwf _].
    rewrite Forall_forall in Hwf, Hfit |- *. intros part Hin.
    assert (Hin' : In part parts) by (eapply Permutation_in; eassumption).
    cbn [ranges data_part].
    rewrite sum_marks_in_ranges_exact, total_marks_rev;
      [|apply Forall_rev, Hwf, Hin'|rewrite total_marks_rev; apply Hfit, Hin'].
    refine (conj _ (conj eq_refl (conj (Hfit _ Hin') _))).
    + apply Forall_rev, Hwf, Hin'.
    + exists part. split; [exact Hin'|]. split; [reflexivity|]. lia.
Qed.
End SpreaderStreams.

(** ** What the pruner selects *)

Section PrunerTight.
Context `{CO : Collaborators}.
Variable this : MergeTreeDataSelectExecutor.
Variables (index_ : Index) (key_condition : PKCondition).
Let key_size := size (getSortDescription (data this)).
Let marks_count := marks_count_of this index_.
Let granularity := coarse_index_granularity (settings (data this)).
Let seek := min_marks_for_seek this.
Let hit := accepted this index_ key_condition.

Hypothesis seek_fits : is_size_t seek.

(** A hit added to tight ranges leaves them tight. *)
Lemma add_mark_tight (res : MarkRanges) (t : MarkRange) :
  is_size_t marks_count ->
  Forall (proper marks_count) res ->
  Forall (tight seek hit) res ->
  (forall r, back res = Some r -> end_ r <= begin t) ->
  proper marks_count t ->
  end_ t = begin t + 1 ->
  hit (begin t) ->
  Forall (tight seek hit) (add_mark this res t).
Proof.
  intros HM Hres Htight Hlink Ht Hone Hhit. unfold add_mark.
  unfold is_size_t in seek_fits, HM.
  assert (Hnew : tight seek hit t).
  { refine (conj Hhit (conj _ _)).
    - replace (end_ t - 1) with (begin t) by lia. exact Hhit.
    - intros m Hm. exists (begin t). split; [lia|]. split; [lia|exact Hhit]. }
  destruct (vector_cases res) as [[-> Hb]|(res' & r & -> & Hb)]; rewrite Hb.
  - apply Forall_push_back. auto.
  - specialize (Hlink r Hb).
    apply Forall_push_back in Hres. destruct Hres as [Hres' Hr].
    apply Forall_push_back in Htight. destruct Htight as [Htight' (Hr1 & Hr2 & Hr3)].
    unfold proper in Hr, Ht.
    rewrite sub64_small by (unfold is_size_t; lia). fold seek.
    destruct (Z.gtb_spec (begin t - end_ r) seek) as [Hfar|Hnear].
    + apply Forall_push_back. split; [|exact Hnew].
      apply Forall_push_back. split; [exact Htight'|]. refine (conj Hr1 (conj Hr2 Hr3)).
    + rewrite set_back_push_back. apply Forall_push_back. split; [exact Htight'|].
      unfold tight. cbn [begin end_]. refine (conj Hr1 (conj _ _)).
      * rewrite Hone. replace (begin t + 1 - 1) with (begin t) by lia. exact Hhit.
      * intros m Hm.
        destruct (Z_lt_le_dec m (end_ r)) as [Hin|Hout]; [apply Hr3; lia|].
        destruct (Z.eq_dec m (begin t)) as [->|Hgap].
        -- exists (begin t). split; [lia|]. split; [lia|exact Hhit].
        -- exists (end_ r - 1). split; [lia|]. split; [lia|exact Hr2].
Qed.

Hypothesis granularity_fits : is_size_t granularity.
Hypothesis index_fits : is_size_t (size index_).

(** X7: under a condition that is not [alwaysTrue], every range the pruner
    returns starts and ends with a mark the condition accepted, and holds
    no run of more than [min_marks_for_seek] marks it did not accept. *)
Theorem markRangesFromPkRange_tight (fuel : nat) (res : MarkRanges) :
  alwaysTrue key_condition = false ->
  markRangesFromPkRange this fuel index_ key_condition = Return res ->
  Forall (tight seek hit) res.
Proof.
  intros Hcond. unfold markRangesFromPkRange. fold key_size.
  destruct (key_size =? 0) eqn:Ekey; [discriminate|]. apply Z.eqb_neq in Ekey.
  pose proof (marks_count_fits this index_ index_fits Ekey) as HM.
  rewrite Hcond. change (size index_ / key_size) with marks_count.
  destruct (while_ fuel _ _ _) as [[stack res']| | | |] eqn:Eloop;
    cbn [bind]; try discriminate.
  intros [= <-].
  destruct (Z.eq_dec marks_count 0) as [H0|Hpos].
  { apply (descent_of_empty_index this index_ key_condition fuel fuel) in Eloop;
      [|exact H0].
    injection Eloop as -> ->. constructor. }
  assert (Hnone : forall range, proper marks_count range ->
            (exists m, begin range <= m < end_ range /\ False) ->
            may_be_true index_ key_condition key_size marks_count range = Return true).
  { intros range _ (m & _ & []). }
  apply (while_invariant _ _
           (fun st => pruner_invariant this (fun _ => False) marks_count st
                      /\ Forall (tight seek hit) (snd st)))
    in Eloop.
  - apply Eloop.
  - intros s s' [Hs Htight] _ Hbody. split.
    + apply (descend_step this marks_count HM index_ key_condition (fun _ => False)
               (proj1 granularity_fits) Hnone fuel s s' Hs Hbody).
    + destruct s as [stack1 res1]. cbn [snd] in Htight.
      destruct Hs as (Hall & _ & Hres & _ & Hlink & _).
      unfold descend in Hbody.
      destruct (vector_cases stack1) as [[-> Hb]|(stack0 & t & -> & Hb)];
        rewrite Hb in Hbody; [discriminate|].
      apply Forall_push_back in Hall. destruct Hall as [_ Ht].
      assert (Ht' := Ht). unfold proper in Ht'. unfold is_size_t in HM.
      destruct (may_be_true index_ key_condition key_size marks_count t)
        as [[|]| | | |] eqn:Emay; cbn [bind negb] in Hbody; try discriminate;
        [|injection Hbody as <-; exact Htight].
      rewrite (add64_small (begin t)) in Hbody by (unfold is_size_t; lia).
      destruct (Z.eqb_spec (end_ t) (begin t + 1)) as [Hone|_].
      * injection Hbody as <-. cbn [snd].
        apply add_mark_tight; try assumption.
        -- intros r Hr. apply (Hlink t r Hb Hr).
        -- unfold hit, accepted. fold key_size marks_count. rewrite <- Hone.
           destruct t as [b e]. exact Emay.
      * destruct (_ =? 0); [discriminate|].
        destruct (split_loop _ _ _ _) as [[e stack2]| | | |]; cbn [bind] in Hbody;
          try discriminate.
        injection Hbody as <-. exact Htight.
  - split; [|constructor]. unfold pruner_invariant. cbn [push_back app].
    unfold is_size_t in HM.
    refine (conj _ (conj I (conj (Forall_nil _) (conj I (conj _ _))))).
    + constructor; [|constructor]. unfold proper. cbn. lia.
    + intros t r _. discriminate.
    + intros m _ [].
Qed.
End PrunerTight.

Section PrunerExtremes.
Context `{CO : Collaborators}.
Variable this : MergeTreeDataSelectExecutor.
Variables (index_ : Index) (key_condition : PKCondition).
Let key_size := size (getSortDescription (data this)).
Let marks_count := marks_count_of this index_.
Let granularity := coarse_index_granularity (settings (data this)).
Let seek := min_marks_for_seek this.

(** Ranges in order that cover all the marks below [marks_count] are the
    one range of all the marks. *)
Lemma covering_ranges (M seek_ : Z) (res : MarkRanges) :
  0 <= seek_ -> 1 <= M ->
  Forall (fun range => 0 <= begin range /\ begin range <= end_ range <= M) res ->
  separated seek_ res ->
  (forall m, 0 <= m < M -> covers res m) ->
  res = [{| begin := 0; end_ := M |}].
Proof.
  intros Hseek HM Hall Hsep Hcov.
  assert (Hpairs : ForallOrdPairs (fun a b => end_ a + seek_ < begin b) res).
  { apply separated_pairwise; [exact Hseek| |exact Hsep].
    eapply Forall_impl; [|exact Hall]. cbn. intros r Hr. lia. }
  destruct res as [|a [|b res]].
  - destruct (Hcov 0 ltac:(lia)) as (r & [] & _).
  - destruct (Hcov 0 ltac:(lia)) as (r0 & [<-|[]] & H0).
    destruct (Hcov (M - 1) ltac:(lia)) as (r1 & [<-|[]] & H1).
    inversion Hall as [|? ? Ha _]; subst. destruct a as [b e]. cbn [begin end_] in *.
    replace b with 0 by lia. replace e with M by lia. reflexivity.
  - exfalso. inversion Hpairs as [|? ? Ha _]; subst.
    inversion Hall as [|? ? Hwa Hrest]; subst. inversion Hrest as [|? ? Hwb _]; subst.
    inversion Ha as [|? ? Hab Hothers]; subst.
    destruct (Hcov (end_ a) ltac:(lia)) as (c & Hc & Hin).
    destruct Hc as [<-|Hc]; [lia|].
    rewrite Forall_forall in Ha. specialize (Ha c Hc). cbn in Ha. lia.
Qed.

Hypothesis seek_fits : is_size_t seek.
Hypothesis granularity_fits : is_size_t granularity.
Hypothesis index_fits : is_size_t (size index_).

(** X8: a condition that accepts every range of marks selects the one
    range of all the marks of the part, as the shortcut for [alwaysTrue]
    does; with a granularity of 2 at least the pruner returns it. *)
Theorem markRangesFromPkRange_accepts_all :
  (forall range,
     proper marks_count range ->
     may_be_true index_ key_condition key_size marks_count range = Return true) ->
  1 <= marks_count ->
  (forall fuel res,
     markRangesFromPkRange this fuel index_ key_condition = Return res ->
     res = [{| begin := 0; end_ := marks_count |}])
  /\ (2 <= granularity ->
      forall fuel, (Z.to_nat (2 * marks_count) <= fuel)%nat ->
      markRangesFromPkRange this fuel index_ key_condition
      = Return [{| begin := 0; end_ := marks_count |}]).
Proof.
  intros Hall HM.
  assert (Hpartial : forall fuel res,
            markRangesFromPkRange this fuel index_ key_condition = Return res ->
            res = [{| begin := 0; end_ := marks_count |}]).
  { intros fuel res Hres.
    destruct (markRangesFromPkRange_sound this index_ key_condition
                granularity_fits index_fits (fun _ => True) fuel res)
      as (Hbounds & Hsep & Hcov); [|exact Hres|].
    - intros range Hrange _. apply Hall, Hrange.
    - apply (covering_ranges marks_count seek); auto.
      apply seek_fits. }
  split; [exact Hpartial|]. intros Hg fuel Hfuel.
  destruct (markRangesFromPkRange_returns this index_ key_condition granularity_fits
              index_fits fuel) as [res Hres]; try assumption.
  - intros Hkey. unfold marks_count, marks_count_of in HM.
    unfold key_size in Hkey. rewrite Hkey, Z.div_0_r in HM. lia.
  - rewrite Hres. f_equal. apply (Hpartial fuel res Hres).
Qed.
End PrunerExtremes.

(** ** Descents that do not end *)

Section PrunerLoops.
Context `{CO : Collaborators}.
Variable this : MergeTreeDataSelectExecutor.
Variables (index_ : Index) (key_condition : PKCondition).
Let key_size := size (getSortDescription (data this)).
Let marks_count := marks_count_of this index_.
Let granularity := coarse_index_granularity (settings (data this)).

(** A loop whose body returns the state it was given, on a state that
    satisfies the condition, runs out of every fuel. *)
Lemma while_fixed_point {S : Type} (cond : S -> bool) (body : S -> outcome S) (s : S) :
  cond s = true -> body s = Return s ->
  forall fuel, while_ fuel cond body s = OutOfFuel.
Proof.
  intros Hcond Hbody. induction fuel as [|fuel IH]; cbn [while_]; rewrite Hcond;
    [reflexivity|].
  rewrite Hbody. exact IH.
Qed.

(** X9: with [coarse_index_granularity = 1] the pruner does not return
    when the condition accepts the whole of an index of two marks or more:
    the range is split into itself. *)
Theorem markRangesFromPkRange_granularity_one :
  is_size_t (size index_) ->
  getSortDescription (data this) <> [] ->
  granularity = 1 ->
  alwaysTrue key_condition = false ->
  2 <= marks_count ->
  may_be_true index_ key_condition key_size marks_count
    {| begin := 0; end_ := marks_count |} = Return true ->
  forall fuel, markRangesFromPkRange this fuel index_ key_condition = OutOfFuel.
Proof.
  intros Hindex Hkey Hg Hcond HM Hmay fuel.
  assert (Ekey : key_size <> 0).
  { unfold key_size, size. destruct (getSortDescription (data this));
      [contradiction|cbn; lia]. }
  pose proof (marks_count_fits this index_ Hindex Ekey) as Hfits.
  fold marks_count in Hfits. unfold is_size_t in Hfits.
  unfold markRangesFromPkRange. fold key_size.
  destruct (Z.eqb_spec key_size 0) as [|_]; [contradiction|].
  rewrite Hcond. change (size index_ / key_size) with marks_count.
  rewrite while_fixed_point; [reflexivity|reflexivity|].
  unfold descend. rewrite back_push_back, pop_back_push_back, Hmay.
  cbn [bind negb begin end_].
  change (add64 0 1) with 1.
  destruct (Z.eqb_spec marks_count 1) as [|_]; [lia|].
  fold granularity. rewrite Hg. cbn [Z.eqb].
  rewrite (sub64_small marks_count 0) by (unfold is_size_t; lia).
  rewrite sub64_small by (unfold is_size_t; lia).
  rewrite Z.div_1_r.
  rewrite add64_small by (unfold is_size_t; lia).
  replace (marks_count - 0 - 1 + 1) with marks_count by lia.
  unfold split_loop. cbn [begin end_].
  rewrite (add64_small 0) by (unfold is_size_t; lia).
  assert (Hexit : (marks_count >? 0 + marks_count) = false) by lia.
  destruct fuel; cbn [while_]; rewrite Hexit; reflexivity.
Qed.

End PrunerLoops.

(** ** The readers of the FINAL spreader *)

Section FinalStreams.
Context `{CO : Collaborators}.
Variable this : MergeTreeDataSelectExecutor.
Variables (threads : Z) (column_names : Names) (max_block_size : Z)
  (use_uncompressed_cache : bool)
  (prewhere_actions : option ExpressionActions) (prewhere_column : string).

(** The count of the marks by the FINAL spreader is exact on parts it can
    spread. *)
Lemma final_count_exact (parts : RangesInDataParts) (sum : Z) :
  Forall (fun part => Forall well_formed (ranges part)) parts ->
  0 <= sum -> sum + parts_marks parts < size_t_modulus ->
  fold_left
    (fun sum part =>
       fold_left (fun sum range => add64 sum (sub64 (end_ range) (begin range)))
         (ranges part) sum)
    parts sum
  = sum + parts_marks parts.
Proof.
  intros Hwf. revert sum. unfold parts_marks, sum_list.
  induction Hwf as [|part parts Hpart Hparts IH]; intros sum Hsum Hfit;
    cbn [fold_left map fold_right] in *; [lia|].
  pose proof (total_marks_nonneg _ Hpart).
  pose proof (parts_marks_nonneg _ Hparts) as Hpos. unfold parts_marks, sum_list in Hpos.
  rewrite fold_marks_exact by (try assumption; lia).
  rewrite IH by lia. lia.
Qed.

(** X11: the FINAL spreader gives every part one reader, over the ranges
    selected in the part and in the order of the parts, whatever the number
    of threads; the readers get the arguments of the spreader, and the cache
    of uncompressed blocks when it was asked for and the marks to read do
    not exceed [max_marks_to_use_cache]. *)
Theorem spreadMarkRangesAmongThreadsFinal_readers (parts : RangesInDataParts) :
  let res :=
    spreadMarkRangesAmongThreadsFinal this parts threads column_names max_block_size
      use_uncompressed_cache prewhere_actions prewhere_column in
  flat_map stream_ranges res = flat_map part_ranges parts
  /\ (spreadable parts ->
      flat_map readers res
      = map (fun part =>
               MergeTreeBlockInputStream
                 (getFullPath (data this) ++ name (data_part part) ++ "/")%string
                 max_block_size column_names (data_part part) (ranges part)
                 (if parts_marks parts >? max_marks_to_use_cache this then false
                  else use_uncompressed_cache)
                 prewhere_actions prewhere_column)
          parts).
Proof.
  cbv zeta. unfold spreadMarkRangesAmongThreadsFinal, createPositiveSignCondition.
  set (sum := fold_left _ parts 0).
  set (cache := if sum >? _ then false else use_uncompressed_cache).
  set (stream := fun part => ExpressionBlockInputStream _ _).
  assert (Hranges : forall l,
            flat_map stream_ranges (map stream l) = flat_map part_ranges l).
  { induction l as [|part l IH]; [reflexivity|].
    cbn [map flat_map]. rewrite IH. reflexivity. }
  assert (Hreaders : forall l,
            flat_map readers (map stream l)
            = map (fun part =>
                     part_stream this column_names max_block_size cache
                       prewhere_actions prewhere_column part (ranges part))
                l).
  { induction l as [|part l IH]; [reflexivity|].
    cbn [map flat_map]. rewrite IH. reflexivity. }
  specialize (Hranges parts). specialize (Hreaders parts).
  split.
  - destruct parts as [|part1 [|part2 parts']]; [reflexivity| |].
    + cbn [map flat_map stream_ranges] in *. exact Hranges.
    + cbn [map] in *. unfold flat_map at 1. rewrite app_nil_r. exact Hranges.
  - intros [Hwf Hfit].
    assert (Hsum : sum = parts_marks parts).
    { unfold sum. rewrite final_count_exact; [lia|exact Hwf|lia|lia]. }
    rewrite <- Hsum. fold cache.
    destruct parts as [|part1 [|part2 parts']]; [reflexivity| |].
    + cbn [map flat_map readers] in *. exact Hreaders.
    + cbn [map] in *. unfold flat_map at 1. rewrite app_nil_r. exact Hreaders.
Qed.
End FinalStreams.

(** ** What [read] reads *)

Section PlannerSelection.
Context `{CO : Collaborators}.
Variable this : MergeTreeDataSelectExecutor.

(** The ranges the pruner returns for a part that has a mark hold a mark
    each. *)
Lemma markRangesFromPkRange_proper (fuel : nat) (index_ : Index)
    (key_condition : PKCondition) (res : MarkRanges) :
  is_size_t (coarse_index_granularity (settings (data this))) ->
  is_size_t (size index_) ->
  1 <= marks_count_of this index_ ->
  markRangesFromPkRange this fuel index_ key_condition = Return res ->
  Forall (proper (marks_count_of this index_)) res.
Proof.
  intros Hg Hindex HM1. unfold markRangesFromPkRange.
  destruct (size (getSortDescription (data this)) =? 0) eqn:Ekey; [discriminate|].
  apply Z.eqb_neq in Ekey.
  pose proof (marks_count_fits this index_ Hindex Ekey) as HM.
  fold (marks_count_of this index_). set (marks_count := marks_count_of this index_) in *.
  unfold is_size_t in HM.
  destruct (alwaysTrue key_condition).
  - intros [= <-]. constructor; [|constructor]. unfold proper. cbn. lia.
  - destruct (while_ fuel _ _ _) as [[stack res']| | | |] eqn:Eloop;
      cbn [bind]; try discriminate.
    intros [= <-].
    assert (Hnone : forall range, proper marks_count range ->
              (exists m, begin range <= m < end_ range /\ False) ->
              may_be_true index_ key_condition (size (getSortDescription (data this)))
                marks_count range = Return true).
    { intros range _ (m & _ & []). }
    apply (while_invariant _ _ (pruner_invariant this (fun _ => False) marks_count))
      in Eloop.
    + destruct Eloop as [(_ & _ & Hres & _) _]. exact Hres.
    + intros s s' Hs _ Hbody.
      apply (descend_step this marks_count HM index_ key_condition (fun _ => False)
               (proj1 Hg) Hnone fuel s s' Hs Hbody).
    + unfold pruner_invariant. cbn [push_back app].
      refine (conj _ (conj I (conj (Forall_nil _) (conj I (conj _ _))))).
      * constructor; [|constructor]. unfold proper. cbn. lia.
      * intros t r _. discriminate.
      * intros m _ [].
Qed.

(** The parts the selection keeps, in the order of the parts: those whose
    pruning returned ranges, each with these ranges. *)
Lemma select_ranges_spec (fuel : nat) (key_condition : PKCondition)
    (parts : list DataPart) (acc parts_with_ranges : RangesInDataParts) :
  for_each parts
    (fun parts_with_ranges part =>
       ranges_ <- markRangesFromPkRange this fuel (index part) key_condition ;;
       if negb (empty ranges_)
       then Return (push_back parts_with_ranges
                      {| data_part := part; ranges := ranges_ |})
       else Return parts_with_ranges)
    acc = Return parts_with_ranges ->
  exists new,
    parts_with_ranges = acc ++ new
    /\ Forall (fun part =>
                 In (data_part part) parts
                 /\ markRangesFromPkRange this fuel (index (data_part part)) key_condition
                    = Return (ranges part)
                 /\ ranges part <> [])
         new
    /\ forall part, In part parts ->
         exists ranges_,
           markRangesFromPkRange this fuel (index part) key_condition = Return ranges_
           /\ (ranges_ <> [] -> In {| data_part := part; ranges := ranges_ |} new).
Proof.
  revert acc. induction parts as [|part parts IH]; intros acc; cbn [for_each].
  - intros [= <-]. exists []. rewrite app_nil_r.
    split; [reflexivity|]. split; [constructor|]. intros part [].
  - destruct (markRangesFromPkRange this fuel (index part) key_condition)
      as [ranges_| | | |] eqn:Eranges; cbn [bind]; try discriminate.
    destruct ranges_ as [|range ranges_]; cbn [empty negb bind]; intros Hrest;
      destruct (IH _ Hrest) as (new & -> & Hnew & Hall).
    + exists new. split; [reflexivity|]. split.
      * eapply Forall_impl; [|exact Hnew]. cbn beta. intros p (Hin & Hp). split; [right|]; assumption.
      * intros part' [<-|Hin]; [|apply Hall, Hin].
        exists []. split; [exact Eranges|]. intros H. contradiction.
    + exists ({| data_part := part; ranges := range :: ranges_ |} :: new).
      unfold push_back. rewrite <- app_assoc. split; [reflexivity|]. split.
      * constructor.
        -- cbn [data_part ranges]. split; [left; reflexivity|].
           split; [exact Eranges|discriminate].
        -- eapply Forall_impl; [|exact Hnew]. cbn beta. intros p (Hin & Hp).
           split; [right|]; assumption.
      * intros part' [<-|Hin].
        -- exists (range :: ranges_). split; [exact Eranges|]. intros _. left. reflexivity.
        -- destruct (Hall part' Hin) as (rs & Hrs & Hkeep). exists rs.
           split; [exact Hrs|]. intros Hne. right. apply Hkeep, Hne.
Qed.

End PlannerSelection.

Section PlannerReads.
Context `{CO : Collaborators}.
Variable this : MergeTreeDataSelectExecutor.
Variable random_shuffle : RangesInDataParts -> RangesInDataParts.
Variables (fuel : nat) (column_names : Names) (query : ASTSelectQuery)
  (use_uncompressed_cache : bool) (max_block_size threads : Z).

Hypothesis seek_fits : is_size_t (min_marks_for_seek this).
Hypothesis concurrent_fits : is_size_t (min_marks_for_concurrent_read this).
Hypothesis granularity_fits : is_size_t (coarse_index_granularity (settings (data this))).
Hypothesis snapshot_fits :
  sum_list (map (fun part => size (index part)) (getDataParts (data this)))
  < size_t_modulus.
Hypothesis threads_fit : 0 < threads < size_t_modulus.
Hypothesis shuffle_permutes : forall parts, Permutation (random_shuffle parts) parts.

Lemma parts_by_date_fit :
  Forall (fun part => is_size_t (size (index part))) (parts_by_date this query)
  /\ sum_list (map (fun part => size (index part)) (parts_by_date this query))
     < size_t_modulus.
Proof.
  assert (Hle : sum_list (map (fun part => size (index part)) (parts_by_date this query))
                <= sum_list (map (fun part => size (index part))
                               (getDataParts (data this)))).
  { apply sum_list_filter_le. intros part. unfold size. lia. }
  split; [|lia].
  apply (sum_list_bounds_elements (fun part => size (index part))).
  - intros part. unfold size. lia.
  - lia.
Qed.

(** The parts selected for a query can be spread. *)
Lemma selected_parts_spreadable (key_condition : PKCondition)
    (parts_with_ranges : RangesInDataParts) :
  select_ranges this fuel (parts_by_date this query) key_condition
  = Return parts_with_ranges ->
  spreadable parts_with_ranges.
Proof.
  intros Hselect. destruct parts_by_date_fit as [Hfit Hsum].
  destruct (select_ranges_fit this fuel _ _ [] parts_with_ranges seek_fits
              granularity_fits Hfit Hselect) as (new & -> & Hwf & Hle).
  cbn [app]. split; [exact Hwf|lia].
Qed.

Lemma worker_stream_parts (names : Names) (cache : bool)
    (prewhere_actions : option ExpressionActions) (prewhere_column : string)
    (Q : DataPart -> Prop) (res : BlockInputStreams) :
  Forall
    (worker_stream
       (reads this names max_block_size cache prewhere_actions prewhere_column
          (fun part _ => Q part)))
    res ->
  forall part, In part (map fst (flat_map stream_ranges res)) -> Q part.
Proof.
  intros Hres part Hin. apply in_map_iff in Hin. destruct Hin as ([part' range] & <- & Hin).
  apply in_flat_map in Hin. destruct Hin as (s & Hs & Hin).
  rewrite Forall_forall in Hres. specialize (Hres s Hs).
  assert (Hreader : forall r,
            reads this names max_block_size cache prewhere_actions prewhere_column
              (fun part _ => Q part) r ->
            In (part', range) (stream_ranges r) -> Q part').
  { intros r (p & v & -> & HQ) Hr. cbn [stream_ranges] in Hr.
    apply in_map_iff in Hr. destruct Hr as (x & [= <- _] & _). exact HQ. }
  destruct Hres as [Hr|(s1 & s2 & l & -> & Hl)]; [apply (Hreader s Hr Hin)|].
  cbn [stream_ranges] in Hin. apply in_flat_map in Hin. destruct Hin as (r & Hr & Hin).
  rewrite Forall_forall in Hl. apply (Hreader r (Hl r Hr) Hin).
Qed.

(** A run of [read] that returns: the streams read from the parts the
    selection kept, and from no other part. *)
Lemma read_sources (stage : QueryProcessingStage) (res : BlockInputStreams) :
  read this random_shuffle fuel column_names query use_uncompressed_cache
    max_block_size threads = Return (stage, res) ->
  exists sampled parts_with_ranges,
    sampling this fuel query (parts_by_date this query) (key_condition_of this query)
      column_names = Return sampled
    /\ select_ranges this fuel (parts_by_date this query) (sampled_key_condition sampled)
       = Return parts_with_ranges
    /\ forall part, In part (map fst (flat_map stream_ranges res)) ->
         In part (map data_part parts_with_ranges).
Proof.
  intros Hrun. apply read_returns in Hrun.
  destruct Hrun as (sampled & parts & res0 & _ & _ & Hsampled & Hparts & Hres0 & ->).
  exists sampled, parts. split; [exact Hsampled|]. split; [exact Hparts|].
  assert (Hfrom : forall part, In part (map fst (flat_map stream_ranges res0)) ->
                    In part (map data_part parts)).
  { unfold spreads in Hres0. destruct (final query).
    - subst res0.
      destruct (spreadMarkRangesAmongThreadsFinal_readers this threads
                  (std_unique
                     (std_sort
                        (push_back
                           (sampled_column_names sampled
                            ++ getRequiredColumns (getPrimaryExpression (data this)))
                           (sign_column (data this)))))
                  max_block_size use_uncompressed_cache
                  (option_map getActions (prewhere_expression query))
                  match prewhere_expression query with
                  | Some expression => getColumnName expression
                  | None => EmptyString
                  end parts) as [Hranges _].
      cbv zeta in Hranges. intros part. rewrite Hranges. intros Hin.
      apply in_map_iff in Hin. destruct Hin as ([p r] & <- & Hin).
      apply in_flat_map in Hin. destruct Hin as (x & Hx & Hin).
      unfold part_ranges in Hin. apply in_map_iff in Hin.
      destruct Hin as (y & [= <- _] & _). cbn [fst]. apply in_map, Hx.
    - assert (Hthreads : 0 <= threads < size_t_modulus) by lia.
      assert (Hin : Forall
                      (fun part =>
                         In (data_part {| data_part := data_part part;
                                          ranges := rev (ranges part) |})
                           (map data_part parts))
                      (random_shuffle parts)).
      { apply Forall_forall. intros part Hin. cbn [data_part]. apply in_map.
        eapply Permutation_in; [apply shuffle_permutes|exact Hin]. }
      pose proof (spreadMarkRangesAmongThreads_readers this random_shuffle
                    (fun part _ => In (data_part part) (map data_part parts))
                    (fun part _ => In part (map data_part parts)) parts threads
                    (sampled_column_names sampled) max_block_size
                    use_uncompressed_cache
                    (option_map getActions (prewhere_expression query))
                    match prewhere_expression query with
                    | Some expression => getColumnName expression
                    | None => EmptyString
                    end res0 (fun part _ H => H)
                    (fun part _ _ _ _ _ _ H _ _ _ => conj H H) Hthreads Hin Hres0)
        as [Hworkers _].
      apply (worker_stream_parts _ _ _ _ _ _ Hworkers). }
  destruct (filter_function sampled), (filter_expression sampled); try assumption.
  rewrite sampled_streams_ranges. exact Hfrom.
Qed.

(** A run of [read] that returns: the streams read the marks the
    selection kept, every mark once. *)
Lemma read_selection (stage : QueryProcessingStage) (res : BlockInputStreams) :
  read this random_shuffle fuel column_names query use_uncompressed_cache
    max_block_size threads = Return (stage, res) ->
  exists sampled parts_with_ranges,
    sampling this fuel query (parts_by_date this query) (key_condition_of this query)
      column_names = Return sampled
    /\ select_ranges this fuel (parts_by_date this query) (sampled_key_condition sampled)
       = Return parts_with_ranges
    /\ Permutation (flat_map stream_marks res) (flat_map part_marks parts_with_ranges).
Proof.
  intros Hrun. apply read_returns in Hrun.
  destruct Hrun as (sampled & parts & res0 & _ & _ & Hsampled & Hparts & Hres0 & ->).
  exists sampled, parts. split; [exact Hsampled|]. split; [exact Hparts|].
  pose proof (selected_parts_spreadable _ _ Hparts) as Hspread.
  assert (Hperm : Permutation (flat_map stream_marks res0) (flat_map part_marks parts)).
  { unfold spreads in Hres0. destruct (final query).
    - subst res0.
      destruct (spreadMarkRangesAmongThreadsFinal_readers this threads
                  (std_unique
                     (std_sort
                        (push_back
                           (sampled_column_names sampled
                            ++ getRequiredColumns (getPrimaryExpression (data this)))
                           (sign_column (data this)))))
                  max_block_size use_uncompressed_cache
                  (option_map getActions (prewhere_expression query))
                  match prewhere_expression query with
                  | Some expression => getColumnName expression
                  | None => EmptyString
                  end parts) as [Hranges _].
      cbv zeta in Hranges.
      rewrite flat_map_stream_marks, Hranges, <- flat_map_part_marks.
      apply Permutation_refl.
    - destruct (spreadMarkRangesAmongThreads_spec this random_shuffle 0 parts threads
                  (sampled_column_names sampled) max_block_size use_uncompressed_cache
                  (option_map getActions (prewhere_expression query))
                  match prewhere_expression query with
                  | Some expression => getColumnName expression
                  | None => EmptyString
                  end ltac:(lia) concurrent_fits Hspread)
        as [(r & Hr & _ & Hperm)|[_ Hr]]; try (rewrite Hr in Hres0).
      + destruct Hspread as [Hwf _]. eapply Forall_impl; [|exact Hwf].
        intros part. apply total_marks_nonneg.
      + exact threads_fit.
      + apply shuffle_permutes.
      + injection Hres0 as <-. exact Hperm.
      + discriminate. }
  destruct (filter_function sampled), (filter_expression sampled); try assumption.
  rewrite flat_map_stream_marks, sampled_streams_ranges, <- flat_map_stream_marks.
  exact Hperm.
Qed.

Lemma sampling_without_sample (parts : list DataPart) (key_condition : PKCondition)
    (sampled : Sampling) :
  sample_size query = None ->
  sampling this fuel query parts key_condition column_names = Return sampled ->
  sampled = {| sampled_key_condition := key_condition;
               sampled_column_names := column_names;
               sampling_column_value_limit := 0;
               filter_function := None;
               filter_expression := None |}.
Proof. unfold sampling. intros ->. intros [= <-]. reflexivity. Qed.

(** The condition a sampling step that returns leaves behind. *)
Lemma sampling_condition (sampled : Sampling) :
  sampling this fuel query (parts_by_date this query) (key_condition_of this query)
    column_names = Return sampled ->
  selection_condition this fuel query (sampled_key_condition sampled).
Proof.
  intros Hsampled. unfold selection_condition.
  destruct (sample_size query) as [sample_ast|] eqn:Esample.
  - destruct (sampling_literal this fuel query _ _ column_names sampled sample_ast
                Esample Hsampled) as (value & type_ & ->).
    destruct (sampling_returns this fuel query _ _ column_names sampled value type_
                Esample Hsampled)
      as (_ & relative & max & limit & Hrelative & Hmax & Hlimit & Hadd & _).
    exists value, type_, relative, max, limit.
    split; [reflexivity|]. split; [exact Hrelative|]. split; [|split; assumption].
    destruct (sampling_column_max_of_spec (sampling_column_type this))
      as [(max' & Emax & Hgood)|[[msg Emax] _]]; rewrite Emax in Hmax;
      [injection Hmax as <-; exact Hgood|discriminate].
  - rewrite (sampling_without_sample _ _ _ Esample Hsampled). reflexivity.
Qed.

(** X12: the streams [read] returns read the marks of the ranges the
    pruner selected in the parts that passed the date condition, each mark
    once and no other mark; the pruner selected them under the key condition
    of the query, bounded for a query with a sample by the cutoff of the
    sample on the sampling column. *)
Theorem read_reads_selected_marks (stage : QueryProcessingStage)
    (res : BlockInputStreams) :
  read this random_shuffle fuel column_names query use_uncompressed_cache
    max_block_size threads = Return (stage, res) ->
  exists key_condition parts_with_ranges,
    selection_condition this fuel query key_condition
    /\ select_ranges this fuel (parts_by_date this query) key_condition
       = Return parts_with_ranges
    /\ Forall (fun part =>
                 markRangesFromPkRange this fuel (index (data_part part)) key_condition
                 = Return (ranges part))
         parts_with_ranges
    /\ Permutation (flat_map stream_marks res) (flat_map part_marks parts_with_ranges).
Proof.
  intros Hrun. destruct (read_selection stage res Hrun)
    as (sampled & parts & Hsampled & Hparts & Hperm).
  exists (sampled_key_condition sampled), parts.
  split; [apply sampling_condition, Hsampled|]. split; [exact Hparts|].
  split; [|exact Hperm].
  destruct (select_ranges_spec this fuel _ _ [] parts Hparts) as (new & -> & Hnew & _).
  cbn [app]. eapply Forall_impl; [|exact Hnew]. cbn beta. intros part (_ & H & _).
  exact H.
Qed.

(** X13: a part a stream of [read] reads from is a part of the snapshot
    whose dates the date condition of the query accepts, and in which the
    pruner selected a range under the condition [read] selects the ranges
    under. *)
Theorem read_parts_pass_date (stage : QueryProcessingStage) (res : BlockInputStreams)
    (s : BlockInputStream) (part : DataPart) :
  read this random_shuffle fuel column_names query use_uncompressed_cache
    max_block_size threads = Return (stage, res) ->
  In s res -> references s part ->
  In part (getDataParts (data this))
  /\ mayBeTrueInRange (PKCondition_new query [date_column_name (data this)])
       (mkFieldPtr [UInt64 (left_date part)] 0)
       (mkFieldPtr [UInt64 (right_date part)] 0) = true
  /\ exists key_condition ranges_,
       selection_condition this fuel query key_condition
       /\ markRangesFromPkRange this fuel (index part) key_condition = Return ranges_
       /\ ranges_ <> [].
Proof.
  intros Hrun Hs Href. destruct (read_sources stage res Hrun)
    as (sampled & parts & Hsampled & Hparts & Hfrom).
  assert (Hin : In part (map data_part parts)).
  { apply Hfrom. unfold references in Href. apply in_map_iff in Href.
    destruct Href as (x & <- & Hx). apply in_map. apply in_flat_map. exists s. auto. }
  apply in_map_iff in Hin. destruct Hin as (p & <- & Hp).
  destruct (select_ranges_spec this fuel _ _ [] parts Hparts) as (new & -> & Hnew & _).
  cbn [app] in Hp. rewrite Forall_forall in Hnew.
  destruct (Hnew p Hp) as (Hdate & Hranges & Hne).
  unfold parts_by_date, select_parts_by_date in Hdate. apply filter_In in Hdate.
  destruct Hdate as [Hsnapshot Hdate].
  split; [exact Hsnapshot|]. split; [exact Hdate|].
  exists (sampled_key_condition sampled), (ranges p).
  split; [apply sampling_condition, Hsampled|]. split; assumption.
Qed.


Lemma proper_total_marks (marks_count : Z) (v : MarkRanges) :
  Forall (proper marks_count) v -> v <> [] -> 1 <= total_marks v.
Proof.
  intros Hv Hne. destruct Hv as [|range v Hrange Hv]; [contradiction|].
  assert (Hpos : 0 <= total_marks v).
  { clear Hne. unfold total_marks. induction Hv as [|r v Hr _ IH]; cbn [fold_right]; [lia|].
    unfold proper, marks_in in *. lia. }
  unfold total_marks in *. cbn [fold_right]. unfold proper, marks_in in *. lia.
Qed.

(** The selection returns when the pruner returns for every part. *)
Lemma select_ranges_returns (key_condition : PKCondition) (parts : list DataPart)
    (acc : RangesInDataParts) :
  Forall (fun part =>
            exists ranges_,
              markRangesFromPkRange this fuel (index part) key_condition
              = Return ranges_)
    parts ->
  exists parts_with_ranges,
    for_each parts
      (fun parts_with_ranges part =>
         ranges_ <- markRangesFromPkRange this fuel (index part) key_condition ;;
         if negb (empty ranges_)
         then Return (push_back parts_with_ranges
                        {| data_part := part; ranges := ranges_ |})
         else Return parts_with_ranges)
      acc = Return parts_with_ranges.
Proof.
  intros H. revert acc. induction H as [|part parts [ranges_ Hpart] _ IH]; intros acc;
    cbn [for_each]; [eexists; reflexivity|].
  rewrite Hpart. cbn [bind]. destruct (negb (empty ranges_)); cbn [bind]; apply IH.
Qed.

(** X15: [read] returns, with the stage [FetchColumns], for a query
    without a sample whose columns pass the check, when every part of the
    snapshot has a mark, the granularity of the descent is 2 at least and
    the fuel covers twice the marks of the largest part. *)
Theorem read_returns_streams :
  check (data this) column_names = Return tt ->
  sample_size query = None ->
  getSortDescription (data this) <> [] ->
  2 <= coarse_index_granularity (settings (data this)) ->
  Forall (fun part =>
            1 <= marks_count_of this (index part)
            /\ (Z.to_nat (2 * marks_count_of this (index part)) <= fuel)%nat)
    (getDataParts (data this)) ->
  exists res,
    read this random_shuffle fuel column_names query use_uncompressed_cache
      max_block_size threads = Return (FetchColumns, res).
Proof.
  intros Hcheck Hnone Hkey Hg Hparts.
  assert (Ekey : size (getSortDescription (data this)) <> 0).
  { unfold size. destruct (getSortDescription (data this)); [contradiction|cbn; lia]. }
  destruct parts_by_date_fit as [Hfit _].
  assert (Hmarks : Forall (fun part =>
                             1 <= marks_count_of this (index part)
                             /\ (Z.to_nat (2 * marks_count_of this (index part)) <= fuel)%nat)
                     (parts_by_date this query)).
  { apply Forall_forall. intros part Hin. rewrite Forall_forall in Hparts.
    apply Hparts. unfold parts_by_date, select_parts_by_date in Hin.
    apply filter_In in Hin. apply Hin. }
  set (key_condition := key_condition_of this query).
  assert (Hpruned : Forall (fun part =>
                              exists ranges_,
                                markRangesFromPkRange this fuel (index part) key_condition
                                = Return ranges_)
                      (parts_by_date this query)).
  { apply Forall_forall. intros part Hin. rewrite Forall_forall in Hfit, Hmarks.
    destruct (Hmarks part Hin) as [HM Hfuel].
    apply (markRangesFromPkRange_returns this (index part) key_condition
             granularity_fits (Hfit part Hin) fuel Ekey Hg HM Hfuel). }
  destruct (select_ranges_returns key_condition _ [] Hpruned) as [parts Hselect].
  fold (select_ranges this fuel (parts_by_date this query) key_condition) in Hselect.
  unfold read. rewrite Hcheck. cbn [bind].
  fold (parts_by_date this query) (key_condition_of this query). fold key_condition.
  unfold sampling. rewrite Hnone. cbn [bind sampled_key_condition sampled_column_names
                                         filter_function filter_expression].
  rewrite Hselect. cbn [bind].
  destruct (final query); cbn [bind]; [eexists; reflexivity|].
  pose proof (selected_parts_spreadable _ _ Hselect) as Hspread.
  destruct (select_ranges_spec this fuel _ _ [] parts Hselect) as (new & -> & Hnew & _).
  cbn [app] in *.
  assert (Hleast : Forall (fun part => 1 <= total_marks (ranges part)) new).
  { apply Forall_forall. intros p Hp. rewrite Forall_forall in Hnew, Hfit, Hmarks.
    destruct (Hnew p Hp) as (Hin & Hranges & Hne).
    apply (proper_total_marks (marks_count_of this (index (data_part p)))); [|exact Hne].
    apply (markRangesFromPkRange_proper this fuel (index (data_part p)) key_condition);
      [exact granularity_fits|apply Hfit, Hin|apply Hmarks, Hin|exact Hranges]. }
  destruct (spreadMarkRangesAmongThreads_spec this random_shuffle 1 new threads
              column_names max_block_size use_uncompressed_cache
              (option_map getActions (prewhere_expression query))
              match prewhere_expression query with
              | Some expression => getColumnName expression
              | None => EmptyString
              end (Z.le_refl 1) concurrent_fits Hspread Hleast threads_fit
              (shuffle_permutes new))
    as [(res & -> & _)|[Hfalse _]]; [|lia].
  cbn [bind]. eexists. reflexivity.
Qed.
End PlannerReads.

(** ** Sorted column names *)

Lemma ascii_compare_refl (c : Ascii.ascii) : Ascii.compare c c = Eq.
Proof. unfold Ascii.compare. apply N.compare_refl. Qed.

Lemma string_compare_lt_trans (s1 s2 s3 : string) :
  String.compare s1 s2 = Lt -> String.compare s2 s3 = Lt -> String.compare s1 s3 = Lt.
Proof.
  revert s2 s3. induction s1 as [|c1 s1 IH]; intros [|c2 s2] [|c3 s3]; cbn [String.compare];
    try discriminate; try reflexivity.
  destruct (Ascii.compare c1 c2) eqn:E12; try discriminate;
    destruct (Ascii.compare c2 c3) eqn:E23; try discriminate; intros H12 H23.
  - apply Ascii.compare_eq_iff in E12, E23. subst. rewrite ascii_compare_refl.
    apply (IH _ _ H12 H23).
  - apply Ascii.compare_eq_iff in E12. subst. rewrite E23. reflexivity.
  - apply Ascii.compare_eq_iff in E23. subst. rewrite E12. reflexivity.
  - unfold Ascii.compare in *. rewrite N.compare_lt_iff in *.
    assert (H : (Ascii.N_of_ascii c1 < Ascii.N_of_ascii c3)%N) by lia.
    apply N.compare_lt_iff in H. rewrite H. reflexivity.
Qed.

Lemma string_compare_refl (s : string) : String.compare s s = Eq.
Proof.
  induction s as [|c s IH]; [reflexivity|].
  cbn [String.compare]. rewrite ascii_compare_refl. exact IH.
Qed.

Lemma string_leb_trans (s1 s2 s3 : string) :
  String.leb s1 s2 = true -> String.leb s2 s3 = true -> String.leb s1 s3 = true.
Proof.
  unfold String.leb.
  destruct (String.compare s1 s2) eqn:E12; try discriminate;
    destruct (String.compare s2 s3) eqn:E23; try discriminate; intros _ _.
  - apply String.compare_eq_iff in E12, E23. subst.
    rewrite string_compare_refl. reflexivity.
  - apply String.compare_eq_iff in E12. subst. rewrite E23. reflexivity.
  - apply String.compare_eq_iff in E23. subst. rewrite E12. reflexivity.
  - rewrite (string_compare_lt_trans _ _ _ E12 E23). reflexivity.
Qed.

Lemma In_sorted_insert (x y : string) (v : list string) :
  In y (sorted_insert x v) <-> y = x \/ In y v.
Proof.
  induction v as [|z v IH]; cbn [sorted_insert].
  - cbn. intuition congruence.
  - destruct (String.leb x z); cbn [In]; [intuition congruence|].
    rewrite IH. intuition congruence.
Qed.

Lemma In_std_sort (y : string) (v : list string) : In y (std_sort v) <-> In y v.
Proof.
  unfold std_sort. induction v as [|x v IH]; cbn [fold_right]; [reflexivity|].
  rewrite In_sorted_insert, IH. cbn [In]. intuition congruence.
Qed.

Lemma sorted_insert_sorted (x : string) (v : list string) :
  chain (fun a b => String.leb a b = true) v ->
  chain (fun a b => String.leb a b = true) (sorted_insert x v).
Proof.
  induction v as [|z v IH]; cbn [sorted_insert]; [intros; exact I|].
  intros Hv. destruct (String.leb x z) eqn:E.
  - split; [exact E|exact Hv].
  - assert (Hzx : String.leb z x = true).
    { destruct (String.leb_total x z) as [H|H]; [congruence|exact H]. }
    destruct v as [|w v]; cbn [sorted_insert].
    + split; [exact Hzx|exact I].
    + destruct Hv as [Hzw Hv]. specialize (IH Hv). cbn [sorted_insert] in IH.
      destruct (String.leb x w); (split; [assumption|exact IH]).
Qed.

Lemma std_sort_sorted (v : list string) :
  chain (fun a b => String.leb a b = true) (std_sort v).
Proof.
  unfold std_sort. induction v as [|x v IH]; cbn [fold_right]; [exact I|].
  apply sorted_insert_sorted, IH.
Qed.

Lemma sorted_head_least (x : string) (v : list string) :
  chain (fun a b => String.leb a b = true) (x :: v) ->
  Forall (fun y => String.leb x y = true) v.
Proof.
  revert x. induction v as [|y v IH]; intros x Hv; [constructor|].
  destruct Hv as [Hxy Hv]. constructor; [exact Hxy|].
  eapply Forall_impl; [|apply (IH y Hv)]. cbn beta. intros z Hyz.
  apply (string_leb_trans _ _ _ Hxy Hyz).
Qed.

Lemma std_unique_cons (x z : string) (v : list string) :
  std_unique (x :: z :: v)
  = if String.eqb x z then std_unique (z :: v) else x :: std_unique (z :: v).
Proof. reflexivity. Qed.

Lemma In_std_unique (y : string) (v : list string) : In y (std_unique v) <-> In y v.
Proof.
  induction v as [|x v IH]; [reflexivity|].
  destruct v as [|z v]; [reflexivity|]. rewrite std_unique_cons.
  destruct (String.eqb_spec x z) as [->|Hne].
  - rewrite IH. cbn [In]. intuition congruence.
  - change (In y (x :: std_unique (z :: v))) with (x = y \/ In y (std_unique (z :: v))).
    rewrite IH. reflexivity.
Qed.

Lemma std_unique_NoDup (v : list string) :
  chain (fun a b => String.leb a b = true) v -> NoDup (std_unique v).
Proof.
  induction v as [|x v IH]; [constructor|].
  intros Hv. destruct v as [|z v]; [repeat constructor; intros []|].
  assert (Htail : chain (fun a b => String.leb a b = true) (z :: v)) by apply Hv.
  specialize (IH Htail). rewrite std_unique_cons.
  destruct (String.eqb_spec x z) as [->|Hne]; [exact IH|].
  constructor; [|exact IH].
  intros Hin. rewrite In_std_unique in Hin. destruct Hv as [Hxz _].
  destruct Hin as [Heq|Hin]; [symmetry in Heq; contradiction|].
  pose proof (sorted_head_least z v Htail) as Hleast. rewrite Forall_forall in Hleast.
  apply Hne. apply String.leb_antisym; [exact Hxz|apply Hleast, Hin].
Qed.

Lemma std_unique_sorted (v : list string) :
  chain (fun a b => String.leb a b = true) v ->
  chain (fun a b => String.leb a b = true) (std_unique v).
Proof.
  induction v as [|x v IH]; [intros; exact I|].
  intros Hv. destruct v as [|z v]; [exact I|].
  assert (Htail : chain (fun a b => String.leb a b = true) (z :: v)) by apply Hv.
  specialize (IH Htail). rewrite std_unique_cons.
  destruct (String.eqb_spec x z) as [->|Hne]; [exact IH|].
  destruct (std_unique (z :: v)) as [|h t] eqn:Eu; [exact I|].
  split; [|exact IH].
  assert (Hh : In h (z :: v)) by (apply In_std_unique; rewrite Eu; left; reflexivity).
  destruct Hv as [Hxz _]. destruct Hh as [<-|Hh]; [exact Hxz|].
  pose proof (sorted_head_least z v Htail) as Hleast. rewrite Forall_forall in Hleast.
  apply (string_leb_trans _ _ _ Hxz (Hleast h Hh)).
Qed.

(** The names [read] gives the readers after it added columns: sorted,
    without duplicates, the same names. *)
Lemma merged_names (v : list string) :
  NoDup (std_unique (std_sort v))
  /\ chain (fun a b => String.leb a b = true) (std_unique (std_sort v))
  /\ forall x, In x (std_unique (std_sort v)) <-> In x v.
Proof.
  split; [apply std_unique_NoDup, std_sort_sorted|]. split.
  - apply std_unique_sorted, std_sort_sorted.
  - intros x. rewrite In_std_unique, In_std_sort. reflexivity.
Qed.

(** ** The arguments of the readers of [read] *)

Section PlannerColumns.
Context `{CO : Collaborators}.
Variable this : MergeTreeDataSelectExecutor.
Variable random_shuffle : RangesInDataParts -> RangesInDataParts.
Variables (fuel : nat) (column_names : Names) (query : ASTSelectQuery)
  (use_uncompressed_cache : bool) (max_block_size threads : Z).

Lemma final_readers_columns (parts : RangesInDataParts) (names : Names)
    (prewhere_actions : option ExpressionActions) (prewhere_column : string) :
  Forall (fun s => stream_columns s = names)
    (flat_map readers
       (spreadMarkRangesAmongThreadsFinal this parts threads names max_block_size
          use_uncompressed_cache prewhere_actions prewhere_column)).
Proof.
  unfold spreadMarkRangesAmongThreadsFinal, createPositiveSignCondition.
  set (cache := if _ >? _ then false else use_uncompressed_cache).
  set (stream := fun part => ExpressionBlockInputStream _ _).
  assert (H : forall l, Forall (fun s => stream_columns s = names)
                          (flat_map readers (map stream l))).
  { induction l as [|part l IH]; [constructor|].
    cbn [map flat_map]. apply Forall_app. split; [|exact IH].
    constructor; [reflexivity|constructor]. }
  specialize (H parts).
  destruct parts as [|part1 [|part2 parts']]; [constructor| |].
  - cbn [map flat_map readers] in *. exact H.
  - cbn [map] in *. unfold flat_map at 1. rewrite app_nil_r. exact H.
Qed.

Lemma sampled_streams_readers (function : AST) (expression : ExpressionActions)
    (res : BlockInputStreams) :
  flat_map readers (map (sampled_stream function expression) res)
  = flat_map readers res.
Proof.
  induction res as [|s res IH]; [reflexivity|].
  cbn [map flat_map]. rewrite IH. reflexivity.
Qed.

(** X16: the columns of the readers of [read]: the columns asked for as
    they were given when the query has no sample and is not FINAL;
    otherwise these columns, those the filter of the sample needs, and for a
    FINAL query those of the primary key expression and the sign column,
    sorted and without duplicates. *)
Theorem read_columns (stage : QueryProcessingStage) (res : BlockInputStreams) :
  0 <= threads < size_t_modulus ->
  read this random_shuffle fuel column_names query use_uncompressed_cache
    max_block_size threads = Return (stage, res) ->
  exists limit,
    let sample_columns :=
      match sample_size query with
      | Some _ => getRequiredColumns (getActions (sampling_filter this limit))
      | None => []
      end in
    let final_columns :=
      if final query
      then push_back (getRequiredColumns (getPrimaryExpression (data this)))
             (sign_column (data this))
      else [] in
    forall s, In s (flat_map readers res) ->
      (forall x, In x (stream_columns s)
                 <-> In x (column_names ++ sample_columns ++ final_columns))
      /\ (sample_size query = None -> final query = false ->
          stream_columns s = column_names)
      /\ (sample_size query <> None \/ final query = true ->
          NoDup (stream_columns s)
          /\ chain (fun a b => String.leb a b = true) (stream_columns s)).
Proof.
  intros Hthreads Hrun. apply read_returns in Hrun.
  destruct Hrun as (sampled & parts & res0 & _ & _ & Hsampled & _ & Hres0 & ->).
  set (names := sampled_column_names sampled) in *.
  (* the readers of the spreader read [names], or [names] with the columns of FINAL *)
  assert (Hspread : forall s, In s (flat_map readers res0) ->
            stream_columns s
            = if final query
              then std_unique
                     (std_sort
                        (push_back
                           (names ++ getRequiredColumns (getPrimaryExpression (data this)))
                           (sign_column (data this))))
              else names).
  { unfold spreads in Hres0. destruct (final query).
    - subst res0. apply Forall_forall. apply final_readers_columns.
    - pose proof (spreadMarkRangesAmongThreads_readers this random_shuffle
                    (fun _ _ => True) (fun _ _ => True) parts threads names
                    max_block_size use_uncompressed_cache _ _ res0
                    (fun _ _ _ => I) (fun _ _ _ _ _ _ _ _ _ _ _ => conj I I) Hthreads
                    ltac:(apply Forall_forall; auto) Hres0) as [Hworkers _].
      apply reads_readers in Hworkers. rewrite Forall_forall in Hworkers.
      intros s Hs. destruct (Hworkers s Hs) as (part & v & -> & _). reflexivity. }
  (* the names after the sampling step *)
  assert (Hnames : exists limit,
            (forall value, sample_size query = Some value ->
               names = std_unique
                         (std_sort
                            (column_names
                             ++ getRequiredColumns (getActions (sampling_filter this limit))))
               /\ filter_function sampled <> None /\ filter_expression sampled <> None)
            /\ (sample_size query = None ->
                names = column_names /\ filter_function sampled = None)).
  { destruct (sample_size query) as [ast|] eqn:Esample.
    - assert (Hliteral : exists value type_, ast = ASTLiteral value type_).
      { unfold sampling in Hsampled. rewrite Esample in Hsampled.
        destruct ast; try discriminate. eexists. eexists. reflexivity. }
      destruct Hliteral as (value & type_ & ->).
      destruct (sampling_returns this fuel query _ _ column_names sampled value type_
                  Esample Hsampled)
        as (_ & relative & max & limit & _ & _ & _ & _ & _ & Hfun & Hexp & Hcolumns).
      exists limit. split.
      + intros _ _. split; [exact Hcolumns|]. rewrite Hfun, Hexp. split; discriminate.
      + discriminate.
    - exists 0. split; [discriminate|]. intros _.
      unfold sampling in Hsampled. rewrite Esample in Hsampled.
      injection Hsampled as <-. split; reflexivity. }
  destruct Hnames as (limit & Hsome & Hnone). exists limit. cbv zeta.
  assert (Hreaders : forall s,
            In s (flat_map readers
                    match filter_function sampled, filter_expression sampled with
                    | Some function, Some expression =>
                        map (sampled_stream function expression) res0
                    | _, _ => res0
                    end) ->
            In s (flat_map readers res0)).
  { intros s. destruct (filter_function sampled), (filter_expression sampled);
      rewrite ?sampled_streams_readers; auto. }
  intros s Hs. apply Hreaders, Hspread in Hs. rewrite Hs. clear Hs Hreaders Hspread.
  destruct (sample_size query) as [ast|] eqn:Esample.
  - destruct (Hsome ast eq_refl) as (Hcolumns & _). rewrite Hcolumns.
    destruct (final query).
    + split; [|split; [discriminate|]].
      * intros x. destruct (merged_names
                   (push_back
                      (std_unique
                         (std_sort
                            (column_names
                             ++ getRequiredColumns
                                  (getActions (sampling_filter this limit))))
                       ++ getRequiredColumns (getPrimaryExpression (data this)))
                      (sign_column (data this)))) as (_ & _ & Hin).
        rewrite Hin. unfold push_back. rewrite !in_app_iff.
        destruct (merged_names
                    (column_names
                     ++ getRequiredColumns (getActions (sampling_filter this limit))))
          as (_ & _ & Hin').
        rewrite Hin', !in_app_iff. tauto.
      * intros _. split; apply merged_names.
    + split; [|split; [discriminate|]].
      * intros x. rewrite app_nil_r. apply merged_names.
      * intros _. split; apply merged_names.
  - destruct (Hnone eq_refl) as [-> _].
    destruct (final query).
    + split; [|split; [discriminate|]].
      * intros x. destruct (merged_names
                   (push_back
                      (column_names
                       ++ getRequiredColumns (getPrimaryExpression (data this)))
                      (sign_column (data this)))) as (_ & _ & Hin).
        rewrite Hin. unfold push_back. cbn [app]. rewrite !in_app_iff. tauto.
      * intros _. split; apply merged_names.
    + split; [|split].
      * intros x. rewrite !app_nil_r. reflexivity.
      * reflexivity.
      * intros [H|H]; [contradiction|discriminate].
Qed.

Lemma final_readers_arguments (parts : RangesInDataParts) (names : Names)
    (prewhere_actions : option ExpressionActions) (prewhere_column : string) :
  exists cache,
    (use_uncompressed_cache = false -> cache = false)
    /\ Forall (reads this names max_block_size cache prewhere_actions prewhere_column
                 (fun _ _ => True))
         (flat_map readers
            (spreadMarkRangesAmongThreadsFinal this parts threads names max_block_size
               use_uncompressed_cache prewhere_actions prewhere_column)).
Proof.
  unfold spreadMarkRangesAmongThreadsFinal, createPositiveSignCondition.
  set (cache := if _ >? _ then false else use_uncompressed_cache).
  exists cache. split; [intros ->; unfold cache; destruct (_ >? _); reflexivity|].
  set (stream := fun part => ExpressionBlockInputStream _ _).
  assert (H : forall l,
            Forall (reads this names max_block_size cache prewhere_actions
                      prewhere_column (fun _ _ => True))
              (flat_map readers (map stream l))).
  { induction l as [|part l IH]; [constructor|].
    cbn [map flat_map]. apply Forall_app. split; [|exact IH].
    constructor; [|constructor]. exists (data_part part), (ranges part). auto. }
  specialize (H parts).
  destruct parts as [|part1 [|part2 parts']]; [constructor| |].
  - cbn [map flat_map readers] in *. exact H.
  - cbn [map] in *. unfold flat_map at 1. rewrite app_nil_r. exact H.
Qed.

(** X17: every reader of [read] reads a part from the directory of the
    part under the path of the table, in blocks of [max_block_size], with
    the PREWHERE expression of the query and its column, or none; the cache
    of uncompressed blocks is never used when the settings forbid it. *)
Theorem read_reader_arguments (stage : QueryProcessingStage) (res : BlockInputStreams)
    (s : BlockInputStream) :
  0 <= threads < size_t_modulus ->
  read this random_shuffle fuel column_names query use_uncompressed_cache
    max_block_size threads = Return (stage, res) ->
  In s (flat_map readers res) ->
  exists part v names cache,
    s = MergeTreeBlockInputStream
          (getFullPath (data this) ++ name part ++ "/")%string max_block_size names
          part v cache
          (option_map getActions (prewhere_expression query))
          match prewhere_expression query with
          | Some expression => getColumnName expression
          | None => EmptyString
          end
    /\ (use_uncompressed_cache = false -> cache = false).
Proof.
  intros Hthreads Hrun Hs. apply read_returns in Hrun.
  destruct Hrun as (sampled & parts & res0 & _ & _ & _ & _ & Hres0 & ->).
  assert (Hs0 : In s (flat_map readers res0)).
  { destruct (filter_function sampled), (filter_expression sampled);
      rewrite ?sampled_streams_readers in Hs; exact Hs. }
  clear Hs. unfold spreads in Hres0. destruct (final query).
  - subst res0.
    destruct (final_readers_arguments parts
                (std_unique
                   (std_sort
                      (push_back
                         (sampled_column_names sampled
                          ++ getRequiredColumns (getPrimaryExpression (data this)))
                         (sign_column (data this)))))
                (option_map getActions (prewhere_expression query))
                match prewhere_expression query with
                | Some expression => getColumnName expression
                | None => EmptyString
                end) as (cache & Hcache & Hall).
    rewrite Forall_forall in Hall. destruct (Hall s Hs0) as (part & v & -> & _).
    exists part, v. eexists. exists cache. split; [reflexivity|exact Hcache].
  - pose proof (spreadMarkRangesAmongThreads_readers this random_shuffle
                  (fun _ _ => True) (fun _ _ => True) parts threads
                  (sampled_column_names sampled)
                  max_block_size use_uncompressed_cache _ _ res0
                  (fun _ _ _ => I) (fun _ _ _ _ _ _ _ _ _ _ _ => conj I I) Hthreads
                  ltac:(apply Forall_forall; auto) Hres0) as [Hworkers _].
    apply reads_readers in Hworkers. rewrite Forall_forall in Hworkers.
    destruct (Hworkers s Hs0) as (part & v & -> & _).
    exists part, v. eexists. eexists. split; [reflexivity|].
    intros ->. destruct (_ >? _); reflexivity.
Qed.
End PlannerColumns.

(** ** Examples of the properties above *)

(** The table of the examples: thresholds of 0, 20 and 128 marks. *)
Lemma MergeTreeDataSelectExecutor_new_thresholds_witness :
  let data_ := table "UInt32" [] in
  let g := index_granularity data_ in
  let fits rows := 0 <= rows /\ rows + g - 1 < size_t_modulus in
  0 < g
  /\ fits (min_rows_for_seek (settings data_))
  /\ fits (min_rows_for_concurrent_read (settings data_))
  /\ fits (max_rows_to_use_cache (settings data_))
  /\ exists this,
       MergeTreeDataSelectExecutor_new data_ = Return this
       /\ min_marks_for_seek this = 0
       /\ min_marks_for_concurrent_read this = 20
       /\ max_marks_to_use_cache this = 128.
Proof.
  intros data_ g fits.
  assert (H0 : 0 < g) by (cbn; lia).
  assert (H1 : fits (min_rows_for_seek (settings data_)))
    by (unfold fits; rewrite size_t_modulus_eq; cbn; lia).
  assert (H2 : fits (min_rows_for_concurrent_read (settings data_)))
    by (unfold fits; rewrite size_t_modulus_eq; cbn; lia).
  assert (H3 : fits (max_rows_to_use_cache (settings data_)))
    by (unfold fits; rewrite size_t_modulus_eq; cbn; lia).
  refine (conj H0 (conj H1 (conj H2 (conj H3 _)))).
  destruct (MergeTreeDataSelectExecutor_new_thresholds data_ H0 H1 H2 H3)
    as (this & Hnew & _ & Hseek & Hconcurrent & Hcache).
  exists this. split; [exact Hnew|]. cbn in Hseek, Hconcurrent, Hcache. lia.
Defined.

(** A table whose cache threshold is the largest number of rows: the
    threshold in marks is 0. *)
Lemma MergeTreeDataSelectExecutor_new_overflow_witness :
  let data_ :=
    table_with
      {| min_rows_for_seek := 0; min_rows_for_concurrent_read := 20 * 8192;
         max_rows_to_use_cache := 2 ^ 64 - 1; coarse_index_granularity := 8 |}
      "UInt32" [] in
  is_size_t (index_granularity data_)
  /\ index_granularity data_ <> 0
  /\ exists this,
       MergeTreeDataSelectExecutor_new data_ = Return this
       /\ max_marks_to_use_cache this = 0.
Proof.
  intros data_.
  assert (H0 : is_size_t (index_granularity data_)) by size_t_holds.
  assert (H1 : index_granularity data_ <> 0) by (cbn; lia).
  refine (conj H0 (conj H1 _)).
  destruct (MergeTreeDataSelectExecutor_new_overflow data_ H0 H1)
    as (this & Hnew & _ & _ & Hcache).
  exists this. split; [exact Hnew|]. apply Hcache.
  split; [size_t_holds|rewrite size_t_modulus_eq; cbn; lia].
Defined.

(** A part of four marks for two threads, with a concurrency threshold of
    two marks: one reader for each thread, of two marks each. *)
Lemma spreadMarkRangesAmongThreads_stream_per_thread_witness :
  let this := executor 0 2 "UInt32" [] in
  let parts := [{| data_part := part_of "a" 4;
                   ranges := [{| begin := 0; end_ := 4 |}] |}] in
  let res := [reader (part_of "a" 4) [] [{| begin := 0; end_ := 2 |}];
              reader (part_of "a" 4) [] [{| begin := 2; end_ := 4 |}]] in
  0 <= 2 < size_t_modulus
  /\ spreadMarkRangesAmongThreads this (fun parts => parts) parts 2 [] 8192 true
       None EmptyString = Return res
  /\ size res <= 2.
Proof.
  intros this parts res.
  assert (H1 : 0 <= 2 < size_t_modulus) by (rewrite size_t_modulus_eq; lia).
  assert (H2 : spreadMarkRangesAmongThreads this (fun parts => parts) parts 2 [] 8192
                 true None EmptyString = Return res) by reflexivity.
  refine (conj H1 (conj H2 _)).
  exact (proj1 (spreadMarkRangesAmongThreads_stream_per_thread this (fun parts => parts)
                  [] 8192 true None EmptyString parts 2 res H1 H2)).
Defined.

Lemma spreadMarkRangesAmongThreads_reader_arguments_witness :
  let this := executor 0 2 "UInt32" [] in
  let parts := [{| data_part := part_of "a" 4;
                   ranges := [{| begin := 0; end_ := 4 |}] |}] in
  let res := [reader (part_of "a" 4) [] [{| begin := 0; end_ := 2 |}];
              reader (part_of "a" 4) [] [{| begin := 2; end_ := 4 |}]] in
  spreadable parts
  /\ Permutation parts parts
  /\ 0 <= 2 < size_t_modulus
  /\ spreadMarkRangesAmongThreads this (fun parts => parts) parts 2 [] 8192 true
       None EmptyString = Return res
  /\ Forall
       (reads this [] 8192 true None EmptyString
          (fun part _ => In part (map data_part parts)))
       (flat_map readers res).
Proof.
  intros this parts res.
  assert (H1 : spreadable parts).
  { split.
    - repeat constructor; cbn; rewrite ?size_t_modulus_eq; lia.
    - rewrite size_t_modulus_eq. cbn. lia. }
  assert (H2 : Permutation parts parts) by apply Permutation_refl.
  assert (H3 : 0 <= 2 < size_t_modulus) by (rewrite size_t_modulus_eq; lia).
  assert (H4 : spreadMarkRangesAmongThreads this (fun parts => parts) parts 2 [] 8192
                 true None EmptyString = Return res) by reflexivity.
  refine (conj H1 (conj H2 (conj H3 (conj H4 _)))).
  exact (spreadMarkRangesAmongThreads_reader_arguments this (fun parts => parts)
           [] 8192 true None EmptyString parts 2 res H1 H2 H3 H4).
Defined.

Lemma spreadMarkRangesAmongThreads_ranges_in_order_witness :
  let this := executor 0 2 "UInt32" [] in
  let parts := [{| data_part := part_of "a" 4;
                   ranges := [{| begin := 0; end_ := 4 |}] |}] in
  let res := [reader (part_of "a" 4) [] [{| begin := 0; end_ := 2 |}];
              reader (part_of "a" 4) [] [{| begin := 2; end_ := 4 |}]] in
  Forall (fun part => Forall well_formed (ranges part)
                      /\ chain (fun a b => end_ a <= begin b) (ranges part))
    parts
  /\ Permutation parts parts
  /\ 0 <= 2 < size_t_modulus
  /\ spreadMarkRangesAmongThreads this (fun parts => parts) parts 2 [] 8192 true
       None EmptyString = Return res
  /\ Forall
       (fun s => Forall well_formed (map snd (stream_ranges s))
                 /\ chain (fun a b => end_ a <= begin b) (map snd (stream_ranges s)))
       (flat_map readers res).
Proof.
  intros this parts res.
  assert (H1 : Forall (fun part => Forall well_formed (ranges part)
                                   /\ chain (fun a b => end_ a <= begin b) (ranges part))
                 parts).
  { repeat constructor; cbn; rewrite ?size_t_modulus_eq; lia. }
  assert (H2 : Permutation parts parts) by apply Permutation_refl.
  assert (H3 : 0 <= 2 < size_t_modulus) by (rewrite size_t_modulus_eq; lia).
  assert (H4 : spreadMarkRangesAmongThreads this (fun parts => parts) parts 2 [] 8192
                 true None EmptyString = Return res) by reflexivity.
  refine (conj H1 (conj H2 (conj H3 (conj H4 _)))).
  exact (spreadMarkRangesAmongThreads_ranges_in_order this (fun parts => parts)
           [] 8192 true None EmptyString parts 2 res H1 H2 H3 H4).
Defined.

Lemma spreadMarkRangesAmongThreads_least_share_witness :
  let this := executor 0 2 "UInt32" [] in
  let parts := [{| data_part := part_of "a" 4;
                   ranges := [{| begin := 0; end_ := 4 |}] |}] in
  let res := [reader (part_of "a" 4) [] [{| begin := 0; end_ := 2 |}];
              reader (part_of "a" 4) [] [{| begin := 2; end_ := 4 |}]] in
  is_size_t (min_marks_for_concurrent_read this)
  /\ spreadable parts
  /\ Permutation parts parts
  /\ 0 <= 2 < size_t_modulus
  /\ spreadMarkRangesAmongThreads this (fun parts => parts) parts 2 [] 8192 true
       None EmptyString = Return res
  /\ Forall
       (reads this [] 8192 true None EmptyString
          (fun part v =>
             exists p, In p parts /\ data_part p = part
                       /\ Z.min 2 (total_marks (ranges p)) <= total_marks v))
       (flat_map readers res).
Proof.
  intros this parts res.
  assert (H0 : is_size_t (min_marks_for_concurrent_read this)) by size_t_holds.
  assert (H1 : spreadable parts).
  { split.
    - repeat constructor; cbn; rewrite ?size_t_modulus_eq; lia.
    - rewrite size_t_modulus_eq. cbn. lia. }
  assert (H2 : Permutation parts parts) by apply Permutation_refl.
  assert (H3 : 0 <= 2 < size_t_modulus) by (rewrite size_t_modulus_eq; lia).
  assert (H4 : spreadMarkRangesAmongThreads this (fun parts => parts) parts 2 [] 8192
                 true None EmptyString = Return res) by reflexivity.
  refine (conj H0 (conj H1 (conj H2 (conj H3 (conj H4 _))))).
  exact (spreadMarkRangesAmongThreads_least_share this (fun parts => parts)
           [] 8192 true None EmptyString parts 2 res H0 H1 H2 H3 H4).
Defined.

(** Two hits two marks apart under a seek threshold of two marks: the one
    range of the marks 5, 6 and 7, of which the condition accepts 5 and 7. *)
Lemma markRangesFromPkRange_tight_witness :
  let this := executor 2 20 "UInt32" [] in
  let index_ := index (part_of "a" 10) in
  let key_condition := key_in [(55, 55); (75, 75)] in
  is_size_t (min_marks_for_seek this)
  /\ is_size_t (coarse_index_granularity (settings (data this)))
  /\ is_size_t (size index_)
  /\ alwaysTrue key_condition = false
  /\ markRangesFromPkRange this 20 index_ key_condition
     = Return [{| begin := 5; end_ := 8 |}]
  /\ Forall (tight 2 (accepted this index_ key_condition)) [{| begin := 5; end_ := 8 |}].
Proof.
  intros this index_ key_condition.
  assert (H1 : is_size_t (min_marks_for_seek this)) by size_t_holds.
  assert (H2 : is_size_t (coarse_index_granularity (settings (data this))))
    by size_t_holds.
  assert (H3 : is_size_t (size index_)) by size_t_holds.
  assert (H4 : alwaysTrue key_condition = false) by reflexivity.
  assert (H5 : markRangesFromPkRange this 20 index_ key_condition
               = Return [{| begin := 5; end_ := 8 |}]) by (vm_compute; reflexivity).
  refine (conj H1 (conj H2 (conj H3 (conj H4 (conj H5 _))))).
  exact (markRangesFromPkRange_tight this index_ key_condition H1 H2 H3 20 _ H4 H5).
Defined.

(** A condition on the key that every key of a part of three marks meets:
    the one range of the three marks. *)
Lemma markRangesFromPkRange_accepts_all_witness :
  let this := executor 0 20 "UInt32" [] in
  let index_ := index (part_of "a" 3) in
  let key_condition := key_in [(0, 1000)] in
  is_size_t (min_marks_for_seek this)
  /\ is_size_t (coarse_index_granularity (settings (data this)))
  /\ is_size_t (size index_)
  /\ (forall range,
        proper (marks_count_of this index_) range ->
        may_be_true index_ key_condition (size (getSortDescription (data this)))
          (marks_count_of this index_) range = Return true)
  /\ 1 <= marks_count_of this index_
  /\ markRangesFromPkRange this 6 index_ key_condition
     = Return [{| begin := 0; end_ := 3 |}].
Proof.
  intros this index_ key_condition.
  assert (H1 : is_size_t (min_marks_for_seek this)) by size_t_holds.
  assert (H2 : is_size_t (coarse_index_granularity (settings (data this))))
    by size_t_holds.
  assert (H3 : is_size_t (size index_)) by size_t_holds.
  assert (H4 : forall range,
            proper (marks_count_of this index_) range ->
            may_be_true index_ key_condition (size (getSortDescription (data this)))
              (marks_count_of this index_) range = Return true).
  { intros [b e] [Hb He]. cbn [begin end_] in Hb, He.
    change (marks_count_of this index_) with 3 in *.
    assert (Hcases : (b = 0 \/ b = 1 \/ b = 2) /\ (e = 1 \/ e = 2 \/ e = 3)) by lia.
    destruct Hcases as [[-> | [-> | ->]] [-> | [-> | ->]]]; reflexivity. }
  assert (H5 : 1 <= marks_count_of this index_) by (vm_compute; discriminate).
  refine (conj H1 (conj H2 (conj H3 (conj H4 (conj H5 _))))).
  apply (proj2 (markRangesFromPkRange_accepts_all this index_ key_condition H1 H2 H3
                  H4 H5)).
  - cbn. lia.
  - cbn. lia.
Defined.

(** A granularity of 1 on a part of two marks. *)
Lemma markRangesFromPkRange_granularity_one_witness :
  let this :=
    {| data :=
         table_with
           {| min_rows_for_seek := 0; min_rows_for_concurrent_read := 20 * 8192;
              max_rows_to_use_cache := 1024 * 1024; coarse_index_granularity := 1 |}
           "UInt32" [];
       min_marks_for_seek := 0;
       min_marks_for_concurrent_read := 20;
       max_marks_to_use_cache := 128 |} in
  let index_ := index (part_of "a" 2) in
  let key_condition := key_in [(0, 1000)] in
  is_size_t (size index_)
  /\ getSortDescription (data this) <> []
  /\ coarse_index_granularity (settings (data this)) = 1
  /\ alwaysTrue key_condition = false
  /\ 2 <= marks_count_of this index_
  /\ may_be_true index_ key_condition (size (getSortDescription (data this)))
       (marks_count_of this index_)
       {| begin := 0; end_ := marks_count_of this index_ |} = Return true
  /\ markRangesFromPkRange this 1000 index_ key_condition = OutOfFuel.
Proof.
  intros this index_ key_condition.
  assert (H1 : is_size_t (size index_)) by size_t_holds.
  assert (H2 : getSortDescription (data this) <> []) by discriminate.
  assert (H3 : coarse_index_granularity (settings (data this)) = 1) by reflexivity.
  assert (H4 : alwaysTrue key_condition = false) by reflexivity.
  assert (H5 : 2 <= marks_count_of this index_) by (vm_compute; discriminate).
  assert (H6 : may_be_true index_ key_condition (size (getSortDescription (data this)))
                 (marks_count_of this index_)
                 {| begin := 0; end_ := marks_count_of this index_ |} = Return true)
    by reflexivity.
  refine (conj H1 (conj H2 (conj H3 (conj H4 (conj H5 (conj H6 _)))))).
  exact (markRangesFromPkRange_granularity_one this index_ key_condition H1 H2 H3 H4 H5
           H6 1000).
Defined.

(** Two parts of ten marks under FINAL. *)
Lemma spreadMarkRangesAmongThreadsFinal_readers_witness :
  let parts := [{| data_part := part_of "a" 10;
                   ranges := [{| begin := 0; end_ := 10 |}] |};
                {| data_part := part_of "b" 10;
                   ranges := [{| begin := 0; end_ := 10 |}] |}] in
  let res :=
    spreadMarkRangesAmongThreadsFinal two_parts parts 3 ["key"; "sign"]%string 8192
      true None EmptyString in
  spreadable parts
  /\ flat_map readers res
     = [reader (part_of "a" 10) ["key"; "sign"]%string [{| begin := 0; end_ := 10 |}];
        reader (part_of "b" 10) ["key"; "sign"]%string [{| begin := 0; end_ := 10 |}]].
Proof.
  intros parts res.
  assert (H1 : spreadable parts).
  { split.
    - repeat constructor; cbn; rewrite ?size_t_modulus_eq; lia.
    - rewrite size_t_modulus_eq. cbn. lia. }
  refine (conj H1 _).
  exact (proj2 (spreadMarkRangesAmongThreadsFinal_readers two_parts 3
                  ["key"; "sign"]%string 8192 true None EmptyString parts) H1).
Defined.

(** A sample of 1/2 on a UInt8 sampling column, over a part of twenty
    marks with the keys 0, 10, ..., 190: the cutoff is 127 and the marks
    0 to 12 are selected and read. *)
Lemma read_reads_selected_marks_witness :
  let this := executor 0 1 "UInt8" [part_of "a" 20] in
  let query := select_sample (Float64 half) in
  let res :=
    [sample_filter 127
       (reader (part_of "a" 20) ["key"; "x"]%string [{| begin := 0; end_ := 13 |}])] in
  is_size_t (min_marks_for_seek this)
  /\ is_size_t (min_marks_for_concurrent_read this)
  /\ is_size_t (coarse_index_granularity (settings (data this)))
  /\ sum_list (map (fun part => size (index part)) (getDataParts (data this)))
     < size_t_modulus
  /\ 0 < 1 < size_t_modulus
  /\ (forall parts : RangesInDataParts, Permutation parts parts)
  /\ read this (fun parts => parts) 64 ["x"%string] query true 8192 1
     = Return (FetchColumns, res)
  /\ exists key_condition parts_with_ranges,
       selection_condition this 64 query key_condition
       /\ select_ranges this 64 (parts_by_date this query) key_condition
          = Return parts_with_ranges
       /\ Forall (fun part =>
                    markRangesFromPkRange this 64 (index (data_part part)) key_condition
                    = Return (ranges part))
            parts_with_ranges
       /\ Permutation (flat_map stream_marks res) (flat_map part_marks parts_with_ranges).
Proof.
  intros this query res.
  assert (H1 : is_size_t (min_marks_for_seek this)) by size_t_holds.
  assert (H2 : is_size_t (min_marks_for_concurrent_read this)) by size_t_holds.
  assert (H3 : is_size_t (coarse_index_granularity (settings (data this))))
    by size_t_holds.
  assert (H4 : sum_list (map (fun part => size (index part))
                           (getDataParts (data this)))
               < size_t_modulus) by (vm_compute; reflexivity).
  assert (H5 : 0 < 1 < size_t_modulus) by (rewrite size_t_modulus_eq; lia).
  assert (H6 : forall parts : RangesInDataParts, Permutation parts parts)
    by (intros parts; apply Permutation_refl).
  assert (H7 : read this (fun parts => parts) 64 ["x"%string] query true 8192 1
               = Return (FetchColumns, res)) by reflexivity.
  refine (conj H1 (conj H2 (conj H3 (conj H4 (conj H5 (conj H6 (conj H7 _))))))).
  exact (read_reads_selected_marks this (fun parts => parts) 64 ["x"%string] query true
           8192 1 H1 H2 H3 H4 H5 H6 FetchColumns res H7).
Defined.

(** The same sample: the part read is in the snapshot, its dates pass, and
    the pruner selected a range in it under the condition bounded by the
    cutoff. *)
Lemma read_parts_pass_date_witness :
  let this := executor 0 1 "UInt8" [part_of "a" 20] in
  let query := select_sample (Float64 half) in
  let part := part_of "a" 20 in
  let s :=
    sample_filter 127
      (reader part ["key"; "x"]%string [{| begin := 0; end_ := 13 |}]) in
  0 < 1 < size_t_modulus
  /\ (forall parts : RangesInDataParts, Permutation parts parts)
  /\ read this (fun parts => parts) 64 ["x"%string] query true 8192 1
     = Return (FetchColumns, [s])
  /\ In s [s]
  /\ references s part
  /\ In part (getDataParts (data this))
  /\ mayBeTrueInRange (PKCondition_new query [date_column_name (data this)])
       (mkFieldPtr [UInt64 (left_date part)] 0)
       (mkFieldPtr [UInt64 (right_date part)] 0) = true
  /\ exists key_condition ranges_,
       selection_condition this 64 query key_condition
       /\ markRangesFromPkRange this 64 (index part) key_condition = Return ranges_
       /\ ranges_ <> [].
Proof.
  intros this query part s.
  assert (H5 : 0 < 1 < size_t_modulus) by (rewrite size_t_modulus_eq; lia).
  assert (H6 : forall parts : RangesInDataParts, Permutation parts parts)
    by (intros parts; apply Permutation_refl).
  assert (H7 : read this (fun parts => parts) 64 ["x"%string] query true 8192 1
               = Return (FetchColumns, [s])) by reflexivity.
  assert (H8 : In s [s]) by (left; reflexivity).
  assert (H9 : references s part) by (left; reflexivity).
  refine (conj H5 (conj H6 (conj H7 (conj H8 (conj H9 _))))).
  exact (read_parts_pass_date this (fun parts => parts) 64 ["x"%string] query true
           8192 1 H5 H6 FetchColumns [s] s part H7 H8 H9).
Defined.


Lemma read_returns_streams_witness :
  is_size_t (min_marks_for_seek two_parts)
  /\ is_size_t (min_marks_for_concurrent_read two_parts)
  /\ is_size_t (coarse_index_granularity (settings (data two_parts)))
  /\ sum_list (map (fun part => size (index part)) (getDataParts (data two_parts)))
     < size_t_modulus
  /\ 0 < 3 < size_t_modulus
  /\ (forall parts : RangesInDataParts, Permutation parts parts)
  /\ check (data two_parts) [] = Return tt
  /\ sample_size select_all = None
  /\ getSortDescription (data two_parts) <> []
  /\ 2 <= coarse_index_granularity (settings (data two_parts))
  /\ Forall (fun part =>
               1 <= marks_count_of two_parts (index part)
               /\ (Z.to_nat (2 * marks_count_of two_parts (index part)) <= 40)%nat)
       (getDataParts (data two_parts))
  /\ exists res,
       read two_parts (fun parts => parts) 40 [] select_all true 8192 3
       = Return (FetchColumns, res).
Proof.
  assert (H1 : is_size_t (min_marks_for_seek two_parts)) by size_t_holds.
  assert (H2 : is_size_t (min_marks_for_concurrent_read two_parts)) by size_t_holds.
  assert (H3 : is_size_t (coarse_index_granularity (settings (data two_parts))))
    by size_t_holds.
  assert (H4 : sum_list (map (fun part => size (index part))
                           (getDataParts (data two_parts)))
               < size_t_modulus) by (vm_compute; reflexivity).
  assert (H5 : 0 < 3 < size_t_modulus) by (rewrite size_t_modulus_eq; lia).
  assert (H6 : forall parts : RangesInDataParts, Permutation parts parts)
    by (intros parts; apply Permutation_refl).
  assert (H7 : check (data two_parts) [] = Return tt) by reflexivity.
  assert (H8 : sample_size select_all = None) by reflexivity.
  assert (H9 : getSortDescription (data two_parts) <> []) by discriminate.
  assert (H10 : 2 <= coarse_index_granularity (settings (data two_parts)))
    by (cbn; lia).
  assert (H11 : Forall (fun part =>
                          1 <= marks_count_of two_parts (index part)
                          /\ (Z.to_nat (2 * marks_count_of two_parts (index part))
                              <= 40)%nat)
                  (getDataParts (data two_parts))).
  { repeat constructor; vm_compute; try discriminate; lia. }
  refine (conj H1 (conj H2 (conj H3 (conj H4 (conj H5 (conj H6 (conj H7 (conj H8
            (conj H9 (conj H10 (conj H11 _))))))))))).
  exact (read_returns_streams two_parts (fun parts => parts) 40 [] select_all true 8192 3
           H1 H2 H3 H4 H5 H6 H7 H8 H9 H10 H11).
Defined.

(** The columns of a FINAL query that asks for no column: the key and the
    sign. *)
Lemma read_columns_witness :
  let key := ASTIdentifier "key" Column in
  let res :=
    [CollapsingFinalBlockInputStream
       [ExpressionBlockInputStream
          (reader (part_of "a" 10) ["key"; "sign"]%string [{| begin := 0; end_ := 10 |}])
          key;
        ExpressionBlockInputStream
          (reader (part_of "b" 10) ["key"; "sign"]%string [{| begin := 0; end_ := 10 |}])
          key]
       ["key"%string] "sign"] in
  let s := reader (part_of "a" 10) ["key"; "sign"]%string [{| begin := 0; end_ := 10 |}] in
  0 <= 3 < size_t_modulus
  /\ read two_parts (fun parts => parts) 40 [] select_final true 8192 3
     = Return (FetchColumns, res)
  /\ In s (flat_map readers res)
  /\ NoDup (stream_columns s).
Proof.
  intros key res s.
  assert (H1 : 0 <= 3 < size_t_modulus) by (rewrite size_t_modulus_eq; lia).
  assert (H2 : read two_parts (fun parts => parts) 40 [] select_final true 8192 3
               = Return (FetchColumns, res)) by reflexivity.
  assert (H3 : In s (flat_map readers res)) by (left; reflexivity).
  refine (conj H1 (conj H2 (conj H3 _))).
  destruct (read_columns two_parts (fun parts => parts) 40 [] select_final true 8192 3
              FetchColumns res H1 H2) as [limit Hcolumns].
  apply (Hcolumns s H3). right. reflexivity.
Defined.

Lemma read_reader_arguments_witness :
  let res :=
    [reader (part_of "b" 10) [] [{| begin := 0; end_ := 7 |}];
     ConcatBlockInputStream
       [reader (part_of "b" 10) [] [{| begin := 7; end_ := 10 |}];
        reader (part_of "a" 10) [] [{| begin := 0; end_ := 4 |}]];
     reader (part_of "a" 10) [] [{| begin := 4; end_ := 10 |}]] in
  let s := reader (part_of "a" 10) [] [{| begin := 0; end_ := 4 |}] in
  0 <= 3 < size_t_modulus
  /\ read two_parts (fun parts => parts) 40 [] select_all true 8192 3
     = Return (FetchColumns, res)
  /\ In s (flat_map readers res)
  /\ exists part v names cache,
       s = MergeTreeBlockInputStream
             (getFullPath (data two_parts) ++ name part ++ "/")%string 8192 names
             part v cache None EmptyString
       /\ (true = false -> cache = false).
Proof.
  intros res s.
  assert (H1 : 0 <= 3 < size_t_modulus) by (rewrite size_t_modulus_eq; lia).
  assert (H2 : read two_parts (fun parts => parts) 40 [] select_all true 8192 3
               = Return (FetchColumns, res)) by reflexivity.
  assert (H3 : In s (flat_map readers res)) by (right; right; left; reflexivity).
  refine (conj H1 (conj H2 (conj H3 _))).
  exact (read_reader_arguments two_parts (fun parts => parts) 40 [] select_all true 8192
           3 FetchColumns res s H1 H2 H3).
Defined.
